(** * vimdoku: the Sudoku grid service and the solution service

    A shallow embedding of the typed grid ([GridSvc], grid service file),
    of the solution generator, validator and (de)serialiser
    ([SolutionService], solution service file) and of the position helpers
    they call, with the properties of the specification stated over them;
    and of the timer service ([TimerService]) and the shared [clamp], with
    further properties that the code of all of them shows. *)

From Stdlib Require Import ZArith Lia Bool Ascii.
From stdpp Require Import base list strings gmap pretty.

Set Warnings "-register-all".

Open Scope Z_scope.
Open Scope nat_scope.

(** ** Runtime values and errors *)

(** The values a grid can hold at run time.  The grid is generic in its
    cell type, which TypeScript erases; every cell, row and grid datum is one
    of these values.  A number is an integer, [VNum], or the exact decimal
    [mantissa]·10^[exponent] with a negative exponent, [VFrac], when it is
    not one (the rounding of decimals to doubles is not modelled; the
    numbers the grid code meets are digits). *)
Inductive JsVal : Type :=
  | VUndef
  | VNull
  | VBool (b : bool)
  | VNum (n : Z)
  | VFrac (mantissa exponent : Z)
  | VStr (s : string)
  | VArr (items : list JsVal)
  | VObj (fields : list (string * JsVal)).

(** Errors that the modelled code throws or lets through.  Modelled from
    the spec: the class [InvalidSolutionError] of the shared utilities is
    not among the sources; it carries the offending text and the underlying
    error as its cause, the two arguments [fromString] builds it from. *)
Inductive JsError : Type :=
  | TypeError (message : string)
  | SyntaxError (message : string)
  | InvalidSolutionError (text : string) (cause : JsError).

(** A computation either returns or throws. *)
Inductive result (A : Type) : Type :=
  | Ok (a : A)
  | Throw (e : JsError).
Arguments Ok {A} a.
Arguments Throw {A} e.

Global Instance result_ret : MRet result := λ A a, Ok a.
Global Instance result_bind : MBind result := λ A B k m,
  match m with
  | Ok a => k a
  | Throw e => Throw e
  end.
Global Instance result_fmap : FMap result := λ A B f m,
  match m with
  | Ok a => Ok (f a)
  | Throw e => Throw e
  end.

(** The value of an own property of an object literal, [undefined] when the
    object has no such key (the last binding wins, as in an object built
    from a text with a repeated key). *)
Fixpoint get_field (key : string) (fields : list (string * JsVal)) : JsVal :=
  match fields with
  | [] => VUndef
  | (k, v) :: rest =>
      match get_field key rest with
      | VUndef => if String.eqb k key then v else VUndef
      | later => later
      end
  end.

(** [v[key]] for an array index: reading a property of [undefined] or
    [null] throws a [TypeError] with the engine's message (the one the
    solution service matches against); an index outside an array, or any
    index of a number or boolean, reads [undefined]. *)
Definition read_index (v : JsVal) (i : nat) : result JsVal :=
  match v with
  | VUndef =>
      Throw (TypeError ("Cannot read properties of undefined (reading '" +:+ pretty i +:+ "')"))
  | VNull =>
      Throw (TypeError ("Cannot read properties of null (reading '" +:+ pretty i +:+ "')"))
  | VArr items => Ok (default VUndef (items !! i))
  | VObj fields => Ok (get_field (pretty i) fields)
  | VStr s => Ok (match String.get i s with Some c => VStr (String c EmptyString) | None => VUndef end)
  | VBool _ | VNum _ | VFrac _ _ => Ok VUndef
  end.

(** [a === b].  Primitives are compared by value.  Arrays and objects are
    compared by identity, which the value model does not carry: two of them
    are taken to be distinct objects. *)
Definition strict_eq (a b : JsVal) : bool :=
  match a, b with
  | VUndef, VUndef => true
  | VNull, VNull => true
  | VBool p, VBool q => Bool.eqb p q
  | VNum m, VNum n => Z.eqb m n
  | VFrac m e, VFrac n f => Z.eqb m n && Z.eqb e f
  | VStr s, VStr t => String.eqb s t
  | _, _ => false
  end.

(** ** Positions *)

Record Pos : Type := mkPos { y : nat; x : nat }.

Global Instance Pos_eq_dec : EqDecision Pos.
Proof. solve_decision. Defined.

Module PosSvc.

(** Modelled from the spec: the position service [PosSvc] is not among the
    sources.  [getBoxFromPos] is the spec's [boxOf]: (row÷3)·3 + col÷3. *)
Definition getBoxFromPos (p : Pos) : nat := (y p / 3) * 3 + x p / 3.

(** Modelled from the spec: [PosSvc.equalsPos] is not among the sources;
    the spec's [equals]: row and col both equal. *)
Definition equalsPos (a b : Pos) : bool :=
  Nat.eqb (y a) (y b) && Nat.eqb (x a) (x b).

(** Modelled from the spec: [PosSvc.areRelated] is not among the sources;
    the spec's [related]: same row OR same col OR same box, with no
    implicit self-exclusion. *)
Definition areRelated (a b : Pos) : bool :=
  Nat.eqb (y a) (y b) || Nat.eqb (x a) (x b)
  || Nat.eqb (getBoxFromPos a) (getBoxFromPos b).

(** Modelled from the spec: [PosSvc.getPosFromBox] is not among the
    sources; the spec's [boxOrigin], the top-left cell of the 3×3 block of
    that number: row (box÷3)·3, col (box%3)·3. *)
Definition getPosFromBox (box : nat) : Pos := mkPos ((box / 3) * 3) ((box mod 3) * 3).

(** Modelled from the spec: [PosSvc.sumPos] is not among the sources; the
    spec's [sum], component-wise addition, "used to walk a 3×3 block
    relative to a box origin". *)
Definition sumPos (a b : Pos) : Pos := mkPos (y a + y b) (x a + x b).

(** Modelled from the spec: [PosSvc.getInitsBox] is not among the sources;
    [compareWithBox] walks the 3×3 block of the cell from it, so it is the
    origin of the box that holds the position. *)
Definition getInitsBox (p : Pos) : Pos := getPosFromBox (getBoxFromPos p).

End PosSvc.

(** Modelled from the spec: the generator [iterateMatrix] is not among the
    sources; the spec has it visit every position in row-major order. *)
Definition iterateMatrix (n : nat) : list Pos :=
  r ← seq 0 n; c ← seq 0 n; [mkPos r c].

(** Modelled from the spec: [createMatrix] is not among the sources; it
    builds the n×n array of arrays whose cell at each position is given by
    the callback. *)
Definition createMatrix {A} (n : nat) (mapFn : Pos → A) : list (list A) :=
  (λ r, (λ c, mapFn (mkPos r c)) <$> seq 0 n) <$> seq 0 n.

(** Modelled from the spec: the generator [iterateArray] is not among the
    sources; the grid walks a column with it "in column order": it yields
    the indexes from 0 to n-1. *)
Definition iterateArray (n : nat) : list nat := seq 0 n.

(** ** Array methods on runtime values *)

(** What calling a method on a value that has no such method throws;
    [expr] is the source text of the callee. *)
Definition no_method {A} (v : JsVal) (expr name : string) : result A :=
  match v with
  | VUndef => Throw (TypeError ("Cannot read properties of undefined (reading '" +:+ name +:+ "')"))
  | VNull => Throw (TypeError ("Cannot read properties of null (reading '" +:+ name +:+ "')"))
  | _ => Throw (TypeError (expr +:+ "." +:+ name +:+ " is not a function"))
  end.

(** [Array.prototype.map] with the element index, left to right; the
    callback may throw. *)
Fixpoint map_from (f : JsVal → nat → result JsVal) (i : nat) (items : list JsVal)
    : result (list JsVal) :=
  match items with
  | [] => Ok []
  | v :: rest => w ← f v i; ws ← map_from f (S i) rest; Ok (w :: ws)
  end.

Definition array_map (v : JsVal) (expr : string) (f : JsVal → nat → result JsVal)
    : result JsVal :=
  match v with
  | VArr items => VArr <$> map_from f 0 items
  | _ => no_method v expr "map"
  end.

(** [Array.prototype.every]: stops at the first element the callback
    rejects. *)
Fixpoint every_from (f : JsVal → nat → result bool) (i : nat) (items : list JsVal)
    : result bool :=
  match items with
  | [] => Ok true
  | v :: rest => b ← f v i; if b : bool then every_from f (S i) rest else Ok false
  end.

Definition array_every (v : JsVal) (expr : string) (f : JsVal → nat → result bool)
    : result bool :=
  match v with
  | VArr items => every_from f 0 items
  | _ => no_method v expr "every"
  end.

(** [Array.prototype.some]: stops at the first element the callback
    accepts. *)
Fixpoint some_from (f : JsVal → nat → result bool) (i : nat) (items : list JsVal)
    : result bool :=
  match items with
  | [] => Ok false
  | v :: rest => b ← f v i; if b : bool then Ok true else some_from f (S i) rest
  end.

Definition array_some (v : JsVal) (expr : string) (f : JsVal → nat → result bool)
    : result bool :=
  match v with
  | VArr items => some_from f 0 items
  | _ => no_method v expr "some"
  end.

(** The plain decimal writing of [mantissa]·10^[exponent] for a negative
    exponent. *)
Definition frac_string (mantissa exponent : Z) : string :=
  let digits := pretty (Z.abs mantissa) in
  let places := Z.to_nat (- exponent) in
  let padded :=
    String.concat "" (replicate (S places - String.length digits) "0") +:+ digits in
  let cut := String.length padded - places in
  (if (mantissa <? 0)%Z then "-" else "")
  +:+ String.substring 0 cut padded +:+ "." +:+ String.substring cut places padded.

(** The separator-joined concatenation of already rendered elements. *)
Fixpoint join_strings (sep : string) (parts : list string) : string :=
  match parts with
  | [] => ""
  | [s] => s
  | s :: rest => s +:+ sep +:+ join_strings sep rest
  end.

(** The string an element contributes to [Array.prototype.join]:
    [undefined] and [null] contribute the empty string, nested arrays are
    joined with a comma. *)
Fixpoint join_item (v : JsVal) : string :=
  match v with
  | VUndef | VNull => ""
  | VBool b => if b then "true" else "false"
  | VNum n => pretty n
  | VFrac m e => frac_string m e
  | VStr s => s
  | VArr items => join_strings "," (join_item <$> items)
  | VObj _ => "[object Object]"
  end.

Definition array_join (v : JsVal) (expr : string) (sep : string) : result string :=
  match v with
  | VArr items => Ok (join_strings sep (join_item <$> items))
  | _ => no_method v expr "join"
  end.

(** The string that [str + v] appends for a value [v]: [undefined] and
    [null] are written out, everything else reads as it does in a join. *)
Definition to_string (v : JsVal) : string :=
  match v with
  | VUndef => "undefined"
  | VNull => "null"
  | _ => join_item v
  end.

(** ** JSON text *)

Module JSON.

(** The double quote. *)
Definition quote : ascii := Ascii.ascii_of_nat 34.

Definition is_ws (c : ascii) : bool :=
  match Ascii.nat_of_ascii c with
  | 32 | 9 | 10 | 13 => true
  | _ => false
  end.

Fixpoint skip_ws (s : string) : string :=
  match s with
  | String c rest => if is_ws c then skip_ws rest else s
  | EmptyString => s
  end.

Definition is_digit (c : ascii) : bool :=
  (48 <=? Ascii.nat_of_ascii c) && (Ascii.nat_of_ascii c <=? 57).

Definition is_hex (c : ascii) : bool :=
  let n := Ascii.nat_of_ascii c in
  is_digit c || ((65 <=? n) && (n <=? 70)) || ((97 <=? n) && (n <=? 102)).

(** The digits at the head of a text, read as a number on top of [acc],
    how many they are, and the text after them. *)
Fixpoint lex_digits (acc : Z) (count : nat) (s : string) : Z * nat * string :=
  match s with
  | String c rest =>
      if is_digit c
      then lex_digits (10 * acc + Z.of_nat (Ascii.nat_of_ascii c - 48)) (S count) rest
      else (acc, count, s)
  | EmptyString => (acc, count, s)
  end.

(** The number [mantissa]·10^[exponent]: an integer where it is one, the
    exact decimal otherwise (its rounding to a double is not modelled);
    [drop] bounds the number of trailing zeros to drop. *)
Fixpoint decimal (drop : nat) (mantissa exponent : Z) : JsVal :=
  if (0 <=? exponent)%Z then VNum (mantissa * 10 ^ exponent)
  else
    match drop with
    | S drop =>
        if (mantissa mod 10 =? 0)%Z then decimal drop (mantissa / 10) (exponent + 1)
        else VFrac mantissa exponent
    | 0 => VFrac mantissa exponent
    end.

(** A number: [-]? int [. digits]? [(e|E) (+|-)? digits]?, where int is 0
    or starts with a digit from 1 to 9. *)
Definition lex_number (s : string) : option (JsVal * string) :=
  let '(negative, s) :=
    match s with String "-" rest => (true, rest) | _ => (false, s) end in
  let int_part :=
    match s with
    | String "0" rest => Some (0%Z, rest)
    | String c _ =>
        if is_digit c then let '(n, _, rest) := lex_digits 0 0 s in Some (n, rest)
        else None
    | EmptyString => None
    end in
  match int_part with
  | None => None
  | Some (int, s) =>
      let frac_part :=
        match s with
        | String "." rest =>
            let '(m, count, rest) := lex_digits int 0 rest in
            if count is 0 then None else Some (m, count, rest)
        | _ => Some (int, 0, s)
        end in
      match frac_part with
      | None => None
      | Some (m, count, s) =>
          let exp_part :=
            match s with
            | String c rest =>
                if Ascii.eqb c "e" || Ascii.eqb c "E" then
                  let '(minus, rest) :=
                    match rest with
                    | String "-" rest => (true, rest)
                    | String "+" rest => (false, rest)
                    | _ => (false, rest)
                    end in
                  let '(e, digits, rest) := lex_digits 0 0 rest in
                  if digits is 0 then None
                  else Some (if minus : bool then (- e)%Z else e, rest)
                else Some (0%Z, s)
            | EmptyString => Some (0%Z, s)
            end in
          match exp_part with
          | None => None
          | Some (e, s) =>
              let m := if negative : bool then (- m)%Z else m in
              let exponent := (e - Z.of_nat count)%Z in
              Some (decimal (Z.to_nat (- exponent)) m exponent, s)
          end
      end
  end.

(** The characters of a string up to its closing quote, kept as they are
    written: an escape is checked, not decoded. *)
Fixpoint lex_string (s : string) : option (string * string) :=
  match s with
  | EmptyString => None
  | String "\" (String "u" (String a (String b (String c (String d rest))))) =>
      if is_hex a && is_hex b && is_hex c && is_hex d then
        '(str, rest) ← lex_string rest;
        Some (String "\" (String "u" (String a (String b (String c (String d str))))), rest)
      else None
  | String "\" (String e rest) =>
      if existsb (Ascii.eqb e) (quote :: String.list_ascii_of_string "\/bfnrt") then
        '(str, rest) ← lex_string rest; Some (String "\" (String e str), rest)
      else None
  | String c rest =>
      if Ascii.eqb c quote then Some ("", rest)
      else if Ascii.nat_of_ascii c <? 32 then None
      else '(str, rest) ← lex_string rest; Some (String c str, rest)
  end.

Definition lex_word (word : string) (v : JsVal) (s : string) : option (JsVal * string) :=
  if String.prefix word s
  then Some (v, String.substring (String.length word) (String.length s) s)
  else None.

(** A value, the elements of an array after its bracket, and the members
    of an object after its brace; [fuel] bounds the number of nested
    calls. *)
Fixpoint parse_value (fuel : nat) (s : string) : option (JsVal * string) :=
  match fuel with
  | 0 => None
  | S fuel =>
      match skip_ws s with
      | String "n" _ as s => lex_word "null" VNull s
      | String "t" _ as s => lex_word "true" (VBool true) s
      | String "f" _ as s => lex_word "false" (VBool false) s
      | String "[" rest =>
          match skip_ws rest with
          | String "]" rest => Some (VArr [], rest)
          | _ => '(items, rest) ← parse_elements fuel rest; Some (VArr items, rest)
          end
      | String "{" rest =>
          match skip_ws rest with
          | String "}" rest => Some (VObj [], rest)
          | _ => '(fields, rest) ← parse_members fuel rest; Some (VObj fields, rest)
          end
      | String c rest as s =>
          if Ascii.eqb c quote
          then '(str, rest) ← lex_string rest; Some (VStr str, rest)
          else lex_number s
      | EmptyString => None
      end
  end
with parse_elements (fuel : nat) (s : string) : option (list JsVal * string) :=
  match fuel with
  | 0 => None
  | S fuel =>
      '(v, rest) ← parse_value fuel s;
      match skip_ws rest with
      | String "," rest => '(vs, rest) ← parse_elements fuel rest; Some (v :: vs, rest)
      | String "]" rest => Some ([v], rest)
      | _ => None
      end
  end
with parse_members (fuel : nat) (s : string) : option (list (string * JsVal) * string) :=
  match fuel with
  | 0 => None
  | S fuel =>
      match skip_ws s with
      | String c rest =>
          if Ascii.eqb c quote then
            '(key, rest) ← lex_string rest;
            match skip_ws rest with
            | String ":" rest =>
                '(v, rest) ← parse_value fuel rest;
                match skip_ws rest with
                | String "," rest =>
                    '(kvs, rest) ← parse_members fuel rest; Some ((key, v) :: kvs, rest)
                | String "}" rest => Some ([(key, v)], rest)
                | _ => None
                end
            | _ => None
            end
          else None
      | EmptyString => None
      end
  end.

(** [JSON.parse(text)]: one value with nothing but white space after it;
    anything else is a [SyntaxError] (the engine's message, which names
    the offending character, is not modelled).  The fuel is twice the length
    of the text: a bracket, brace, colon or comma of the text opens two
    nested calls at most. *)
Definition parse (text : string) : result JsVal :=
  match parse_value (2 * String.length text + 2) text with
  | Some (v, rest) =>
      if skip_ws rest is EmptyString then Ok v
      else Throw (SyntaxError "Unexpected token in JSON")
  | None => Throw (SyntaxError "Unexpected token in JSON")
  end.

(** [JSON.stringify(v)] for a value inside a document; [undefined] reads
    [null] as it does inside an array, and a member whose value is
    [undefined] is left out. *)
Fixpoint stringify (v : JsVal) : string :=
  match v with
  | VUndef | VNull => "null"
  | VBool b => if b then "true" else "false"
  | VNum n => pretty n
  | VFrac m e => frac_string m e
  | VStr s => String quote (s +:+ String quote "")
  | VArr items => "[" +:+ join_strings "," (stringify <$> items) +:+ "]"
  | VObj fields =>
      "{" +:+ join_strings ","
        (mjoin ((λ '(key, v),
                   match v with
                   | VUndef => []
                   | _ => [String quote (key +:+ String quote ":" +:+ stringify v)]
                   end) <$> fields)) +:+ "}"
  end.

End JSON.

(** ** The grid service *)

(** An instance holds its private [#data].  The solution service knows the
    class under the name [GridService]. *)
Record GridSvc : Type := mkGridSvc { data_ : JsVal }.

(** A callback over cells, [CBFn]; a comparison callback, [CompareCBFn]. *)
Definition CBFn (U : Type) : Type := JsVal → Pos → U.
Definition CompareCBFn (U : Type) : Type := JsVal → JsVal → Pos → U.

Module GridSvc.

(** [constructor(data)]: stores the data. *)
Definition new (data : JsVal) : result GridSvc := Ok (mkGridSvc data).

(** [getCell({ y, x })]: [this.#data[y][x]]. *)
Definition getCell (this : GridSvc) (pos : Pos) : result JsVal :=
  row ← read_index (data_ this) (y pos); read_index row (x pos).

(** [#mapData(mapFn)]. *)
Definition mapData (this : GridSvc) (mapFn : CBFn (result JsVal)) : result JsVal :=
  array_map (data_ this) "this.#data" (λ row r,
    array_map row "row" (λ cell c, mapFn cell (mkPos r c))).

(** [get data()]. *)
Definition data (this : GridSvc) : result JsVal :=
  mapData this (λ cell _, Ok cell).

(** Modelled from the spec: the accessor [value] that the solution service
    reads is declared by the grid interface [IGrid] ("the value as a
    two-dimensional array representing the Sudoku grid"), and the grid
    service among the sources has no accessor of that name; it is the
    array the grid service hands out under the name [data]. *)
Definition value (this : GridSvc) : result JsVal := data this.

(** [copy()]. *)
Definition copy (this : GridSvc) : result GridSvc :=
  d ← data this; new d.

(** The loop of [compareRelated] over the positions still to visit. *)
Fixpoint compareRelated_loop (this : GridSvc) (cellPos : Pos) (fn : CompareCBFn bool)
    (todo : list Pos) : result bool :=
  match todo with
  | [] => Ok true
  | currPos :: rest =>
      if PosSvc.areRelated cellPos currPos then
        self ← getCell this cellPos;
        other ← getCell this currPos;
        if negb (fn self other currPos) then Ok false
        else compareRelated_loop this cellPos fn rest
      else compareRelated_loop this cellPos fn rest
  end.

(** [compareRelated(cellPos, fn)]. *)
Definition compareRelated (this : GridSvc) (cellPos : Pos) (fn : CompareCBFn bool)
    : result bool :=
  compareRelated_loop this cellPos fn (iterateMatrix 9).

(** [compareRelated] once more, this time keeping the log of its calls of
    [fn]: the candidate positions the callback is called with, in order. *)
Fixpoint compareRelated_log (this : GridSvc) (cellPos : Pos) (fn : CompareCBFn bool)
    (todo : list Pos) : list Pos * result bool :=
  match todo with
  | [] => ([], Ok true)
  | currPos :: rest =>
      if PosSvc.areRelated cellPos currPos then
        match (self ← getCell this cellPos; other ← getCell this currPos; Ok (self, other)) with
        | Throw err => ([], Throw err)
        | Ok (self, other) =>
            if negb (fn self other currPos) then ([currPos], Ok false)
            else
              let '(calls, answer) := compareRelated_log this cellPos fn rest in
              (currPos :: calls, answer)
        end
      else compareRelated_log this cellPos fn rest
  end.

(** [editCell(cellPos, fn)]. *)
Definition editCell (this : GridSvc) (cellPos : Pos) (fn : CBFn JsVal) : result GridSvc :=
  newGrid ← mapData this (λ cell pos,
    if PosSvc.equalsPos cellPos pos
    then (self ← getCell this cellPos; Ok (fn self cellPos))
    else Ok cell);
  new newGrid.

(** [everyGrid(fn)]. *)
Definition everyGrid (this : GridSvc) (fn : CBFn bool) : result bool :=
  array_every (data_ this) "this.#data" (λ row r,
    array_every row "row" (λ cell c, Ok (fn cell (mkPos r c)))).

(** [someGrid(fn)]. *)
Definition someGrid (this : GridSvc) (fn : CBFn bool) : result bool :=
  array_some (data_ this) "this.#data" (λ row r,
    array_some row "row" (λ cell c, Ok (fn cell (mkPos r c)))).

(** [joinGrid({ x = '', y = '' })]: the separators arrive as an object and
    are read under the keys [x] and [y], each defaulting to the empty
    string when the object has no such key. *)
Definition joinGrid (this : GridSvc) (separators : gmap string string) : result string :=
  let x := default "" (separators !! "x") in
  let y := default "" (separators !! "y") in
  rows ← array_map (data_ this) "this.#data" (λ Row _, VStr <$> array_join Row "Row" y);
  array_join rows "this.#data.map(...)" x.

(** [static create(mapFn)]. *)
Definition create (mapFn : Pos → JsVal) : result GridSvc :=
  new (VArr (VArr <$> createMatrix 9 mapFn)).

(** [compareWithBox], [compareWithCol] and [compareWithRow] run one loop
    body over their candidate positions:
    [if (differs && !fn(this.getCell(cellPos), this.getCell(currPos), currPos)) return false],
    where [differs] is the test that leaves the position itself out. *)
Fixpoint compareWith_loop (this : GridSvc) (cellPos : Pos) (fn : CompareCBFn bool)
    (differs : Pos → bool) (todo : list Pos) : result bool :=
  match todo with
  | [] => Ok true
  | currPos :: rest =>
      if differs currPos then
        self ← getCell this cellPos;
        other ← getCell this currPos;
        if negb (fn self other currPos) then Ok false
        else compareWith_loop this cellPos fn differs rest
      else compareWith_loop this cellPos fn differs rest
  end.

(** The same loop, keeping the log of the candidate positions that [fn] is
    called with. *)
Fixpoint compareWith_log (this : GridSvc) (cellPos : Pos) (fn : CompareCBFn bool)
    (differs : Pos → bool) (todo : list Pos) : list Pos * result bool :=
  match todo with
  | [] => ([], Ok true)
  | currPos :: rest =>
      if differs currPos then
        match (self ← getCell this cellPos; other ← getCell this currPos; Ok (self, other)) with
        | Throw err => ([], Throw err)
        | Ok (self, other) =>
            if negb (fn self other currPos) then ([currPos], Ok false)
            else
              let '(calls, answer) := compareWith_log this cellPos fn differs rest in
              (currPos :: calls, answer)
        end
      else compareWith_log this cellPos fn differs rest
  end.

(** The candidate positions of [compareWithBox]: [PosSvc.sumPos(pos, box)]
    for each [pos] of [iterateMatrix(3)]; its test is
    [!PosSvc.equalsPos(cellPos, currPos)]. *)
Definition box_candidates (cellPos : Pos) : list Pos :=
  let box := PosSvc.getInitsBox cellPos in
  (λ pos, PosSvc.sumPos pos box) <$> iterateMatrix 3.

(** [compareWithBox(cellPos, fn)]. *)
Definition compareWithBox (this : GridSvc) (cellPos : Pos) (fn : CompareCBFn bool)
    : result bool :=
  compareWith_loop this cellPos fn (λ currPos, negb (PosSvc.equalsPos cellPos currPos))
    (box_candidates cellPos).

(** The candidate positions of [compareWithCol]: [{ y, x }] for each [y] of
    [iterateArray(9)], [x] being the column of the cell; its test is
    [y !== cellPos.y]. *)
Definition col_candidates (cellPos : Pos) : list Pos :=
  let x := x cellPos in
  (λ r, mkPos r x) <$> iterateArray 9.

(** [compareWithCol(cellPos, fn)]. *)
Definition compareWithCol (this : GridSvc) (cellPos : Pos) (fn : CompareCBFn bool)
    : result bool :=
  compareWith_loop this cellPos fn (λ currPos, negb (y currPos =? y cellPos))
    (col_candidates cellPos).

(** The candidate positions of [compareWithRow]: [{ y, x }] for each [x] of
    [iterateArray(9)], [y] being the row of the cell; its test is
    [x !== cellPos.x]. *)
Definition row_candidates (cellPos : Pos) : list Pos :=
  let y := y cellPos in
  (λ c, mkPos y c) <$> iterateArray 9.

(** [compareWithRow(cellPos, fn)]. *)
Definition compareWithRow (this : GridSvc) (cellPos : Pos) (fn : CompareCBFn bool)
    : result bool :=
  compareWith_loop this cellPos fn (λ currPos, negb (x currPos =? x cellPos))
    (row_candidates cellPos).

(** [compareWithBox], [compareWithCol] and [compareWithRow] with the log
    of the calls of [fn]. *)
Definition compareWithBox_log (this : GridSvc) (cellPos : Pos) (fn : CompareCBFn bool)
    : list Pos * result bool :=
  compareWith_log this cellPos fn (λ currPos, negb (PosSvc.equalsPos cellPos currPos))
    (box_candidates cellPos).

Definition compareWithCol_log (this : GridSvc) (cellPos : Pos) (fn : CompareCBFn bool)
    : list Pos * result bool :=
  compareWith_log this cellPos fn (λ currPos, negb (y currPos =? y cellPos))
    (col_candidates cellPos).

Definition compareWithRow_log (this : GridSvc) (cellPos : Pos) (fn : CompareCBFn bool)
    : list Pos * result bool :=
  compareWith_log this cellPos fn (λ currPos, negb (x currPos =? x cellPos))
    (row_candidates cellPos).

(** The loop of [count] over the positions still to visit, with the
    counter [asserts]. *)
Fixpoint count_loop (this : GridSvc) (fnCond : CBFn bool) (asserts : nat)
    (todo : list Pos) : result nat :=
  match todo with
  | [] => Ok asserts
  | pos :: rest =>
      cell ← getCell this pos;
      count_loop this fnCond (if fnCond cell pos then S asserts else asserts) rest
  end.

(** [count(fnCond)]. *)
Definition count (this : GridSvc) (fnCond : CBFn bool) : result nat :=
  count_loop this fnCond 0 (iterateMatrix 9).

(** The loop of [everyBox] and [everyCol] over the positions still to
    visit: [if (!fn(this.getCell(currPos), currPos)) return false]. *)
Fixpoint every_loop (this : GridSvc) (fn : CBFn bool) (todo : list Pos) : result bool :=
  match todo with
  | [] => Ok true
  | currPos :: rest =>
      cell ← getCell this currPos;
      if negb (fn cell currPos) then Ok false else every_loop this fn rest
  end.

(** [everyBox(box, fn)]. *)
Definition everyBox (this : GridSvc) (box : nat) (fn : CBFn bool) : result bool :=
  let boxPos := PosSvc.getPosFromBox box in
  every_loop this fn ((λ pos, PosSvc.sumPos boxPos pos) <$> iterateMatrix 3).

(** [everyCol(x, fn)]. *)
Definition everyCol (this : GridSvc) (x : nat) (fn : CBFn bool) : result bool :=
  every_loop this fn ((λ y, mkPos y x) <$> iterateArray 9).

(** [everyRow(y, fn)]. *)
Definition everyRow (this : GridSvc) (y : nat) (fn : CBFn bool) : result bool :=
  row ← read_index (data_ this) y;
  array_every row "this.#data[y]" (λ cell x, Ok (fn cell (mkPos y x))).

(** The loop of [someBox] and [someCol] over the positions still to visit:
    [if (fn(this.#data[y][x], { y, x })) return true]. *)
Fixpoint some_loop (this : GridSvc) (fn : CBFn bool) (todo : list Pos) : result bool :=
  match todo with
  | [] => Ok false
  | currPos :: rest =>
      cell ← getCell this currPos;
      if fn cell currPos then Ok true else some_loop this fn rest
  end.

(** [someBox(box, fn)]. *)
Definition someBox (this : GridSvc) (box : nat) (fn : CBFn bool) : result bool :=
  let boxPos := PosSvc.getPosFromBox box in
  some_loop this fn ((λ pos, PosSvc.sumPos boxPos pos) <$> iterateMatrix 3).

(** [someCol(x, fn)]. *)
Definition someCol (this : GridSvc) (x : nat) (fn : CBFn bool) : result bool :=
  some_loop this fn ((λ y, mkPos y x) <$> iterateArray 9).

(** [someRow(y, fn)]. *)
Definition someRow (this : GridSvc) (y : nat) (fn : CBFn bool) : result bool :=
  row ← read_index (data_ this) y;
  array_some row "this.#data[y]" (λ cell x, Ok (fn cell (mkPos y x))).

(** The loop of [joinBox] over the offsets still to visit, with the text
    [str] built so far. *)
Fixpoint joinBox_loop (this : GridSvc) (boxPos : Pos) (rowSep colSep : string)
    (str : string) (todo : list Pos) : result string :=
  match todo with
  | [] => Ok str
  | pos :: rest =>
      let currPos := PosSvc.sumPos pos boxPos in
      cell ← getCell this currPos;
      joinBox_loop this boxPos rowSep colSep
        (if (y pos =? 0) && (x pos =? 0) then str +:+ to_string cell
         else if x pos =? 0 then str +:+ (colSep +:+ to_string cell)
         else str +:+ (rowSep +:+ to_string cell))
        rest
  end.

(** [joinBox(box, { y: rowSep = '', x: colSep = '' })]. *)
Definition joinBox (this : GridSvc) (box : nat) (separators : gmap string string)
    : result string :=
  let rowSep := default "" (separators !! "y") in
  let colSep := default "" (separators !! "x") in
  let boxPos := PosSvc.getPosFromBox box in
  joinBox_loop this boxPos rowSep colSep "" (iterateMatrix 3).

(** The loop of [joinCol] over the rows still to visit. *)
Fixpoint joinCol_loop (this : GridSvc) (x : nat) (rowSeparator : string)
    (str : string) (todo : list nat) : result string :=
  match todo with
  | [] => Ok str
  | y :: rest =>
      cell ← getCell this (mkPos y x);
      joinCol_loop this x rowSeparator
        (if y =? 0 then str +:+ to_string cell
         else str +:+ (rowSeparator +:+ to_string cell))
        rest
  end.

(** [joinCol(x, rowSeparator)]. *)
Definition joinCol (this : GridSvc) (x : nat) (rowSeparator : string) : result string :=
  joinCol_loop this x rowSeparator "" (iterateArray 9).

(** [joinRow(rowIndex, colSeparator)]. *)
Definition joinRow (this : GridSvc) (rowIndex : nat) (colSeparator : string)
    : result string :=
  row ← read_index (data_ this) rowIndex;
  array_join row "this.#data[rowIndex]" colSeparator.

(** [#condMap(cond, map)]. *)
Definition condMap (cond : Pos → bool) (map : CBFn JsVal) : CBFn JsVal :=
  λ cell pos, if cond pos then map cell pos else cell.

(** [mapBox(box, fn)]. *)
Definition mapBox (this : GridSvc) (box : nat) (fn : CBFn JsVal) : result GridSvc :=
  newData ← mapData this (λ cell pos,
    Ok (condMap (λ curr, PosSvc.getBoxFromPos curr =? box) fn cell pos));
  new newData.

(** [mapCol(x, fn)]. *)
Definition mapCol (this : GridSvc) (col : nat) (fn : CBFn JsVal) : result GridSvc :=
  newData ← mapData this (λ cell pos, Ok (condMap (λ curr, x curr =? col) fn cell pos));
  new newData.

(** [mapFiltered(filter, map)]. *)
Definition mapFiltered (this : GridSvc) (filter : CBFn bool) (map : CBFn JsVal)
    : result GridSvc :=
  newData ← mapData this (λ cell currPos,
    Ok (if filter cell currPos then map cell currPos else cell));
  new newData.

(** [mapGrid(fn)]. *)
Definition mapGrid (this : GridSvc) (fn : CBFn JsVal) : result GridSvc :=
  newData ← mapData this (λ cell pos, Ok (fn cell pos));
  new newData.

(** [mapRelated(cellPos, fn)]. *)
Definition mapRelated (this : GridSvc) (cellPos : Pos) (fn : CBFn JsVal) : result GridSvc :=
  newData ← mapData this (λ cell pos,
    Ok (condMap (λ curr, negb (PosSvc.equalsPos cellPos curr) && PosSvc.areRelated cellPos curr)
          fn cell pos));
  new newData.

(** [mapRow(y, fn)]. *)
Definition mapRow (this : GridSvc) (row : nat) (fn : CBFn JsVal) : result GridSvc :=
  newData ← mapData this (λ cell pos, Ok (condMap (λ curr, y curr =? row) fn cell pos));
  new newData.

(** The rows of a grid that [groupSubgrids] is still building: an element
    that was never assigned is a hole, [None]. *)
Definition SparseRows : Type := list (list (option JsVal)).

(** Modelled from the spec: [createArray] is not among the sources; it is
    the one-dimensional companion of [createMatrix], the array of the given
    length whose elements the callback gives.
    [createArray(9, () => Array(9))] is nine rows of nine holes each. *)
Definition blank_rows : SparseRows := replicate 9 (replicate 9 None).

(** [#mutateCell({ y, x }, newCell)] on such rows, for a position that
    lies inside them (the only ones [groupSubgrids] writes at). *)
Definition mutate_rows (rows : SparseRows) (pos : Pos) (newCell : JsVal) : SparseRows :=
  alter (λ row, <[x pos := Some newCell]> row) (y pos) rows.

(** The names that an object literal inherits from [Object.prototype]:
    [key in newGrid] holds of them although [newGrid] has no such property
    of its own. *)
Definition inherited_keys : list string :=
  [ "constructor"; "__defineGetter__"; "__defineSetter__"; "hasOwnProperty";
    "__lookupGetter__"; "__lookupSetter__"; "isPrototypeOf"; "propertyIsEnumerable";
    "toString"; "valueOf"; "__proto__"; "toLocaleString" ].

(** The inner loop of [groupSubgrids] over the keys still to visit.  The
    callback's result is an object, given by its own enumerable properties,
    each key once; [newGrid] maps the keys it has of its own to the rows of
    their grids.  Under an inherited name no grid is made, and what is found
    there is no grid: calling [#mutateCell] on it throws. *)
Fixpoint group_keys (pos : Pos) (record : list (string * JsVal)) (keys : list string)
    (newGrid : gmap string SparseRows) : result (gmap string SparseRows) :=
  match keys with
  | [] => Ok newGrid
  | key :: rest =>
      match newGrid !! key with
      | Some rows =>
          group_keys pos record rest
            (<[key := mutate_rows rows pos (get_field key record)]> newGrid)
      | None =>
          if bool_decide (key ∈ inherited_keys)
          then Throw (TypeError "Receiver must be an instance of class GridSvc")
          else
            group_keys pos record rest
              (<[key := mutate_rows blank_rows pos (get_field key record)]> newGrid)
      end
  end.

(** The outer loop of [groupSubgrids] over the positions still to visit. *)
Fixpoint group_loop (this : GridSvc) (fn : CBFn (list (string * JsVal)))
    (newGrid : gmap string SparseRows) (todo : list Pos)
    : result (gmap string SparseRows) :=
  match todo with
  | [] => Ok newGrid
  | pos :: rest =>
      cell ← getCell this pos;
      let record := fn cell pos in
      newGrid ← group_keys pos record (fst <$> record) newGrid;
      group_loop this fn newGrid rest
  end.

(** [groupSubgrids(fn)]: the rows of the grid made under each key. *)
Definition groupSubgrids (this : GridSvc) (fn : CBFn (list (string * JsVal)))
    : result (gmap string SparseRows) :=
  group_loop this fn ∅ (iterateMatrix 9).

End GridSvc.

(** The data of a well-typed grid: an array of row arrays. *)
Definition matrix (rows : list (list JsVal)) : JsVal := VArr (VArr <$> rows).

(** The cell of such data at a position, [undefined] outside it. *)
Definition cell (rows : list (list JsVal)) (pos : Pos) : JsVal :=
  default VUndef (rows !! y pos ≫= λ row, row !! x pos).

(** Exactly nine rows of exactly nine columns. *)
Definition shape9 {A} (rows : list (list A)) : Prop :=
  length rows = 9 ∧ Forall (λ row, length row = 9) rows.

Definition inside (pos : Pos) : Prop := y pos < 9 ∧ x pos < 9.

(** Modelled from the spec: the helper [box] of the shared utilities is not
    among the sources.  The generator scans "that cell's box" with it:
    [box.row i row] and [box.col i col], for [i] from 0 to 8, are the row and
    the column of the [i]-th cell, in row-major order, of the 3×3 box that
    holds the cell at ([row], [col]). *)
Module box.
Definition row (i r : nat) : nat := (r / 3) * 3 + i / 3.
Definition col (i c : nat) : nat := (c / 3) * 3 + i mod 3.
End box.

(** A [number[][]] as grid data. *)
Definition digits (rows : list (list Z)) : list (list JsVal) :=
  (λ row : list Z, VNum <$> row) <$> rows.

(** ** The solution service *)

(** [notArrayErrorMsgRgx().test(message)]: the message starts with
    [Cannot read properties of undefined (reading '], one character from
    [0] to [8], and [')]. *)
Definition notArrayErrorMsgRgx_test (message : string) : bool :=
  let head := "Cannot read properties of undefined (reading '" in
  String.prefix head message &&
  match String.get (String.length head) message with
  | Some c => (48 <=? Ascii.nat_of_ascii c) && (Ascii.nat_of_ascii c <=? 56)
  | None => false
  end &&
  String.prefix "')" (String.substring (S (String.length head)) 2 message).

(** The line feed of the row divider. *)
Definition newline : string := String (Ascii.ascii_of_nat 10) "".

(** An instance holds its private [#grid]. *)
Record SolutionService : Type := mkSolutionService { grid_ : GridSvc }.

Module SolutionService.

(** The callback of [check]: [(comp, current) => comp === current]. *)
Definition same_cell : CompareCBFn bool := λ comp current _, strict_eq comp current.

(** The loop of [check] over the positions still to visit. *)
Fixpoint check_loop (grid : GridSvc) (todo : list Pos) : result bool :=
  match todo with
  | [] => Ok true
  | pos :: rest =>
      same ← GridSvc.compareRelated grid pos same_cell;
      if same : bool then Ok false else check_loop grid rest
  end.

(** [check(grid)]: the loop inside [try], and the [catch] that answers
    false for the missing-row [TypeError] and rethrows anything else. *)
Definition check (grid : GridSvc) : result bool :=
  match check_loop grid (iterateMatrix 9) with
  | Ok b => Ok b
  | Throw err =>
      match err with
      | TypeError message =>
          if notArrayErrorMsgRgx_test message then Ok false else Throw err
      | _ => Throw err
      end
  end.

(** [get grid()]. *)
Definition grid (this : SolutionService) : result GridSvc :=
  GridSvc.copy (grid_ this).

(** [toJSON()]. *)
Definition toJSON (this : SolutionService) : result JsVal :=
  GridSvc.value (grid_ this).

(** [toString()]: the separators are handed to [joinGrid] in an object
    with the keys [col] and [row]. *)
Definition toString (this : SolutionService) : result string :=
  let col := " | " in
  let row := newline +:+ "- - - + - - - + - - -" +:+ newline in
  copy ← grid this;
  GridSvc.joinGrid copy {[ "col" := col; "row" := row ]}.

(** [fromString(solutionLike)]: whatever the [try] block throws is
    wrapped, with the text, in an [InvalidSolutionError]. *)
Definition fromString (solutionLike : string) : result SolutionService :=
  let attempt :=
    initSolution ← JSON.parse solutionLike;
    grid ← GridSvc.new initSolution;
    Ok (mkSolutionService grid) in
  match attempt with
  | Ok solution => Ok solution
  | Throw err => Throw (InvalidSolutionError solutionLike err)
  end.

(** *** The generator *)

(** The generator works on a plain [number[][]] that it creates with
    nine rows of nine zeros and only ever writes inside; [read] is
    [value[r][c]], with [None] for [undefined]. *)
Definition read (value : list (list Z)) (r c : nat) : option Z :=
  value !! r ≫= λ row, row !! c.

(** [value[r][c] = num]. *)
Definition write (value : list (list Z)) (r c : nat) (num : Z) : list (list Z) :=
  alter (λ row, <[c := num]> row) r value.

(** [cell === num] for a cell that was read. *)
Definition is_num (cell : option Z) (num : Z) : bool :=
  match cell with
  | Some n => Z.eqb n num
  | None => false
  end.

(** [#cellIsSafe(value, num, { row, col })]; the position's [row] and
    [col] are the fields [y] and [x] of [Pos]. *)
Definition cellIsSafe (value : list (list Z)) (num : Z) (pos : Pos) : bool :=
  let row := y pos in
  let col := x pos in
  if negb (is_num (read value row col) 0) then false
  else
    forallb (λ i,
      negb (is_num (read value row i) num)
      && negb (is_num (read value i col) num)
      && negb (is_num (read value (box.row i row) (box.col i col)) num))
      (seq 0 9).

(** [for (const num of numbers) if (cellIsSafe(value, num, pos))
    value[row][col] = num]. *)
Definition place (pos : Pos) (numbers : list Z) (value : list (list Z))
    : list (list Z) :=
  foldl (λ value num,
    if cellIsSafe value num pos then write value (y pos) (x pos) num else value)
    value numbers.

(** The body of the inner loop up to its test: both placements with one
    draw of [randomNumbers()], the second in reversed order. *)
Definition fill_pair (numbers : list Z) (i j : nat) (value : list (list Z))
    : list (list Z) :=
  place (mkPos j i) (reverse numbers) (place (mkPos i j) numbers value).

(** The two nested loops of [#fillSolution], one step per recursive call.
    The helper [randomNumbers] is not among the sources (the spec has it
    shuffle the digits 1 to 9); here [randomNumbers] is the sequence of
    candidate lists that its calls return, whatever they are, and [k]
    counts the calls made so far.  [fuel] bounds the number of steps: the
    source has no bound, and [None] means that the run has not returned
    within [fuel] steps.
    - [i] has reached 9: the outer loop is over, return the matrix;
    - [j] has reached 9: the inner loop is over, [i++] and [j = i];
    - a cell of the pair stayed 0: [retry()] (fresh matrix, [i = -1]),
      [break], then [i++] and [j = i];
    - otherwise [j++]. *)
Fixpoint fill_loop (fuel : nat) (randomNumbers : nat → list Z) (k : nat)
    (value : list (list Z)) (i j : nat) : option (list (list Z)) :=
  match fuel with
  | 0 => None
  | S fuel =>
      if 9 <=? i then Some value
      else if 9 <=? j then fill_loop fuel randomNumbers k value (S i) (S i)
      else
        let value := fill_pair (randomNumbers k) i j value in
        if is_num (read value i j) 0 || is_num (read value j i) 0
        then fill_loop fuel randomNumbers (S k) (createMatrix 9 (λ _, 0%Z)) 0 0
        else fill_loop fuel randomNumbers (S k) value i (S j)
  end.

(** [#fillSolution()]: the loops, then [new GridService(value)]. *)
Definition fillSolution (fuel : nat) (randomNumbers : nat → list Z)
    : option (result GridSvc) :=
  match fill_loop fuel randomNumbers 0 (createMatrix 9 (λ _, 0%Z)) 0 0 with
  | Some value => Some (GridSvc.new (matrix (digits value)))
  | None => None
  end.

(** [create()]. *)
Definition create (fuel : nat) (randomNumbers : nat → list Z)
    : option (result SolutionService) :=
  match fillSolution fuel randomNumbers with
  | Some made => Some (grid ← made; Ok (mkSolutionService grid))
  | None => None
  end.

(** [get value()]. *)
Definition value (this : SolutionService) : result JsVal := toJSON this.

End SolutionService.

(** ** The grid service over a store of arrays *)

(** Arrays are objects, and [#mutateCell] writes into them.  The store
    holds the row arrays under their addresses and the arrays of rows under
    theirs; the [#data] of a grid is the address of an array of rows, whose
    elements are the addresses of its row arrays.  The values above are
    what is read out of such a store. *)
Record Store : Type := mkStore {
  row_arrays : list (list JsVal);
  row_lists : list (list nat)
}.

Module StoreGrid.

(** [this.#data[y][x]], [None] when a lookup falls off the structure. *)
Definition getCell (st : Store) (data : nat) (pos : Pos) : option JsVal :=
  refs ← row_lists st !! data;
  ref ← refs !! y pos;
  row ← row_arrays st !! ref;
  row !! x pos.

(** [row.map((cell, x) => mapFn(cell, { y, x }))] for the row at [ref]: the
    new array goes to a fresh address, the row itself is left alone.  The
    callback may read the store. *)
Definition map_row (mapFn : Store → CBFn JsVal) (r : nat) (st : Store) (ref : nat)
    : Store * nat :=
  let row := default [] (row_arrays st !! ref) in
  let made := imap (λ c cell, mapFn st cell (mkPos r c)) row in
  (mkStore (row_arrays st ++ [made]) (row_lists st), length (row_arrays st)).

(** The outer [map] over the rows still to visit, [r] being the index of
    the first of them. *)
Fixpoint map_rows (mapFn : Store → CBFn JsVal) (r : nat) (st : Store) (refs : list nat)
    : Store * list nat :=
  match refs with
  | [] => (st, [])
  | ref :: rest =>
      let '(st, made) := map_row mapFn r st ref in
      let '(st, mades) := map_rows mapFn (S r) st rest in
      (st, made :: mades)
  end.

(** [#mapData(mapFn)]: the address of the new array of rows. *)
Definition mapData (st : Store) (data : nat) (mapFn : Store → CBFn JsVal) : Store * nat :=
  let refs := default [] (row_lists st !! data) in
  let '(st, mades) := map_rows mapFn 0 st refs in
  (mkStore (row_arrays st) (row_lists st ++ [mades]), length (row_lists st)).

(** [editCell(cellPos, fn)]: the new grid is built on the mapped data. *)
Definition editCell (st : Store) (data : nat) (cellPos : Pos) (fn : CBFn JsVal)
    : Store * nat :=
  mapData st data (λ st cell pos,
    if PosSvc.equalsPos cellPos pos
    then fn (default VUndef (getCell st data cellPos)) cellPos
    else cell).

(** [#mutateCell({ y, x }, newCell)]: [this.#data[y][x] = newCell]. *)
Definition mutateCell (st : Store) (data : nat) (pos : Pos) (newCell : JsVal) : Store :=
  match row_lists st !! data ≫= (λ refs, refs !! y pos) with
  | Some ref =>
      mkStore (alter (λ row, <[x pos := newCell]> row) ref (row_arrays st)) (row_lists st)
  | None => st
  end.

(** The rows of the grid at [data], read out of the store. *)
Definition rows_of (st : Store) (data : nat) : option (list (list JsVal)) :=
  refs ← row_lists st !! data;
  mapM (λ ref, row_arrays st !! ref) refs.

(** [copy()]: the new grid is built on [this.data], that is on
    [this.#mapData(cell => cell)]. *)
Definition copy (st : Store) (data : nat) : Store * nat :=
  mapData st data (λ _ cell _, cell).

End StoreGrid.

(** ** The timer service *)

(** The numbers of the timer: [NaN], the two infinities, and the finite
    numbers, each written exactly as [mantissa]/10^[places] (a whole number
    has no places).  What doubles add to this is not modelled: the rounding
    of a result that has no exact double, the overflow to an infinity, the
    sign of zero, and the exponent notation in which numbers from 1e21 up,
    or below 1e-6, are written out. *)
Inductive JsNum : Type :=
  | NaN
  | Infinity (negative : bool)
  | Finite (mantissa : Z) (places : nat).

(** The finite number [mantissa]/10^[places], without a trailing zero among
    its places. *)
Fixpoint finite (mantissa : Z) (places : nat) : JsNum :=
  match places with
  | 0 => Finite mantissa 0
  | S fewer =>
      if (mantissa mod 10 =? 0)%Z then finite (mantissa / 10) fewer
      else Finite mantissa places
  end.

(** Two mantissas brought to a common number of places. *)
Definition align (m : Z) (j : nat) (n : Z) (k : nat) : Z * Z * nat :=
  let p := j `max` k in
  ((m * 10 ^ Z.of_nat (p - j))%Z, (n * 10 ^ Z.of_nat (p - k))%Z, p).

(** [a + b]. *)
Definition num_add (a b : JsNum) : JsNum :=
  match a, b with
  | NaN, _ | _, NaN => NaN
  | Infinity s, Infinity t => if Bool.eqb s t then Infinity s else NaN
  | Infinity s, Finite _ _ | Finite _ _, Infinity s => Infinity s
  | Finite m j, Finite n k => let '(m, n, p) := align m j n k in finite (m + n) p
  end.

(** [a * b]. *)
Definition num_mul (a b : JsNum) : JsNum :=
  match a, b with
  | NaN, _ | _, NaN => NaN
  | Infinity s, Infinity t => Infinity (xorb s t)
  | Infinity s, Finite m _ | Finite m _, Infinity s =>
      if (m =? 0)%Z then NaN else Infinity (xorb s (m <? 0)%Z)
  | Finite m j, Finite n k => finite (m * n) (j + k)
  end.

(** [a % b]: the remainder of the truncating division, with the sign of the
    dividend. *)
Definition num_rem (a b : JsNum) : JsNum :=
  match a, b with
  | NaN, _ | _, NaN | Infinity _, _ => NaN
  | Finite _ _, Infinity _ => a
  | Finite m j, Finite n k =>
      if (n =? 0)%Z then NaN
      else let '(m, n, p) := align m j n k in finite (Z.rem m n) p
  end.

(** [Math.floor(a / b)]: the quotient itself need not be a decimal, its
    floor is a whole number. *)
Definition num_floor_div (a b : JsNum) : JsNum :=
  match a, b with
  | NaN, _ | _, NaN => NaN
  | Infinity _, Infinity _ => NaN
  | Infinity s, Finite n _ => Infinity (xorb s (n <? 0)%Z)
  | Finite _ _, Infinity _ => Finite 0 0
  | Finite m j, Finite n k =>
      if (n =? 0)%Z then (if (m =? 0)%Z then NaN else Infinity (m <? 0)%Z)
      else let '(m, n, _) := align m j n k in Finite (m / n) 0
  end.

(** [a < b]. *)
Definition num_lt (a b : JsNum) : bool :=
  match a, b with
  | NaN, _ | _, NaN => false
  | Infinity s, Infinity t => s && negb t
  | Infinity s, Finite _ _ => s
  | Finite _ _, Infinity t => negb t
  | Finite m j, Finite n k => let '(m, n, _) := align m j n k in (m <? n)%Z
  end.

(** The string of a number, as [String(a)] and [str + a] write it. *)
Definition num_to_string (a : JsNum) : string :=
  match a with
  | NaN => "NaN"
  | Infinity negative => if negative then "-Infinity" else "Infinity"
  | Finite m 0 => pretty m
  | Finite m k => frac_string m (- Z.of_nat k)
  end.

(** White space and line terminators, among the characters of a text
    written in ASCII. *)
Definition is_space (c : ascii) : bool :=
  match Ascii.nat_of_ascii c with
  | 9 | 10 | 11 | 12 | 13 | 32 => true
  | _ => false
  end.

Fixpoint trim_start (s : string) : string :=
  match s with
  | String c rest => if is_space c then trim_start rest else s
  | EmptyString => s
  end.

Fixpoint trim_end (s : string) : string :=
  match s with
  | EmptyString => EmptyString
  | String c rest =>
      match trim_end rest with
      | EmptyString => if is_space c then EmptyString else String c EmptyString
      | kept => String c kept
      end
  end.

(** The value of a digit in a radix up to 16. *)
Definition digit_value (c : ascii) : option Z :=
  let n := Ascii.nat_of_ascii c in
  if JSON.is_digit c then Some (Z.of_nat (n - 48))
  else if (97 <=? n) && (n <=? 102) then Some (Z.of_nat (n - 87))
  else if (65 <=? n) && (n <=? 70) then Some (Z.of_nat (n - 55))
  else None.

(** The whole text read as digits of the radix. *)
Fixpoint radix_digits (radix acc : Z) (s : string) : option Z :=
  match s with
  | EmptyString => Some acc
  | String c rest =>
      match digit_value c with
      | Some d => if (d <? radix)%Z then radix_digits radix (radix * acc + d) rest else None
      | None => None
      end
  end.

(** A text that starts as a hexadecimal, octal or binary literal does, read
    as one: [NaN] when the rest is not digits of the radix. *)
Definition radix_literal (s : string) : option JsNum :=
  match s with
  | String "0" (String p (String _ _ as body)) =>
      let radix :=
        if Ascii.eqb p "x" || Ascii.eqb p "X" then Some 16%Z
        else if Ascii.eqb p "o" || Ascii.eqb p "O" then Some 8%Z
        else if Ascii.eqb p "b" || Ascii.eqb p "B" then Some 2%Z
        else None in
      match radix with
      | Some radix =>
          Some (match radix_digits radix 0 body with
                | Some n => Finite n 0
                | None => NaN
                end)
      | None => None
      end
  | _ => None
  end.

(** An unsigned decimal literal: digits [. digits]? or [.] digits, then
    [(e|E) (+|-)? digits]?, and nothing after it; [NaN] for any other
    text. *)
Definition decimal_literal (s : string) : JsNum :=
  let '(int, int_digits, s) := JSON.lex_digits 0 0 s in
  let '(m, places, s) :=
    match s with
    | String "." rest => JSON.lex_digits int 0 rest
    | _ => (int, 0, s)
    end in
  if int_digits + places =? 0 then NaN
  else
    let exponent :=
      match s with
      | EmptyString => Some 0%Z
      | String c rest =>
          if Ascii.eqb c "e" || Ascii.eqb c "E" then
            let '(minus, rest) :=
              match rest with
              | String "-" rest => (true, rest)
              | String "+" rest => (false, rest)
              | _ => (false, rest)
              end in
            let '(e, digits, rest) := JSON.lex_digits 0 0 rest in
            match digits, rest with
            | S _, EmptyString => Some (if minus : bool then (- e)%Z else e)
            | _, _ => None
            end
          else None
      end in
    match exponent with
    | None => NaN
    | Some e =>
        let shift := (e - Z.of_nat places)%Z in
        if (0 <=? shift)%Z then Finite (m * 10 ^ shift) 0
        else finite m (Z.to_nat (- shift))
    end.

(** [Number(text)] for a string. *)
Definition Number (text : string) : JsNum :=
  let s := trim_end (trim_start text) in
  match s with
  | EmptyString => Finite 0 0
  | _ =>
      match radix_literal s with
      | Some n => n
      | None =>
          let '(negative, s) :=
            match s with
            | String "+" rest => (false, rest)
            | String "-" rest => (true, rest)
            | _ => (false, s)
            end in
          if String.eqb s "Infinity" then Infinity negative
          else
            match decimal_literal s with
            | Finite m places => Finite (if negative : bool then (- m)%Z else m) places
            | other => other
            end
      end
  end.

(** [text.split(sep)] for a separator of one character. *)
Fixpoint split (sep : ascii) (text : string) : list string :=
  match text with
  | EmptyString => [EmptyString]
  | String c rest =>
      if Ascii.eqb c sep then EmptyString :: split sep rest
      else
        match split sep rest with
        | first :: others => String c first :: others
        | [] => [String c EmptyString]
        end
  end.

(** What a call of the timer's [fromString] leaves: a timer, or the
    [Error] it throws, with its message. *)
Inductive outcome (A : Type) : Type :=
  | Returns (a : A)
  | ThrowsError (message : string).
Arguments Returns {A} a.
Arguments ThrowsError {A} message.

(** An instance holds its private [#data]. *)
Record TimerService : Type := mkTimerService { timer_data : JsNum }.

Module TimerService.

(** [constructor(data)]. *)
Definition new (data : JsNum) : TimerService := mkTimerService data.

(** [get data()]. *)
Definition data (this : TimerService) : JsNum := timer_data this.

(** [Number.isNaN(v)] for a destructured element: a number, or [undefined]
    when the array is too short, which is not [NaN]. *)
Definition isNaN (v : option JsNum) : bool :=
  match v with
  | Some NaN => true
  | _ => false
  end.

(** The number that arithmetic makes of a destructured element:
    [undefined] becomes [NaN]. *)
Definition to_number (v : option JsNum) : JsNum := default NaN v.

(** [fromString(timerLike)]. *)
Definition fromString (timerLike : string) : outcome TimerService :=
  let parts := Number <$> split ":" timerLike in
  let hours := parts !! 0 in
  let minutes := parts !! 1 in
  let seconds := parts !! 2 in
  if isNaN hours then ThrowsError "invalid hours"
  else if isNaN minutes then ThrowsError "invalid minutes"
  else if isNaN seconds then ThrowsError "invalid seconds"
  else
    Returns (new (num_add (num_add (num_mul (to_number hours) (Finite 3600 0))
                                   (num_mul (to_number minutes) (Finite 60 0)))
                          (to_number seconds))).

(** [#parseUnit(unit, digits = 2)]; the service always calls it with the
    default. *)
Definition parseUnit (unit : JsNum) (digits : nat) : string :=
  if num_lt unit (Finite (10 * (Z.of_nat digits - 1)) 0)
  then String.concat "" (replicate (digits - 1) "0") +:+ num_to_string unit
  else num_to_string unit.

(** [parseString(data)]. *)
Definition parseString (data : JsNum) : string :=
  let seconds := parseUnit (num_rem data (Finite 60 0)) 2 in
  let minutes := parseUnit (num_floor_div (num_rem data (Finite 3600 0)) (Finite 60 0)) 2 in
  let hours := parseUnit (num_floor_div data (Finite 3600 0)) 2 in
  hours +:+ ":" +:+ minutes +:+ ":" +:+ seconds.

(** [dec()], [inc()], [reset()]: the timer after the call. *)
Definition dec (this : TimerService) : TimerService :=
  mkTimerService (num_add (timer_data this) (Finite (-1) 0)).

Definition inc (this : TimerService) : TimerService :=
  mkTimerService (num_add (timer_data this) (Finite 1 0)).

Definition reset (this : TimerService) : TimerService := mkTimerService (Finite 0 0).

(** [toString()]. *)
Definition toString (this : TimerService) : string := parseString (timer_data this).

End TimerService.

(** ** The shared utilities *)

Module Commons.

(** [Math.max(a, b)] and [Math.min(a, b)] of two numbers. *)
Definition num_max (a b : JsNum) : JsNum :=
  match a, b with
  | NaN, _ | _, NaN => NaN
  | _, _ => if num_lt a b then b else a
  end.

Definition num_min (a b : JsNum) : JsNum :=
  match a, b with
  | NaN, _ | _, NaN => NaN
  | _, _ => if num_lt b a then b else a
  end.

(** [clamp(min, max, value)]. *)
Definition clamp (min max value : JsNum) : JsNum :=
  num_min (num_max value min) max.

End Commons.

(** ** Sample grids *)

(** A valid Sudoku solution. *)
Definition sample : list (list Z) :=
  [ [5;3;4;6;7;8;9;1;2];
    [6;7;2;1;9;5;3;4;8];
    [1;9;8;3;4;2;5;6;7];
    [8;5;9;7;6;1;4;2;3];
    [4;2;6;8;5;3;7;9;1];
    [7;1;3;9;2;4;8;5;6];
    [9;6;1;5;3;7;2;8;4];
    [2;8;7;4;1;9;6;3;5];
    [3;4;5;2;8;6;1;7;9] ]%Z.

Definition sample_grid : GridSvc := mkGridSvc (matrix (digits sample)).

(** A store that holds the sample solution: its rows at the addresses 0 to
    8 and its array of rows at the address 0. *)
Definition sample_store : Store := mkStore (digits sample) [seq 0 9].

(** The sample solution with the digit of (0, 0) repeated in its row, at
    (0, 8); and with that digit repeated in its box, at (1, 1). *)
Definition row_clash : list (list Z) := alter (λ row, <[8 := 5%Z]> row) 0 sample.
Definition box_clash : list (list Z) := alter (λ row, <[1 := 5%Z]> row) 1 sample.

(** The sample solution with a tenth row under it. *)
Definition long_rows : list (list Z) := sample ++ [[1; 2; 3; 4; 5; 6; 7; 8; 9]%Z].

(** Nine rows of nine ones: digits that break every Sudoku constraint. *)
Definition ones : list (list Z) := replicate 9 (replicate 9 1%Z).

(** Forty-five candidate lists, each a permutation of 1..9, on which the
    generator fills the grid without a retry. *)
Definition lucky_draws : list (list Z) :=
  [ [5;2;3;8;1;7;4;6;9]; [1;8;2;6;9;3;5;4;7]; [3;6;7;1;2;8;9;4;5];
    [2;8;5;9;1;6;7;4;3]; [4;2;6;7;3;5;8;9;1]; [9;3;4;8;5;1;7;2;6];
    [6;1;3;9;2;8;4;7;5]; [5;7;1;8;6;4;3;2;9]; [3;1;4;6;7;5;2;8;9];
    [8;5;4;7;1;2;6;9;3]; [8;6;1;9;7;3;2;4;5]; [5;6;3;4;7;2;9;8;1];
    [3;2;4;7;6;9;5;1;8]; [2;9;8;4;3;1;5;7;6]; [9;1;2;7;3;4;8;6;5];
    [4;8;2;3;6;9;7;5;1]; [8;1;9;5;2;7;6;4;3]; [1;7;4;6;9;5;8;2;3];
    [1;8;5;6;3;9;2;4;7]; [1;3;2;8;4;7;6;5;9]; [2;9;8;6;3;4;7;5;1];
    [2;3;5;8;4;6;9;1;7]; [6;5;2;3;8;1;9;4;7]; [1;9;2;7;8;6;5;3;4];
    [2;1;3;8;4;6;7;9;5]; [4;5;6;8;1;9;7;3;2]; [4;2;8;3;9;1;7;6;5];
    [3;7;2;4;9;8;5;1;6]; [9;3;5;8;4;2;1;6;7]; [2;8;3;1;6;4;9;7;5];
    [3;9;2;6;4;8;7;1;5]; [8;7;5;6;3;1;2;4;9]; [8;4;7;3;2;9;1;5;6];
    [7;2;8;9;1;3;4;6;5]; [6;3;1;8;9;7;5;4;2]; [3;2;5;6;8;9;1;7;4];
    [9;8;2;1;7;4;3;6;5]; [9;7;1;3;5;4;8;6;2]; [7;1;3;2;5;8;6;4;9];
    [4;3;6;1;8;5;9;2;7]; [5;1;6;3;2;7;9;8;4]; [6;3;8;4;1;7;2;9;5];
    [8;1;5;2;9;4;6;3;7]; [6;5;8;1;2;4;3;7;9]; [4;2;7;3;6;5;1;8;9] ]%Z.

(** Sixteen draws in the identity order, after which the cell (1, 7) finds
    no safe digit and the generator starts again, and then the lucky
    ones. *)
Definition retry_draws : list (list Z) :=
  replicate 16 [1; 2; 3; 4; 5; 6; 7; 8; 9]%Z ++ lucky_draws.

(** A sequence of draws: the listed ones, then the identity order. *)
Definition draws (listed : list (list Z)) (k : nat) : list Z :=
  default [1;2;3;4;5;6;7;8;9]%Z (listed !! k).

(** The grid that the generator makes from [lucky_draws], and from
    [retry_draws] after its retry. *)
Definition lucky : list (list Z) :=
  [ [5;1;3;2;4;9;6;7;8];
    [7;8;6;5;3;1;9;4;2];
    [4;2;9;8;7;6;3;5;1];
    [3;9;4;1;5;2;7;8;6];
    [1;5;8;3;6;7;4;2;9];
    [6;7;2;9;8;4;1;3;5];
    [8;6;7;4;1;5;2;9;3];
    [9;3;1;7;2;8;5;6;4];
    [2;4;5;6;9;3;8;1;7] ]%Z.

(** A callback that rejects the candidate position (4, 4) and nothing
    else. *)
Definition not_centre : CompareCBFn bool :=
  λ _ _ candidate, negb (PosSvc.equalsPos candidate (mkPos 4 4)).

(** ** The vocabulary of the properties *)

(** A digit of a serialized grid. *)
Definition digit (d : Z) : Prop := (0 ≤ d ≤ 9)%Z.

(** No filled cell of the generator's matrix has its number in a cell
    related to it. *)
Definition consistent (value : list (list Z)) : Prop :=
  ∀ p q n, inside p → inside q → p ≠ q → PosSvc.areRelated p q = true →
    n ≠ 0%Z → SolutionService.read value (y p) (x p) = Some n →
    SolutionService.read value (y q) (x q) ≠ Some n.

Definition in_range (value : list (list Z)) : Prop :=
  ∀ r c n, SolutionService.read value r c = Some n → (0 ≤ n ≤ 9)%Z.

Definition sound (value : list (list Z)) : Prop :=
  shape9 value ∧ in_range value ∧ consistent value.

(** Filled cells are kept. *)
Definition extends (value value' : list (list Z)) : Prop :=
  ∀ r c n, n ≠ 0%Z → SolutionService.read value r c = Some n →
    SolutionService.read value' r c = Some n.

(** The cells that the loops have passed when they stand at [i], [j]. *)
Definition filled (value : list (list Z)) (i j : nat) : Prop :=
  ∀ a b, a < 9 → b < 9 →
    a `min` b < i ∨ (a `min` b = i ∧ a `max` b < j) →
    ∃ n, SolutionService.read value a b = Some n ∧ n ≠ 0%Z.

(** What [create] promises of the solution it returns: its grid has a
    digit from 1 to 9 at each of the 81 positions, two distinct related
    positions never hold the same value, and [check] accepts it. *)
Definition valid_solution (made : result SolutionService) : Prop :=
  ∃ solution grid,
    made = Ok solution ∧ SolutionService.grid solution = Ok grid ∧
    (∀ pos, inside pos → ∃ n, GridSvc.getCell grid pos = Ok (VNum n) ∧ (1 ≤ n ≤ 9)%Z) ∧
    (∀ p q, inside p → inside q → p ≠ q → PosSvc.areRelated p q = true →
       GridSvc.getCell grid p ≠ GridSvc.getCell grid q) ∧
    SolutionService.check grid = Ok true.

(** [fn] holds between the cell at [pos] and every cell related to it,
    the cell at [pos] included. *)
Definition all_related (rows : list (list JsVal)) (fn : CompareCBFn bool) (pos : Pos)
    (todo : list Pos) : bool :=
  forallb (λ curr, implb (PosSvc.areRelated pos curr) (fn (cell rows pos) (cell rows curr) curr))
    todo.

(** The grid that [#mapData] builds when the callback returns on every
    cell of the data. *)
Definition mapped (rows : list (list JsVal)) (m : CBFn JsVal) : list (list JsVal) :=
  imap (λ r row, imap (λ c v, m v (mkPos r c)) row) rows.

(** What [editCell] puts in each cell. *)
Definition edited_cell (rows : list (list JsVal)) (cellPos : Pos) (fn : CBFn JsVal)
    : CBFn JsVal :=
  λ v pos, if PosSvc.equalsPos cellPos pos then fn (cell rows cellPos) cellPos else v.

(** The later store has all the arrays of the earlier one, unchanged, and
    the same arrays of rows. *)
Definition grows (st st' : Store) : Prop :=
  row_lists st' = row_lists st ∧ ∃ more, row_arrays st' = row_arrays st ++ more.

(** [f] holds of every element, given its index counted from [i]. *)
Fixpoint all_from {A} (f : A → nat → bool) (i : nat) (l : list A) : bool :=
  match l with
  | [] => true
  | a :: rest => f a i && all_from f (S i) rest
  end.

(** The positions that a callback is called with when it runs over [todo]
    until it fails: up to and including the first that it rejects. *)
Fixpoint until_rejected (accepts : Pos → bool) (todo : list Pos) : list Pos :=
  match todo with
  | [] => []
  | pos :: rest => if accepts pos then pos :: until_rejected accepts rest else [pos]
  end.

(** A text is a good writing of a value when the value is read back from
    it, with at least [f0] of fuel, in front of a comma or a closing
    bracket. *)
Definition reads_back (f0 : nat) (v : JsVal) (text : string) : Prop :=
  ∀ f sep tail, f0 ≤ f → sep = ","%char ∨ sep = "]"%char →
    JSON.parse_value f (text +:+ String sep tail) = Some (v, String sep tail).


(** The error of reading column [c] of a row that is not there. *)
Definition missing_row (c : nat) : JsError :=
  TypeError ("Cannot read properties of undefined (reading '" +:+ pretty c +:+ "')").

(** A run that either returns or stops on a missing row. *)
Definition benign (run : result bool) : Prop :=
  (∃ b, run = Ok b) ∨ ∃ c, c < 9 ∧ run = Throw (missing_row c).

(** A run that either returns false or stops on a missing row. *)
Definition falls (run : result bool) : Prop :=
  run = Ok false ∨ ∃ c, c < 9 ∧ run = Throw (missing_row c).

(** Data that is not [null] and none of whose rows 0 to 8 is [null], so
    that no lookup of the 81 positions throws the error of reading a
    property of [null]. *)
Definition without_null (d : JsVal) : Prop :=
  d ≠ VNull ∧ ∀ r, r < 9 → read_index d r ≠ Ok VNull.

(** Data that has no row [r]: the data itself is [undefined], or reading
    its row [r] gives [undefined]. *)
Definition lacks_row (d : JsVal) (r : nat) : Prop :=
  d = VUndef ∨ read_index d r = Ok VUndef.

(** The other cells of the row of a position, from left to right; of its
    column, from top to bottom; of its box, in row-major order. *)
Definition row_others (pos : Pos) : list Pos :=
  (λ c, mkPos (y pos) c) <$> List.filter (λ c, negb (c =? x pos)) (seq 0 9).

Definition col_others (pos : Pos) : list Pos :=
  (λ r, mkPos r (x pos)) <$> List.filter (λ r, negb (r =? y pos)) (seq 0 9).

Definition box_others (pos : Pos) : list Pos :=
  List.filter (λ curr,
      (PosSvc.getBoxFromPos curr =? PosSvc.getBoxFromPos pos)
      && negb (PosSvc.equalsPos pos curr))
    (iterateMatrix 9).

(** What a run of a comparison over [others] leaves: the positions the
    callback was called with, up to its first failure, and the answer. *)
Definition visits (holds : Pos → bool) (others : list Pos) : list Pos * result bool :=
  (until_rejected holds others, Ok (forallb holds others)).

(** The cells of a box in the order of [everyBox]: the origin of the box
    plus each offset of [iterateMatrix(3)]. *)
Definition box_cells (box : nat) : list Pos :=
  (λ pos, PosSvc.sumPos (PosSvc.getPosFromBox box) pos) <$> iterateMatrix 3.

(** The cells of a column from top to bottom. *)
Definition col_cells (x : nat) : list Pos := (λ y, mkPos y x) <$> seq 0 9.

(** A run that throws a [TypeError]. *)
Definition type_error {A} (run : result A) : Prop :=
  ∃ message, run = Throw (TypeError message).

(** A predicate on characters holds of every character of a string. *)
Fixpoint string_forall (p : ascii → bool) (s : string) : bool :=
  match s with
  | EmptyString => true
  | String c rest => p c && string_forall p rest
  end.

(** The characters of a whole number written in decimal: digits, and the
    minus sign. *)
Definition is_plain (c : ascii) : bool := JSON.is_digit c || Ascii.eqb c "-".

(** A field of the timer's text for a whole number: its decimal writing,
    behind a zero when the number is below ten. *)
Definition pad2 (unit : Z) : string :=
  if (unit <? 10)%Z then "0" +:+ pretty unit else pretty unit.

(** * Properties *)

Lemma bind_Ok {A B} (a : A) (k : A → result B) : (Ok a ≫= k) = k a.
Proof. reflexivity. Qed.

(** ** Positions *)

Lemma elem_of_iterateMatrix (n : nat) (pos : Pos) :
  pos ∈ iterateMatrix n ↔ y pos < n ∧ x pos < n.
Proof.
  unfold iterateMatrix. rewrite list_elem_of_bind. split.
  - intros (r & Hc & Hr). apply list_elem_of_bind in Hc as (c & Hp & Hc).
    apply list_elem_of_singleton in Hp as ->. simpl.
    apply elem_of_seq in Hr, Hc. lia.
  - intros [Hr Hc]. exists (y pos). split; [|apply elem_of_seq; lia].
    apply list_elem_of_bind. exists (x pos). split; [|apply elem_of_seq; lia].
    destruct pos; simpl. apply list_elem_of_singleton. reflexivity.
Qed.

Lemma inside_iterateMatrix (pos : Pos) : inside pos ↔ pos ∈ iterateMatrix 9.
Proof. symmetry. apply elem_of_iterateMatrix. Qed.

Lemma equalsPos_eq (a b : Pos) : PosSvc.equalsPos a b = true ↔ a = b.
Proof.
  unfold PosSvc.equalsPos. rewrite andb_true_iff, !Nat.eqb_eq.
  destruct a, b; simpl. split; [intros [-> ->]; reflexivity | intros [= -> ->]; auto].
Qed.

(** The spec's examples of the relation. *)
Example areRelated_same_row : PosSvc.areRelated (mkPos 4 4) (mkPos 4 7) = true.
Proof. reflexivity. Qed.

Example areRelated_same_box : PosSvc.areRelated (mkPos 0 0) (mkPos 1 1) = true.
Proof. reflexivity. Qed.

Example areRelated_unrelated : PosSvc.areRelated (mkPos 0 0) (mkPos 3 3) = false.
Proof. reflexivity. Qed.

Lemma areRelated_refl (a : Pos) : PosSvc.areRelated a a = true.
Proof. unfold PosSvc.areRelated. rewrite Nat.eqb_refl. reflexivity. Qed.

Lemma areRelated_sym (a b : Pos) : PosSvc.areRelated a b = PosSvc.areRelated b a.
Proof.
  unfold PosSvc.areRelated.
  rewrite (Nat.eqb_sym (y a)), (Nat.eqb_sym (x a)), (Nat.eqb_sym (PosSvc.getBoxFromPos a)).
  reflexivity.
Qed.

(** A property of all positions inside the grid can be decided by running
    it over the 81 of them. *)
Lemma forall_inside (P : Pos → bool) :
  forallb P (iterateMatrix 9) = true → ∀ pos, inside pos → P pos = true.
Proof.
  intros H pos Hin. rewrite forallb_forall in H. apply H.
  apply list_elem_of_In, inside_iterateMatrix, Hin.
Qed.

(** The scan of [#cellIsSafe] reaches every cell of the box: each position
    in the box of [p] is the [i]-th cell of that box for some [i] below 9. *)
Lemma box_scan_complete (p q : Pos) :
  inside p → inside q →
  PosSvc.getBoxFromPos p = PosSvc.getBoxFromPos q →
  ∃ i, i < 9 ∧ box.row i (y p) = y q ∧ box.col i (x p) = x q.
Proof.
  intros Hp Hq Hbox.
  assert (Hall : forallb (λ p, forallb (λ q,
      implb (Nat.eqb (PosSvc.getBoxFromPos p) (PosSvc.getBoxFromPos q))
        (existsb (λ i, Nat.eqb (box.row i (y p)) (y q) && Nat.eqb (box.col i (x p)) (x q))
           (seq 0 9))) (iterateMatrix 9)) (iterateMatrix 9) = true)
    by (vm_compute; reflexivity).
  pose proof (forall_inside _ (forall_inside _ Hall p Hp) q Hq) as H.
  cbv beta in H. rewrite Hbox, Nat.eqb_refl in H. cbn [implb] in H.
  apply existsb_exists in H as (i & Hi & H).
  apply andb_true_iff in H as [H1 H2]. apply Nat.eqb_eq in H1, H2.
  exists i. apply in_seq in Hi. split; [lia|]. split; assumption.
Qed.

(** ** The generator's matrix *)

Section Matrix.
Import SolutionService.

Implicit Types value : list (list Z).

Lemma shape9_row {A} (rows : list (list A)) (r : nat) :
  shape9 rows → r < 9 → ∃ row, rows !! r = Some row ∧ length row = 9.
Proof.
  intros [Hlen Hrows] Hr.
  destruct (lookup_lt_is_Some_2 rows r) as [row Hrow]; [lia|].
  exists row. split; [assumption|].
  rewrite Forall_forall in Hrows. apply Hrows. eapply list_elem_of_lookup_2, Hrow.
Qed.

Lemma shape9_read value (r c : nat) :
  shape9 value → r < 9 → c < 9 → ∃ n, read value r c = Some n.
Proof.
  intros Hs Hr Hc. destruct (shape9_row value r Hs Hr) as (row & Hrow & Hlen).
  unfold read. rewrite Hrow. simpl.
  destruct (lookup_lt_is_Some_2 row c) as [n Hn]; [lia|]. exists n. exact Hn.
Qed.

Lemma shape9_createMatrix {A} (mapFn : Pos → A) : shape9 (createMatrix 9 mapFn).
Proof.
  unfold shape9, createMatrix. split.
  - rewrite length_fmap, length_seq. reflexivity.
  - apply Forall_fmap, Forall_forall. intros r _. unfold compose.
    rewrite length_fmap, length_seq. reflexivity.
Qed.

Lemma read_createMatrix (n : Z) (r c : nat) (m : Z) :
  read (createMatrix 9 (λ _, n)) r c = Some m → m = n.
Proof.
  unfold read, createMatrix. intros H.
  apply bind_Some in H as (row & Hrow & Hm).
  apply list_lookup_fmap_Some in Hrow as (r' & -> & _).
  apply list_lookup_fmap_Some in Hm as (c' & -> & _). reflexivity.
Qed.

Lemma shape9_write value (r c : nat) (n : Z) :
  shape9 value → shape9 (write value r c n).
Proof.
  intros [Hlen Hrows]. unfold write. split.
  - rewrite length_alter. exact Hlen.
  - apply Forall_alter; [exact Hrows|]. intros row _ Hrow.
    rewrite length_insert. exact Hrow.
Qed.

Lemma read_write_eq value (r c : nat) (n : Z) :
  shape9 value → r < 9 → c < 9 → read (write value r c n) r c = Some n.
Proof.
  intros Hs Hr Hc. destruct (shape9_row value r Hs Hr) as (row & Hrow & Hlen).
  unfold read, write. rewrite list_lookup_alter_eq, Hrow. simpl.
  apply list_lookup_insert_eq. lia.
Qed.

Lemma read_write_ne value (r c r' c' : nat) (n : Z) :
  (r ≠ r' ∨ c ≠ c') → read (write value r c n) r' c' = read value r' c'.
Proof.
  intros Hne. unfold read, write.
  destruct (decide (r = r')) as [<-|Hr].
  - rewrite list_lookup_alter_eq. destruct (value !! r) as [row|]; simpl; [|reflexivity].
    apply list_lookup_insert_ne. destruct Hne; congruence.
  - rewrite list_lookup_alter_ne by exact Hr. reflexivity.
Qed.

Lemma is_num_true (cell : option Z) (n : Z) : is_num cell n = true ↔ cell = Some n.
Proof.
  destruct cell as [m|]; simpl; [|split; discriminate].
  rewrite Z.eqb_eq. split; congruence.
Qed.

Lemma is_num_false (cell : option Z) (n : Z) : is_num cell n = false ↔ cell ≠ Some n.
Proof. rewrite <- is_num_true. destruct (is_num cell n); split; congruence. Qed.

(** What a successful [#cellIsSafe] establishes: the cell is empty and the
    number is in no cell related to it. *)
Lemma cellIsSafe_true value (num : Z) (pos : Pos) :
  inside pos → cellIsSafe value num pos = true →
  read value (y pos) (x pos) = Some 0%Z ∧
  ∀ q, inside q → PosSvc.areRelated pos q = true → read value (y q) (x q) ≠ Some num.
Proof.
  intros Hpos. unfold cellIsSafe.
  destruct (is_num (read value (y pos) (x pos)) 0) eqn:Hzero; cbn [negb];
    [|discriminate].
  intros Hscan. split; [apply is_num_true, Hzero|].
  rewrite forallb_forall in Hscan.
  assert (Hi : ∀ i, i < 9 →
    read value (y pos) i ≠ Some num ∧ read value i (x pos) ≠ Some num ∧
    read value (box.row i (y pos)) (box.col i (x pos)) ≠ Some num).
  { intros i Hlt. specialize (Hscan i). rewrite in_seq in Hscan.
    specialize (Hscan ltac:(lia)).
    rewrite !andb_true_iff, !negb_true_iff, !is_num_false in Hscan. tauto. }
  intros q [Hqy Hqx] Hrel. unfold PosSvc.areRelated in Hrel.
  rewrite !orb_true_iff, !Nat.eqb_eq in Hrel. destruct Hrel as [[Hrow|Hcol]|Hbox].
  - rewrite <- Hrow. apply (Hi (x q) Hqx).
  - rewrite <- Hcol. apply (Hi (y q) Hqy).
  - destruct (box_scan_complete pos q Hpos (conj Hqy Hqx) Hbox) as (i & Hlt & Hr & Hc).
    rewrite <- Hr, <- Hc. apply (Hi i Hlt).
Qed.

End Matrix.

(** ** The generator's invariant *)

Section Generator.
Import SolutionService.

Implicit Types value : list (list Z).

Lemma pos_ne (p q : Pos) : p ≠ q → y p ≠ y q ∨ x p ≠ x q.
Proof.
  destruct p as [r c], q as [r' c']; simpl. intros Hne.
  destruct (decide (r = r')) as [->|]; [|auto].
  right. intros ->. apply Hne. reflexivity.
Qed.

Lemma sound_empty : sound (createMatrix 9 (λ _, 0%Z)).
Proof.
  split; [apply shape9_createMatrix|]. split.
  - intros r c n Hn. apply read_createMatrix in Hn. lia.
  - intros p q n _ _ _ _ Hn Hp. apply read_createMatrix in Hp. congruence.
Qed.

Lemma write_sound value (num : Z) (pos : Pos) :
  sound value → inside pos → (1 ≤ num ≤ 9)%Z → cellIsSafe value num pos = true →
  sound (write value (y pos) (x pos) num) ∧
  extends value (write value (y pos) (x pos) num).
Proof.
  intros (Hshape & Hrange & Hcons) Hpos Hnum Hsafe.
  destruct (cellIsSafe_true value num pos Hpos Hsafe) as [Hzero Hfree].
  destruct Hpos as [Hy Hx].
  split; [split; [|split]|].
  - apply (shape9_write value _ _ _ Hshape).
  - intros r c n.
    destruct (decide (y pos = r ∧ x pos = c)) as [[<- <-]|Hne].
    + rewrite read_write_eq by assumption. intros [= <-]. lia.
    + rewrite read_write_ne by (apply not_and_l in Hne; exact Hne). apply Hrange.
  - intros p q n Hp Hq Hpq Hrel Hn.
    destruct (decide (p = pos)) as [->|Hp'].
    + rewrite read_write_eq by assumption. intros [= <-].
      rewrite read_write_ne by (apply pos_ne; congruence).
      apply Hfree; assumption.
    + rewrite (read_write_ne _ _ _ (y p)) by (apply pos_ne; congruence).
      intros Hread. destruct (decide (q = pos)) as [->|Hq'].
      * rewrite read_write_eq by assumption. intros [= ->].
        apply (Hfree p Hp); [|exact Hread]. rewrite areRelated_sym. exact Hrel.
      * rewrite read_write_ne by (apply pos_ne; congruence).
        apply (Hcons p q n); assumption.
  - intros r c n Hn Hread. rewrite read_write_ne; [exact Hread|].
    destruct (decide (y pos = r)) as [<-|]; [|auto].
    destruct (decide (x pos = c)) as [<-|]; [|auto]. congruence.
Qed.

Lemma place_sound (pos : Pos) (numbers : list Z) value :
  sound value → inside pos → Forall (λ n, 1 ≤ n ≤ 9)%Z numbers →
  sound (place pos numbers value) ∧ extends value (place pos numbers value).
Proof.
  intros Hsound Hpos Hnums. revert value Hsound.
  induction Hnums as [|num numbers Hnum _ IH]; intros value Hsound.
  - split; [exact Hsound|]. intros r c n _ H. exact H.
  - unfold place. simpl. fold (place pos numbers).
    destruct (cellIsSafe value num pos) eqn:Hsafe.
    + destruct (write_sound value num pos Hsound Hpos Hnum Hsafe) as [Hs He].
      destruct (IH _ Hs) as [Hs' He']. split; [exact Hs'|].
      intros r c n Hn H. apply He', He; assumption.
    + apply IH, Hsound.
Qed.

Lemma fill_pair_sound (numbers : list Z) (i j : nat) value :
  sound value → i < 9 → j < 9 → Forall (λ n, 1 ≤ n ≤ 9)%Z numbers →
  sound (fill_pair numbers i j value) ∧ extends value (fill_pair numbers i j value).
Proof.
  intros Hsound Hi Hj Hnums. unfold fill_pair.
  destruct (place_sound (mkPos i j) numbers value Hsound) as [Hs He];
    [split; simpl; lia | exact Hnums |].
  destruct (place_sound (mkPos j i) (reverse numbers) _ Hs) as [Hs' He'];
    [split; simpl; lia | apply Forall_reverse, Hnums |].
  split; [exact Hs'|]. intros r c n Hn H. apply He', He; assumption.
Qed.

Lemma filled_next_row value (i j : nat) :
  9 ≤ j → filled value i j → filled value (S i) (S i).
Proof.
  intros Hj Hfilled a b Ha Hb Hab. apply Hfilled; [assumption..|]. lia.
Qed.

Lemma filled_next_col value value' (i j : nat) :
  shape9 value' → i ≤ j → j < 9 → filled value i j → extends value value' →
  is_num (read value' i j) 0 = false → is_num (read value' j i) 0 = false →
  filled value' i (S j).
Proof.
  intros Hshape Hij Hj Hfilled Hext Hnew Hnew' a b Ha Hb Hab.
  destruct (decide (a `min` b = i ∧ a `max` b = j)) as [[Hmin Hmax]|Hold].
  - apply is_num_false in Hnew, Hnew'.
    destruct (shape9_read value' a b Hshape Ha Hb) as [n Hn]. exists n.
    split; [exact Hn|]. intros ->.
    assert ((a = i ∧ b = j) ∨ (a = j ∧ b = i)) as [[-> ->]|[-> ->]] by lia;
      congruence.
  - destruct (Hfilled a b Ha Hb) as (n & Hn & Hn0); [lia|].
    exists n. split; [|exact Hn0]. apply Hext; assumption.
Qed.

(** Whatever candidates are drawn, a run of the loops that returns,
    returns a sound matrix without an empty cell. *)
Lemma fill_loop_sound (randomNumbers : nat → list Z) :
  (∀ k, Forall (λ n, 1 ≤ n ≤ 9)%Z (randomNumbers k)) →
  ∀ fuel k value i j made,
    sound value → filled value i j → i ≤ j →
    fill_loop fuel randomNumbers k value i j = Some made →
    sound made ∧ filled made 9 9.
Proof.
  intros Hdraws. induction fuel as [|fuel IH]; intros k value i j made Hsound Hfilled Hij;
    [discriminate|].
  cbn [fill_loop].
  destruct (9 <=? i) eqn:Hi; [apply Nat.leb_le in Hi | apply Nat.leb_gt in Hi].
  { intros [= <-]. split; [exact Hsound|].
    intros a b Ha Hb _. apply Hfilled; [assumption..|]. lia. }
  destruct (9 <=? j) eqn:Hj; [apply Nat.leb_le in Hj | apply Nat.leb_gt in Hj].
  { apply IH; [exact Hsound | | lia]. apply (filled_next_row value i j Hj Hfilled). }
  destruct (fill_pair_sound (randomNumbers k) i j value Hsound Hi Hj (Hdraws k))
    as [Hs He].
  destruct (is_num (read (fill_pair (randomNumbers k) i j value) i j) 0) eqn:Hij0;
    cbn [orb].
  { apply IH; [apply sound_empty | | lia]. intros a b _ _ Hab. lia. }
  destruct (is_num (read (fill_pair (randomNumbers k) i j value) j i) 0) eqn:Hji0.
  { apply IH; [apply sound_empty | | lia]. intros a b _ _ Hab. lia. }
  apply IH; [exact Hs | | lia].
  apply (filled_next_col value _ i j); try assumption. apply Hs.
Qed.

(** The fuel only bounds the run: with more of it, a run that returned
    returns the same matrix. *)
Lemma fill_loop_more_fuel (randomNumbers : nat → list Z) :
  ∀ fuel fuel' k value i j made,
    fuel ≤ fuel' →
    fill_loop fuel randomNumbers k value i j = Some made →
    fill_loop fuel' randomNumbers k value i j = Some made.
Proof.
  induction fuel as [|fuel IH]; intros fuel' k value i j made Hle; [discriminate|].
  destruct fuel' as [|fuel']; [lia|]. cbn [fill_loop].
  destruct (9 <=? i); [trivial|].
  destruct (9 <=? j); [apply IH; lia|].
  destruct (_ || _); apply IH; lia.
Qed.

End Generator.

(** ** The grid service on well-typed data *)

Section Grid.

Implicit Types rows : list (list JsVal).

Lemma getCell_matrix rows (pos : Pos) :
  y pos < length rows →
  GridSvc.getCell (mkGridSvc (matrix rows)) pos = Ok (cell rows pos).
Proof.
  intros Hy. destruct (lookup_lt_is_Some_2 rows (y pos) Hy) as [row Hrow].
  unfold GridSvc.getCell, cell, matrix. simpl.
  rewrite (list_lookup_fmap VArr rows (y pos)), Hrow. reflexivity.
Qed.

Lemma cell_digits (value : list (list Z)) (pos : Pos) :
  cell (digits value) pos
  = from_option VNum VUndef (SolutionService.read value (y pos) (x pos)).
Proof.
  unfold cell, digits, SolutionService.read.
  rewrite (list_lookup_fmap _ value (y pos)).
  destruct (value !! y pos) as [row|]; simpl; [|reflexivity].
  rewrite (list_lookup_fmap VNum row (x pos)).
  destruct (row !! x pos); reflexivity.
Qed.

Lemma shape9_digits (value : list (list Z)) : shape9 value → shape9 (digits value).
Proof.
  intros [Hlen Hrows]. unfold digits. split.
  - rewrite length_fmap. exact Hlen.
  - apply Forall_fmap. eapply Forall_impl; [exact Hrows|].
    intros row Hrow. unfold compose. rewrite length_fmap. exact Hrow.
Qed.

Lemma compareRelated_loop_matrix rows (fn : CompareCBFn bool) (pos : Pos) (todo : list Pos) :
  9 ≤ length rows → inside pos → Forall inside todo →
  GridSvc.compareRelated_loop (mkGridSvc (matrix rows)) pos fn todo
  = Ok (all_related rows fn pos todo).
Proof.
  intros Hlen Hpos Htodo. induction Htodo as [|curr todo Hcurr _ IH]; [reflexivity|].
  cbn [GridSvc.compareRelated_loop all_related forallb].
  destruct (PosSvc.areRelated pos curr); cbn [implb]; [|exact IH].
  rewrite !getCell_matrix, !bind_Ok by (destruct Hpos, Hcurr; lia).
  destruct (fn (cell rows pos) (cell rows curr) curr); cbn [negb andb];
    [exact IH|reflexivity].
Qed.

Lemma Forall_inside_iterateMatrix : Forall inside (iterateMatrix 9).
Proof. apply Forall_forall. intros pos. apply inside_iterateMatrix. Qed.

Lemma compareRelated_matrix rows (fn : CompareCBFn bool) (pos : Pos) :
  9 ≤ length rows → inside pos →
  GridSvc.compareRelated (mkGridSvc (matrix rows)) pos fn
  = Ok (all_related rows fn pos (iterateMatrix 9)).
Proof.
  intros Hlen Hpos.
  apply compareRelated_loop_matrix; [assumption..|apply Forall_inside_iterateMatrix].
Qed.

(** On data with all its rows, [check] finds the grid invalid exactly when
    some cell equals every cell related to it. *)
Lemma check_matrix rows :
  9 ≤ length rows →
  SolutionService.check (mkGridSvc (matrix rows))
  = Ok (forallb (λ pos, negb (all_related rows SolutionService.same_cell pos
                                 (iterateMatrix 9)))
          (iterateMatrix 9)).
Proof.
  intros Hlen. unfold SolutionService.check.
  assert (Hloop : ∀ todo, Forall inside todo →
    SolutionService.check_loop (mkGridSvc (matrix rows)) todo
    = Ok (forallb (λ pos, negb (all_related rows SolutionService.same_cell pos
                                   (iterateMatrix 9))) todo)).
  { intros todo Htodo. induction Htodo as [|pos todo Hpos _ IH]; [reflexivity|].
    cbn [SolutionService.check_loop forallb].
    rewrite compareRelated_matrix, bind_Ok by assumption.
    destruct (all_related rows SolutionService.same_cell pos (iterateMatrix 9));
      cbn [negb andb]; [reflexivity|exact IH]. }
  rewrite Hloop by apply Forall_inside_iterateMatrix. reflexivity.
Qed.

End Grid.

(** ** Mapping the data *)

Section MapData.

Implicit Types rows : list (list JsVal).

Lemma map_from_Ok (f : JsVal → nat → result JsVal) (g : nat → JsVal → JsVal)
    (items : list JsVal) (i : nat) :
  (∀ k v, items !! k = Some v → f v (i + k) = Ok (g (i + k) v)) →
  map_from f i items = Ok (imap (λ k, g (i + k)) items).
Proof.
  revert i. induction items as [|v rest IH]; intros i Hf; [reflexivity|].
  cbn [map_from]. pose proof (Hf 0 v eq_refl) as Hv. rewrite Nat.add_0_r in Hv.
  rewrite Hv, bind_Ok, (IH (S i)), bind_Ok.
  - rewrite imap_cons, Nat.add_0_r. do 2 f_equal.
    apply imap_ext. intros k w _. simpl. f_equal. lia.
  - intros k w Hk. replace (S i + k) with (i + S k) by lia. apply Hf. exact Hk.
Qed.

Lemma mapData_matrix rows (mapFn : CBFn (result JsVal)) (m : CBFn JsVal) :
  (∀ r c row v, rows !! r = Some row → row !! c = Some v →
     mapFn v (mkPos r c) = Ok (m v (mkPos r c))) →
  GridSvc.mapData (mkGridSvc (matrix rows)) mapFn = Ok (matrix (mapped rows m)).
Proof.
  intros Hfn. unfold GridSvc.mapData, matrix, array_map. cbn [data_].
  rewrite (map_from_Ok _ (λ r v,
    match v with
    | VArr row => VArr (imap (λ c w, m w (mkPos r c)) row)
    | _ => VUndef
    end)).
  - cbn [fmap result_fmap]. f_equal. f_equal. unfold mapped.
    rewrite imap_fmap, fmap_imap. apply imap_ext. intros r row _. reflexivity.
  - intros r v Hv. apply list_lookup_fmap_Some in Hv as (row & -> & Hrow).
    rewrite (map_from_Ok _ (λ c w, m w (mkPos r c))); [reflexivity|].
    intros c w Hw. apply (Hfn r c row w Hrow Hw).
Qed.

Lemma cell_mapped rows (m : CBFn JsVal) (pos : Pos) :
  y pos < length rows → x pos < length (default [] (rows !! y pos)) →
  cell (mapped rows m) pos = m (cell rows pos) pos.
Proof.
  intros Hy Hx. destruct (lookup_lt_is_Some_2 rows (y pos) Hy) as [row Hrow].
  rewrite Hrow in Hx. simpl in Hx.
  destruct (lookup_lt_is_Some_2 row (x pos) Hx) as [v Hv].
  unfold cell, mapped. rewrite list_lookup_imap, Hrow. simpl.
  rewrite list_lookup_imap, Hv. simpl. destruct pos; reflexivity.
Qed.

Lemma mapped_id rows : mapped rows (λ v _, v) = rows.
Proof.
  unfold mapped. apply list_eq. intros r. rewrite list_lookup_imap.
  destruct (rows !! r) as [row|]; simpl; [|reflexivity]. f_equal.
  apply list_eq. intros c. rewrite list_lookup_imap.
  destruct (row !! c); reflexivity.
Qed.

Lemma data_matrix rows : GridSvc.data (mkGridSvc (matrix rows)) = Ok (matrix rows).
Proof.
  unfold GridSvc.data. rewrite (mapData_matrix rows _ (λ v _, v)) by reflexivity.
  rewrite mapped_id. reflexivity.
Qed.

Lemma copy_matrix rows :
  GridSvc.copy (mkGridSvc (matrix rows)) = Ok (mkGridSvc (matrix rows)).
Proof. unfold GridSvc.copy. rewrite data_matrix. reflexivity. Qed.

End MapData.

(** ** The validator on a filled, conflict-free matrix *)

Lemma forallb_false {A} (f : A → bool) (l : list A) (a : A) :
  a ∈ l → f a = false → forallb f l = false.
Proof.
  intros Hin Hfa. destruct (forallb f l) eqn:Hall; [|reflexivity].
  rewrite forallb_forall in Hall. rewrite <- Hfa. symmetry.
  apply Hall, list_elem_of_In, Hin.
Qed.

Lemma check_filled (value : list (list Z)) :
  sound value → filled value 9 9 →
  SolutionService.check (mkGridSvc (matrix (digits value))) = Ok true.
Proof.
  intros (Hshape & _ & Hcons) Hfilled.
  rewrite check_matrix by (rewrite (proj1 (shape9_digits value Hshape)); lia).
  f_equal. apply forallb_forall. intros pos Hpos%list_elem_of_In%inside_iterateMatrix.
  apply negb_true_iff.
  set (curr := mkPos (y pos) (if x pos =? 0 then 1 else 0)).
  assert (Hcurr : inside curr).
  { destruct Hpos. split; simpl; [assumption|]. destruct (x pos =? 0); lia. }
  assert (Hne : pos ≠ curr).
  { intros Heq. apply (f_equal x) in Heq. simpl in Heq.
    destruct (x pos =? 0) eqn:H0; [apply Nat.eqb_eq in H0|apply Nat.eqb_neq in H0]; lia. }
  assert (Hrel : PosSvc.areRelated pos curr = true).
  { unfold PosSvc.areRelated. simpl. rewrite Nat.eqb_refl. reflexivity. }
  apply (forallb_false _ _ curr); [apply inside_iterateMatrix, Hcurr|].
  rewrite Hrel. cbn [implb]. unfold SolutionService.same_cell. rewrite !cell_digits.
  destruct Hpos as [Hy Hx]. destruct Hcurr as [Hy' Hx'].
  destruct (Hfilled (y pos) (x pos) Hy Hx) as (n & Hn & Hn0); [lia|].
  destruct (Hfilled (y curr) (x curr) Hy' Hx') as (m & Hm & _); [lia|].
  rewrite Hn, Hm. simpl. apply Z.eqb_neq. intros ->.
  apply (Hcons pos curr m); try assumption; split; assumption.
Qed.

Lemma draws_Forall (P : Z → Prop) (listed : list (list Z)) :
  Forall (Forall P) listed → Forall P [1;2;3;4;5;6;7;8;9]%Z →
  ∀ k, Forall P (draws listed k).
Proof.
  intros Hlisted Hrest k. unfold draws.
  destruct (listed !! k) as [numbers|] eqn:Hk; simpl; [|exact Hrest].
  rewrite Forall_forall in Hlisted. apply Hlisted. eapply list_elem_of_lookup_2, Hk.
Qed.

(** C2. Generator postcondition: whenever [SolutionService.create] (through
    [#fillSolution]) returns, whatever lists of candidate digits from 1 to 9
    were drawn, the grid of the solution holds a digit from 1 to 9 at every
    one of the 81 positions, no two distinct cells that share a row, a column
    or a box hold the same digit, and [SolutionService.check] of that grid
    returns true. *)
Theorem create_postcondition (fuel : nat) (randomNumbers : nat → list Z)
    (made : result SolutionService) :
  (∀ k, Forall (λ n, 1 ≤ n ≤ 9)%Z (randomNumbers k)) →
  SolutionService.create fuel randomNumbers = Some made →
  valid_solution made.
Proof.
  intros Hdraws. unfold SolutionService.create, SolutionService.fillSolution.
  destruct (SolutionService.fill_loop _ _ _ _ _ _) as [value|] eqn:Hrun; [|discriminate].
  intros [= <-].
  assert (Hnone : filled (createMatrix 9 (λ _, 0%Z)) 0 0) by (intros a b _ _ Hab; lia).
  destruct (fill_loop_sound randomNumbers Hdraws _ _ _ _ _ value sound_empty Hnone
              (Nat.le_refl 0) Hrun) as [Hsound Hfilled].
  pose proof Hsound as (Hshape & Hrange & Hcons).
  assert (Hrows : length (digits value) = 9) by apply (shape9_digits value Hshape).
  exists (mkSolutionService (mkGridSvc (matrix (digits value)))), (mkGridSvc (matrix (digits value))).
  split; [reflexivity|]. split; [apply copy_matrix|]. split; [|split].
  - intros pos [Hy Hx]. destruct (Hfilled (y pos) (x pos) Hy Hx) as (n & Hn & Hn0); [lia|].
    exists n. rewrite getCell_matrix, cell_digits, Hn by lia.
    split; [reflexivity|]. specialize (Hrange _ _ _ Hn). lia.
  - intros p q Hp Hq Hpq Hrel.
    rewrite !getCell_matrix, !cell_digits by (destruct Hp, Hq; lia).
    destruct (Hfilled (y p) (x p) (proj1 Hp) (proj2 Hp)) as (n & Hn & Hn0);
      [destruct Hp; lia|].
    rewrite Hn. simpl. intros Heq.
    apply (Hcons p q n Hp Hq Hpq Hrel Hn0 Hn).
    destruct (SolutionService.read value (y q) (x q)); simpl in Heq; congruence.
  - apply check_filled; assumption.
Qed.

Lemma create_postcondition_witness :
  (∀ k, Forall (λ n, 1 ≤ n ≤ 9)%Z (draws retry_draws k)) ∧
  SolutionService.create 80 (draws retry_draws)
    = Some (Ok (mkSolutionService (mkGridSvc (matrix (digits lucky))))) ∧
  valid_solution (Ok (mkSolutionService (mkGridSvc (matrix (digits lucky))))).
Proof.
  assert (Hdraws : ∀ k, Forall (λ n, 1 ≤ n ≤ 9)%Z (draws retry_draws k)).
  { apply draws_Forall; apply (bool_decide_unpack _); vm_compute; exact I. }
  split; [exact Hdraws|]. split; [vm_compute; reflexivity|].
  apply (create_postcondition 80 (draws retry_draws)); [exact Hdraws|].
  vm_compute. reflexivity.
Defined.

(** Two runs of the loops: without a retry, and with one after the
    sixteenth draw; a run that is out of fuel returns nothing. *)
Example fill_loop_lucky :
  SolutionService.fill_loop 55 (draws lucky_draws) 0 (createMatrix 9 (λ _, 0%Z)) 0 0
  = Some lucky.
Proof. vm_compute. reflexivity. Qed.

Example fill_loop_retry :
  SolutionService.fill_loop 72 (draws retry_draws) 0 (createMatrix 9 (λ _, 0%Z)) 0 0
  = Some lucky
  ∧ SolutionService.fill_loop 71 (draws retry_draws) 0 (createMatrix 9 (λ _, 0%Z)) 0 0
    = None.
Proof. split; vm_compute; reflexivity. Qed.

(** ** The whole-grid queries *)

Section Queries.

Implicit Types rows : list (list JsVal).

Lemma all_from_true {A} (f : A → nat → bool) (l : list A) (i : nat) :
  all_from f i l = true ↔ ∀ k a, l !! k = Some a → f a (i + k) = true.
Proof.
  revert i. induction l as [|a rest IH]; intros i; cbn [all_from].
  - split; [intros _ k a Hk; discriminate | reflexivity].
  - rewrite andb_true_iff, IH. split.
    + intros [Ha Hrest] [|k] b Hk; simpl in Hk.
      * injection Hk as <-. rewrite Nat.add_0_r. exact Ha.
      * replace (i + S k) with (S i + k) by lia. apply Hrest, Hk.
    + intros Hall. split.
      * rewrite <- (Nat.add_0_r i). apply (Hall 0). reflexivity.
      * intros k b Hk. replace (S i + k) with (i + S k) by lia. apply Hall. exact Hk.
Qed.

Lemma all_from_false {A} (f : A → nat → bool) (l : list A) (i : nat) :
  all_from f i l = false ↔ ∃ k a, l !! k = Some a ∧ f a (i + k) = false.
Proof.
  revert i. induction l as [|a rest IH]; intros i; cbn [all_from].
  - split; [discriminate | intros (k & a & Hk & _); discriminate].
  - rewrite andb_false_iff, IH. split.
    + intros [Ha|(k & b & Hk & Hb)].
      * exists 0, a. rewrite Nat.add_0_r. split; [reflexivity|exact Ha].
      * exists (S k), b. replace (i + S k) with (S i + k) by lia. split; assumption.
    + intros ([|k] & b & Hk & Hb); simpl in Hk.
      * injection Hk as <-. rewrite Nat.add_0_r in Hb. left. exact Hb.
      * right. exists k, b. replace (S i + k) with (i + S k) by lia. split; assumption.
Qed.

Lemma every_from_Ok {A} (inj : A → JsVal) (F : JsVal → nat → result bool)
    (g : A → nat → bool) (l : list A) (i : nat) :
  (∀ a k, F (inj a) k = Ok (g a k)) →
  every_from F i (inj <$> l) = Ok (all_from g i l).
Proof.
  intros HF. revert i. induction l as [|a rest IH]; intros i; [reflexivity|].
  rewrite fmap_cons. cbn [every_from all_from]. rewrite HF, bind_Ok.
  destruct (g a i); [apply IH|reflexivity].
Qed.

Lemma some_from_dual {A} (inj : A → JsVal) (F G : JsVal → nat → result bool)
    (l : list A) (i : nat) :
  (∀ a k, F (inj a) k = negb <$> G (inj a) k) →
  some_from F i (inj <$> l) = negb <$> every_from G i (inj <$> l).
Proof.
  intros HFG. revert i. induction l as [|a rest IH]; intros i; [reflexivity|].
  rewrite fmap_cons. cbn [some_from every_from]. rewrite HFG.
  destruct (G (inj a) i) as [[]|e]; cbn [fmap result_fmap mbind result_bind negb];
    [apply IH|reflexivity..].
Qed.

Lemma everyGrid_matrix rows (fn : CBFn bool) :
  GridSvc.everyGrid (mkGridSvc (matrix rows)) fn
  = Ok (all_from (λ row r, all_from (λ v c, fn v (mkPos r c)) 0 row) 0 rows).
Proof.
  unfold GridSvc.everyGrid, matrix, array_every. cbn [data_].
  apply (every_from_Ok VArr). intros row r.
  rewrite <- (list_fmap_id row) at 1. apply (every_from_Ok id). reflexivity.
Qed.

(** [someGrid] answers the negation of [everyGrid] on the negated
    predicate, on any array of row arrays. *)
Lemma someGrid_dual rows (fn : CBFn bool) :
  GridSvc.someGrid (mkGridSvc (matrix rows)) fn
  = negb <$> GridSvc.everyGrid (mkGridSvc (matrix rows)) (λ v pos, negb (fn v pos)).
Proof.
  unfold GridSvc.someGrid, GridSvc.everyGrid, matrix, array_some, array_every. cbn [data_].
  apply (some_from_dual VArr). intros row r.
  rewrite <- (list_fmap_id row). apply (some_from_dual id). intros v c.
  cbn [fmap result_fmap]. rewrite negb_involutive. reflexivity.
Qed.

Lemma cell_lookup rows (r c : nat) (row : list JsVal) (v : JsVal) :
  rows !! r = Some row → row !! c = Some v → cell rows (mkPos r c) = v.
Proof. intros Hrow Hv. unfold cell. simpl. rewrite Hrow. simpl. rewrite Hv. reflexivity. Qed.

Lemma shape9_cell rows (pos : Pos) :
  shape9 rows → inside pos →
  ∃ row, rows !! y pos = Some row ∧ row !! x pos = Some (cell rows pos).
Proof.
  intros Hshape [Hy Hx]. destruct (shape9_row rows (y pos) Hshape Hy) as (row & Hrow & Hlen).
  destruct (lookup_lt_is_Some_2 row (x pos)) as [v Hv]; [lia|].
  exists row. split; [exact Hrow|]. rewrite Hv. f_equal. symmetry.
  destruct pos. apply (cell_lookup rows _ _ row); assumption.
Qed.

Lemma shape9_inside rows (r c : nat) (row : list JsVal) (v : JsVal) :
  shape9 rows → rows !! r = Some row → row !! c = Some v → inside (mkPos r c).
Proof.
  intros [Hlen Hrows] Hrow Hv. split; simpl.
  - apply lookup_lt_Some in Hrow. lia.
  - rewrite Forall_forall in Hrows.
    rewrite <- (Hrows row (list_elem_of_lookup_2 _ _ _ Hrow)).
    eapply lookup_lt_Some, Hv.
Qed.

(** C10. Quantifier duality of the whole-grid queries: on every grid and
    for every boolean predicate on (cell, position), [someGrid] of the
    predicate is the negation of [everyGrid] of its negation; [someGrid] is
    true exactly when the predicate holds at one of the 81 cells at least,
    and [everyGrid] is true exactly when it holds at all 81 cells. *)
Theorem someGrid_everyGrid_duality rows (fn : CBFn bool) :
  shape9 rows →
  GridSvc.someGrid (mkGridSvc (matrix rows)) fn
    = negb <$> GridSvc.everyGrid (mkGridSvc (matrix rows)) (λ v pos, negb (fn v pos))
  ∧ (GridSvc.someGrid (mkGridSvc (matrix rows)) fn = Ok true
     ↔ ∃ pos, inside pos ∧ fn (cell rows pos) pos = true)
  ∧ (GridSvc.everyGrid (mkGridSvc (matrix rows)) fn = Ok true
     ↔ ∀ pos, inside pos → fn (cell rows pos) pos = true).
Proof.
  intros Hshape. split; [apply someGrid_dual|]. split.
  - rewrite someGrid_dual, everyGrid_matrix. cbn [fmap result_fmap]. split.
    + intros [= H]. apply negb_true_iff, all_from_false in H as (r & row & Hrow & H).
      apply all_from_false in H as (c & v & Hv & H). apply negb_false_iff in H.
      exists (mkPos r c). split; [apply (shape9_inside rows r c row v); assumption|].
      rewrite (cell_lookup rows r c row v); assumption.
    + intros (pos & Hpos & Hfn). f_equal. apply negb_true_iff, all_from_false.
      destruct (shape9_cell rows pos Hshape Hpos) as (row & Hrow & Hv).
      exists (y pos), row. split; [exact Hrow|]. apply all_from_false.
      exists (x pos), (cell rows pos). split; [exact Hv|]. simpl.
      apply negb_false_iff. destruct pos. exact Hfn.
  - rewrite everyGrid_matrix. split.
    + intros [= H] pos Hpos. rewrite all_from_true in H.
      destruct (shape9_cell rows pos Hshape Hpos) as (row & Hrow & Hv).
      specialize (H _ _ Hrow). rewrite all_from_true in H.
      specialize (H _ _ Hv). destruct pos. exact H.
    + intros Hall. f_equal. apply all_from_true. intros r row Hrow.
      apply all_from_true. intros c v Hv. simpl.
      rewrite <- (cell_lookup rows r c row v Hrow Hv). apply Hall.
      apply (shape9_inside rows r c row v); assumption.
Qed.

Lemma someGrid_everyGrid_duality_witness :
  shape9 (digits sample)
  ∧ GridSvc.someGrid sample_grid (λ v _, strict_eq v (VNum 5))
    = negb <$> GridSvc.everyGrid sample_grid (λ v _, negb (strict_eq v (VNum 5)))
  ∧ (GridSvc.someGrid sample_grid (λ v _, strict_eq v (VNum 5)) = Ok true
     ↔ ∃ pos, inside pos ∧ strict_eq (cell (digits sample) pos) (VNum 5) = true)
  ∧ (GridSvc.everyGrid sample_grid (λ v _, strict_eq v (VNum 5)) = Ok true
     ↔ ∀ pos, inside pos → strict_eq (cell (digits sample) pos) (VNum 5) = true).
Proof.
  assert (Hshape : shape9 (digits sample)) by (split; [reflexivity|repeat constructor]).
  split; [exact Hshape|].
  apply (someGrid_everyGrid_duality (digits sample) (λ v _, strict_eq v (VNum 5)) Hshape).
Defined.

End Queries.

(** ** Reading back a written grid *)

Section RoundTrip.

Lemma append_assoc (s t u : string) : (s +:+ t) +:+ u = s +:+ (t +:+ u).
Proof.
  induction s as [|c s IH]; [reflexivity|].
  change (String c ((s +:+ t) +:+ u) = String c (s +:+ (t +:+ u))). rewrite IH. reflexivity.
Qed.

Lemma length_append (s t : string) :
  String.length (s +:+ t) = String.length s + String.length t.
Proof.
  induction s as [|c s IH]; [reflexivity|].
  change (S (String.length (s +:+ t)) = S (String.length s + String.length t)).
  rewrite IH. reflexivity.
Qed.

Lemma parse_elements_join (f0 : nat) (vs : list JsVal) (texts : list string) :
  Forall2 (reads_back f0) vs texts → vs ≠ [] →
  ∀ f tail, f0 + length vs ≤ f →
    JSON.parse_elements f (join_strings "," texts +:+ String "]" tail) = Some (vs, tail).
Proof.
  induction 1 as [|v text vs texts Hv Hrest IH]; [congruence|]. intros _ f tail Hf.
  destruct f as [|f]; [simpl in Hf; lia|]. simpl in Hf.
  destruct Hrest as [|v' text' vs texts Hv' Hrest].
  - cbn [join_strings JSON.parse_elements].
    rewrite (Hv f "]"%char tail) by (auto; lia). reflexivity.
  - change (join_strings "," (text :: text' :: texts))
      with (text +:+ "," +:+ join_strings "," (text' :: texts)).
    rewrite append_assoc.
    change (("," +:+ join_strings "," (text' :: texts)) +:+ String "]" tail)
      with (String "," (join_strings "," (text' :: texts) +:+ String "]" tail)).
    cbn [JSON.parse_elements].
    rewrite (Hv f ","%char) by (auto; lia). cbn [mbind option_bind].
    change (JSON.skip_ws (String "," ?s)) with (String "," s).
    cbn [JSON.skip_ws]. cbv beta iota.
    rewrite IH by (simpl in *; (congruence || lia)). reflexivity.
Qed.

Lemma digit_cases (d : Z) :
  digit d → d ∈ [0; 1; 2; 3; 4; 5; 6; 7; 8; 9]%Z.
Proof.
  intros [H0 H9]. assert (d = 0 ∨ d = 1 ∨ d = 2 ∨ d = 3 ∨ d = 4 ∨ d = 5 ∨ d = 6
    ∨ d = 7 ∨ d = 8 ∨ d = 9)%Z as H by lia.
  repeat destruct H as [->|H]; try subst d; set_solver.
Qed.

Lemma reads_back_digit (d : Z) : digit d → reads_back 1 (VNum d) (pretty d).
Proof.
  intros Hd%digit_cases f sep tail Hf Hsep.
  destruct f as [|f]; [lia|].
  repeat (apply elem_of_cons in Hd as [->|Hd]); [..|by apply elem_of_nil in Hd];
    destruct Hsep as [-> | ->]; reflexivity.
Qed.

Lemma stringify_row (row : list Z) :
  JSON.stringify (VArr (VNum <$> row)) = "[" +:+ join_strings "," (pretty <$> row) +:+ "]".
Proof.
  cbn [JSON.stringify]. rewrite <- list_fmap_compose. reflexivity.
Qed.

Lemma parse_value_array (f : nat) (c : ascii) (rest : string) :
  JSON.is_ws c = false → c ≠ "]"%char →
  JSON.parse_value (S f) (String "[" (String c rest))
  = '(items, rest) ← JSON.parse_elements f (String c rest); Some (VArr items, rest).
Proof.
  intros Hws Hc.
  destruct c as [[] [] [] [] [] [] [] []];
    first [reflexivity | discriminate Hws | congruence].
Qed.

Lemma reads_back_row (row : list Z) :
  Forall digit row → row ≠ [] →
  reads_back (length row + 2) (VArr (VNum <$> row)) (JSON.stringify (VArr (VNum <$> row))).
Proof.
  intros Hrow Hne f sep tail Hf Hsep. rewrite stringify_row.
  destruct f as [|f]; [lia|].
  assert (Hbody : ∀ tail', JSON.parse_elements f
      (join_strings "," (pretty <$> row) +:+ String "]" tail') = Some (VNum <$> row, tail')).
  { intros tail'. apply (parse_elements_join 1).
    - apply Forall2_fmap, Forall_Forall2_diag.
      eapply Forall_impl; [exact Hrow|]. apply reads_back_digit.
    - destruct row; [congruence|discriminate].
    - rewrite length_fmap. lia. }
  rewrite !append_assoc.
  change ("[" +:+ ?s) with (String "[" s). change ("]" +:+ ?s) with (String "]" s).
  specialize (Hbody (String sep tail)).
  destruct row as [|d row]; [congruence|].
  apply Forall_cons in Hrow as [Hd%digit_cases _].
  revert Hbody. generalize (VNum <$> d :: row). intros vs.
  assert (Hhead : ∃ c rest, join_strings "," (pretty <$> d :: row) = String c rest
    ∧ JSON.is_ws c = false ∧ c ≠ "]"%char) .
  { rewrite fmap_cons.
    assert (∃ c, pretty d = String c "" ∧ JSON.is_ws c = false ∧ c ≠ "]"%char)
      as (c & -> & Hc).
    { repeat (apply elem_of_cons in Hd as [->|Hd]); [..|by apply elem_of_nil in Hd];
        eexists; (split; [reflexivity|split; [reflexivity|discriminate]]). }
    destruct (pretty <$> row); eexists _, _; (split; [reflexivity|exact Hc]). }
  destruct Hhead as (c & rest & -> & Hws & Hc).
  change (String c rest +:+ ?s) with (String c (rest +:+ s)).
  intros Hbody. rewrite parse_value_array, Hbody by assumption. reflexivity.
Qed.

(** The fuel only bounds the parser: with more of it, what was read is
    read again. *)
Lemma parse_more_fuel (fuel : nat) :
  (∀ fuel' s r, fuel ≤ fuel' → JSON.parse_value fuel s = Some r →
     JSON.parse_value fuel' s = Some r)
  ∧ (∀ fuel' s r, fuel ≤ fuel' → JSON.parse_elements fuel s = Some r →
       JSON.parse_elements fuel' s = Some r)
  ∧ (∀ fuel' s r, fuel ≤ fuel' → JSON.parse_members fuel s = Some r →
       JSON.parse_members fuel' s = Some r).
Proof.
  induction fuel as [|fuel (IHv & IHe & IHm)];
    [repeat split; intros; discriminate|].
  repeat split; intros [|fuel'] s r Hle; try lia;
    cbn [JSON.parse_value JSON.parse_elements JSON.parse_members]; intros H;
    repeat first
      [ progress simplify_eq
      | match goal with
        | H : _ ≫= _ = Some _ |- _ => apply bind_Some in H as ([? ?] & ? & ?)
        | H : match ?x with _ => _ end = Some _ |- _ => destruct x eqn:?
        | H : (if ?x then _ else _) = Some _ |- _ => destruct x eqn:?
        end ];
    repeat first
      [ done
      | match goal with
        | H : JSON.parse_value fuel ?s = Some _ |- context [JSON.parse_value fuel' ?s] =>
            rewrite (IHv fuel' s _ ltac:(lia) H)
        | H : JSON.parse_elements fuel ?s = Some _ |- context [JSON.parse_elements fuel' ?s] =>
            rewrite (IHe fuel' s _ ltac:(lia) H)
        | H : JSON.parse_members fuel ?s = Some _ |- context [JSON.parse_members fuel' ?s] =>
            rewrite (IHm fuel' s _ ltac:(lia) H)
        | H : ?x = _ |- context [?x] => rewrite H
        end
      | progress cbn [mbind option_bind] ].
Qed.

Lemma length_join_strings (sep : string) (texts : list string) :
  Forall (λ t, 1 ≤ String.length t) texts →
  length texts ≤ String.length (join_strings sep texts).
Proof.
  induction 1 as [|t texts Ht Htexts IH]; [reflexivity|].
  destruct texts as [|t' texts]; [simpl; lia|].
  change (join_strings sep (t :: t' :: texts))
    with (t +:+ sep +:+ join_strings sep (t' :: texts)).
  rewrite !length_append. simpl in *. lia.
Qed.

Lemma join_strings_head (sep t : string) (texts : list string) (c : ascii) (r : string) :
  t = String c r → ∃ rest, join_strings sep (t :: texts) = String c rest.
Proof. intros ->. destruct texts; eexists; reflexivity. Qed.

(** [JSON.parse] reads a 9×9 array of digits back from its JSON text. *)
Lemma parse_stringify_digits (a : list (list Z)) :
  shape9 a → Forall (Forall digit) a →
  JSON.parse (JSON.stringify (matrix (digits a))) = Ok (matrix (digits a)).
Proof.
  intros [Hlen Hrows] Hdigits.
  set (vs := VArr <$> digits a).
  assert (Hvs : Forall2 (reads_back 11) vs (JSON.stringify <$> vs)).
  { apply Forall2_fmap_r, Forall_Forall2_diag. unfold vs, digits.
    rewrite <- list_fmap_compose. apply Forall_fmap, Forall_forall.
    intros row Hrow. unfold compose.
    rewrite Forall_forall in Hrows, Hdigits.
    specialize (Hrows row Hrow).
    replace 11 with (length row + 2) by (rewrite Hrows; reflexivity).
    apply reads_back_row; [apply Hdigits, Hrow|].
    destruct row; [discriminate|congruence]. }
  assert (Hcount : length vs = 9) by (unfold vs, digits; rewrite !length_fmap; exact Hlen).
  assert (Htext : JSON.stringify (matrix (digits a))
    = String "[" (join_strings "," (JSON.stringify <$> vs) +:+ "]")) by reflexivity.
  assert (Hlong : 10 ≤ String.length (JSON.stringify (matrix (digits a)))).
  { rewrite Htext. cbn [String.length]. rewrite length_append.
    pose proof (length_join_strings "," (JSON.stringify <$> vs)) as Hjoin.
    rewrite length_fmap, Hcount in Hjoin. cbn [String.length].
    enough (9 ≤ String.length (join_strings "," (JSON.stringify <$> vs))) by lia.
    apply Hjoin, Forall_fmap, Forall_forall. intros v Hv. unfold compose.
    apply list_elem_of_fmap in Hv as (row & -> & _). cbn [JSON.stringify].
    change ("[" +:+ ?s) with (String "[" s). simpl. lia. }
  unfold JSON.parse.
  destruct (2 * String.length (JSON.stringify (matrix (digits a))) + 2) as [|f] eqn:Hf;
    [lia|].
  assert (Hbody : JSON.parse_elements f
      (join_strings "," (JSON.stringify <$> vs) +:+ String "]" "") = Some (vs, "")).
  { apply (parse_elements_join 11); [exact Hvs | | lia].
    destruct vs; [discriminate|congruence]. }
  rewrite Htext.
  assert (∃ rest, join_strings "," (JSON.stringify <$> vs) = String "[" rest)
    as [rest Hrest].
  { clear -Hlen. unfold vs, digits. destruct a as [|row a']; [discriminate|].
    rewrite !fmap_cons. eapply join_strings_head. reflexivity. }
  rewrite Hrest in Hbody |- *.
  change (String "[" rest +:+ ?s) with (String "[" (rest +:+ s)) in Hbody |- *.
  rewrite parse_value_array, Hbody by (reflexivity || discriminate). reflexivity.
Qed.

End RoundTrip.

(** ** The comparison of related cells and the validator *)

(** The log is a log of [compareRelated]: both give the same answer. *)
Lemma compareRelated_log_answer (this : GridSvc) (cellPos : Pos) (fn : CompareCBFn bool)
    (todo : list Pos) :
  (GridSvc.compareRelated_log this cellPos fn todo).2
  = GridSvc.compareRelated_loop this cellPos fn todo.
Proof.
  induction todo as [|currPos rest IH]; [reflexivity|].
  cbn [GridSvc.compareRelated_log GridSvc.compareRelated_loop].
  destruct (PosSvc.areRelated cellPos currPos); [|exact IH].
  destruct (GridSvc.getCell this cellPos) as [self|err]; [|reflexivity].
  destruct (GridSvc.getCell this currPos) as [other|err]; [|reflexivity].
  cbn [mbind result_bind]. destruct (fn self other currPos); cbn [negb]; [|reflexivity].
  destruct (GridSvc.compareRelated_log this cellPos fn rest). exact IH.
Qed.

(** On a grid with all its rows, the callback is called with the positions
    related to the position, itself included, in the order of the visit,
    until it fails; the answer tells whether it failed. *)
Lemma compareRelated_log_matrix (rows : list (list JsVal)) (cellPos : Pos)
    (fn : CompareCBFn bool) (todo : list Pos) :
  9 ≤ length rows → inside cellPos → Forall inside todo →
  GridSvc.compareRelated_log (mkGridSvc (matrix rows)) cellPos fn todo
  = (until_rejected (λ curr, fn (cell rows cellPos) (cell rows curr) curr)
       (List.filter (PosSvc.areRelated cellPos) todo),
     Ok (all_related rows fn cellPos todo)).
Proof.
  intros Hlen Hpos Htodo. induction Htodo as [|curr todo Hcurr _ IH]; [reflexivity|].
  cbn [GridSvc.compareRelated_log List.filter all_related forallb].
  destruct (PosSvc.areRelated cellPos curr); cbn [implb]; [|exact IH].
  rewrite !getCell_matrix by (destruct Hpos, Hcurr; lia). cbn [mbind result_bind until_rejected].
  destruct (fn (cell rows cellPos) (cell rows curr) curr); cbn [negb andb]; [|reflexivity].
  rewrite IH. reflexivity.
Qed.

(** On a grid with all its rows the callback is called with the position
    itself, unless it failed at a related position before it. *)
Lemma compareRelated_log_self (rows : list (list JsVal)) (cellPos : Pos)
    (fn : CompareCBFn bool) :
  9 ≤ length rows → inside cellPos →
  let '(calls, answer) :=
    GridSvc.compareRelated_log (mkGridSvc (matrix rows)) cellPos fn (iterateMatrix 9) in
  cellPos ∈ calls ∨ answer = Ok false.
Proof.
  intros Hlen Hpos.
  assert (Hin : cellPos ∈ iterateMatrix 9) by apply inside_iterateMatrix, Hpos.
  pose proof Forall_inside_iterateMatrix as Hall. revert Hin Hall.
  generalize (iterateMatrix 9). intros todo.
  induction todo as [|currPos rest IH]; intros Hin Hall; [by apply elem_of_nil in Hin|].
  apply Forall_cons in Hall as [Hcurr Hall].
  cbn [GridSvc.compareRelated_log].
  destruct (decide (cellPos = currPos)) as [<-|Hne].
  - rewrite areRelated_refl, getCell_matrix by (destruct Hpos; lia).
    cbn [mbind result_bind].
    destruct (fn _ _ cellPos); cbn [negb]; [|left; apply list_elem_of_here].
    destruct (GridSvc.compareRelated_log _ cellPos fn rest). left. apply list_elem_of_here.
  - apply elem_of_cons in Hin as [?|Hin]; [congruence|]. specialize (IH Hin Hall).
    destruct (PosSvc.areRelated cellPos currPos); [|exact IH].
    rewrite !getCell_matrix by (destruct Hpos, Hcurr; lia). cbn [mbind result_bind].
    destruct (fn _ _ currPos); cbn [negb]; [|right; reflexivity].
    destruct (GridSvc.compareRelated_log _ cellPos fn rest) as [calls answer].
    destruct IH as [IH|IH]; [left; apply list_elem_of_further, IH | right; exact IH].
Qed.

(** C3. What the code does with the position itself: on the sample grid,
    [compareRelated] from the position (4, 4) calls the callback with the
    positions related to (4, 4) in row-major order and reaches (4, 4)
    itself; the callback, which accepts every position but that one, is
    called with it, and the answer is false although the callback holds at
    every related position other than (4, 4). *)
Theorem compareRelated_calls_own_position :
  GridSvc.compareRelated_log sample_grid (mkPos 4 4) not_centre (iterateMatrix 9)
    = ([mkPos 0 4; mkPos 1 4; mkPos 2 4; mkPos 3 3; mkPos 3 4; mkPos 3 5;
        mkPos 4 0; mkPos 4 1; mkPos 4 2; mkPos 4 3; mkPos 4 4], Ok false)
  ∧ GridSvc.compareRelated sample_grid (mkPos 4 4) not_centre = Ok false
  ∧ ∀ candidate self other, candidate ≠ mkPos 4 4 →
      not_centre self other candidate = true.
Proof.
  split; [vm_compute; reflexivity|]. split; [vm_compute; reflexivity|].
  intros candidate self other Hne. unfold not_centre.
  apply negb_true_iff, not_true_iff_false. rewrite equalsPos_eq. exact Hne.
Qed.

(** [check] rejects a grid with all its rows exactly when some cell equals
    every cell related to it. *)
Lemma check_rejects (rows : list (list JsVal)) :
  9 ≤ length rows →
  SolutionService.check (mkGridSvc (matrix rows)) = Ok false ↔
  ∃ pos, inside pos ∧ ∀ curr, inside curr → PosSvc.areRelated pos curr = true →
    strict_eq (cell rows pos) (cell rows curr) = true.
Proof.
  intros Hlen. rewrite check_matrix by exact Hlen.
  pose proof inside_iterateMatrix as Hin. revert Hin.
  generalize (iterateMatrix 9). intros todo Hin.
  assert (Hfalse : ∀ b : bool, Ok b = Ok false ↔ b = false)
    by (intros b; split; [intros [= ->]; reflexivity | intros ->; reflexivity]).
  rewrite Hfalse. split.
  - intros H.
    destruct (existsb (λ pos, all_related rows SolutionService.same_cell pos todo) todo)
      eqn:Hex.
    + apply existsb_exists in Hex as (pos & Hpos%list_elem_of_In%Hin & Hall).
      exists pos. split; [exact Hpos|]. intros curr Hcurr Hrel.
      unfold all_related in Hall. rewrite forallb_forall in Hall.
      specialize (Hall curr). rewrite Hrel in Hall. apply Hall.
      apply list_elem_of_In, Hin, Hcurr.
    + exfalso. apply not_true_iff_false in H. apply H, forallb_forall.
      intros pos Hpos. apply negb_true_iff.
      destruct (all_related rows SolutionService.same_cell pos todo) eqn:Hall;
        [|reflexivity].
      assert (existsb (λ pos, all_related rows SolutionService.same_cell pos todo) todo
              = true); [|congruence].
      apply existsb_exists. exists pos. split; assumption.
  - intros (pos & Hpos & Hall).
    apply (forallb_false _ _ pos); [apply Hin, Hpos|].
    apply negb_false_iff, forallb_forall.
    intros curr Hcurr%list_elem_of_In%Hin.
    destruct (PosSvc.areRelated pos curr) eqn:Hrel; [|reflexivity].
    apply (Hall curr Hcurr Hrel).
Qed.

(** [check] accepts a grid as soon as every cell has, among the cells
    related to it, two that hold different numbers: no cell can equal
    both. *)
Lemma check_accepts_two_numbers (rows : list (list JsVal)) :
  9 ≤ length rows →
  (∀ pos, inside pos → ∃ q1 q2 n1 n2,
      inside q1 ∧ inside q2
      ∧ PosSvc.areRelated pos q1 = true ∧ PosSvc.areRelated pos q2 = true
      ∧ cell rows q1 = VNum n1 ∧ cell rows q2 = VNum n2 ∧ n1 ≠ n2) →
  SolutionService.check (mkGridSvc (matrix rows)) = Ok true.
Proof.
  intros Hlen Htwo.
  destruct (SolutionService.check (mkGridSvc (matrix rows))) as [[]|err] eqn:Hcheck;
    [reflexivity| |rewrite check_matrix in Hcheck by exact Hlen; discriminate].
  apply check_rejects in Hcheck as (pos & Hpos & Hall); [|exact Hlen]. exfalso.
  destruct (Htwo pos Hpos) as (q1 & q2 & n1 & n2 & Hq1 & Hq2 & Hr1 & Hr2 & Hn1 & Hn2 & Hne).
  pose proof (Hall q1 Hq1 Hr1) as H1. pose proof (Hall q2 Hq2 Hr2) as H2.
  rewrite Hn1 in H1. rewrite Hn2 in H2.
  destruct (cell rows pos); simpl in H1, H2; try discriminate.
  apply Z.eqb_eq in H1, H2. congruence.
Qed.

Lemma two_other_columns (a b : nat) :
  ∃ c1 c2, c1 < 9 ∧ c2 < 9 ∧ c1 ≠ c2 ∧ c1 ≠ a ∧ c1 ≠ b ∧ c2 ≠ a ∧ c2 ≠ b.
Proof.
  exists (if decide (0 ≠ a ∧ 0 ≠ b) then 0 else if decide (1 ≠ a ∧ 1 ≠ b) then 1 else 2),
         (if decide (3 ≠ a ∧ 3 ≠ b) then 3 else if decide (4 ≠ a ∧ 4 ≠ b) then 4 else 5).
  repeat case_decide; lia.
Qed.

(** [check] accepts every grid that differs from a valid solution in one
    cell, whatever number that cell holds. *)
Lemma check_accepts_one_change (value : list (list Z)) (pos : Pos) (d : Z) :
  sound value → filled value 9 9 → inside pos →
  SolutionService.check
    (mkGridSvc (matrix (digits (SolutionService.write value (y pos) (x pos) d))))
  = Ok true.
Proof.
  intros (Hshape & _ & Hcons) Hfilled Hpos.
  pose proof (shape9_write value (y pos) (x pos) d Hshape) as Hshape'.
  apply check_accepts_two_numbers;
    [rewrite (proj1 (shape9_digits _ Hshape')); lia|].
  intros p [Hpy Hpx].
  destruct (two_other_columns (x p) (x pos)) as (c1 & c2 & Hc1 & Hc2 & Hc & H1p & H1c & H2p & H2c).
  destruct (Hfilled (y p) c1 Hpy Hc1) as (n1 & Hn1 & Hn10); [lia|].
  destruct (Hfilled (y p) c2 Hpy Hc2) as (n2 & Hn2 & _); [lia|].
  exists (mkPos (y p) c1), (mkPos (y p) c2), n1, n2.
  assert (Hrow : ∀ c, PosSvc.areRelated p (mkPos (y p) c) = true).
  { intros c. unfold PosSvc.areRelated. simpl. rewrite Nat.eqb_refl. reflexivity. }
  split; [split; assumption|]. split; [split; assumption|].
  split; [apply Hrow|]. split; [apply Hrow|].
  rewrite !cell_digits. simpl.
  rewrite !read_write_ne by (right; congruence). rewrite Hn1, Hn2. simpl.
  split; [reflexivity|]. split; [reflexivity|]. intros ->.
  apply (Hcons (mkPos (y p) c1) (mkPos (y p) c2) n2); simpl;
    [split; assumption | split; assumption | congruence | | assumption..].
  unfold PosSvc.areRelated. simpl. rewrite Nat.eqb_refl. reflexivity.
Qed.

(** C1. What the validator answers: [check] returns true on the sample
    solution, whose equal digits all sit in unrelated cells, and it also
    returns true on that solution with one cell changed so that two equal
    digits sit in one row, and with one cell changed so that two equal
    digits sit in one box. *)
Theorem check_accepts_clashes :
  SolutionService.check sample_grid = Ok true
  ∧ cell (digits row_clash) (mkPos 0 0) = cell (digits row_clash) (mkPos 0 8)
  ∧ SolutionService.check (mkGridSvc (matrix (digits row_clash))) = Ok true
  ∧ cell (digits box_clash) (mkPos 0 0) = cell (digits box_clash) (mkPos 1 1)
  ∧ SolutionService.check (mkGridSvc (matrix (digits box_clash))) = Ok true.
Proof. repeat split; vm_compute; reflexivity. Qed.

(** ** Construction and parsing *)

(** [fromString] raises exactly when [JSON.parse] does. *)
Lemma fromString_parse (text : string) :
  SolutionService.fromString text
  = match JSON.parse text with
    | Ok v => Ok (mkSolutionService (mkGridSvc v))
    | Throw err => Throw (InvalidSolutionError text err)
    end.
Proof. unfold SolutionService.fromString. destruct (JSON.parse text); reflexivity. Qed.

(** C6. What the code does where the claim expects a shape error: the
    constructor of the grid service stores whatever data it is given and
    raises nothing, so data that is not nine rows of nine columns (no rows
    at all, two rows of two and one columns) becomes the data of a grid,
    also on the parsing path. *)
Theorem constructor_accepts_any_data :
  (∀ data, GridSvc.new data = Ok (mkGridSvc data))
  ∧ GridSvc.new (matrix []) = Ok (mkGridSvc (matrix []))
  ∧ SolutionService.fromString "[[1,2],[3]]"
    = Ok (mkSolutionService (mkGridSvc (matrix (digits [[1; 2]; [3]]%Z)))).
Proof. split; [reflexivity|]. split; vm_compute; reflexivity. Qed.

(** C5. What the code does at the two inputs of the claim:
    [fromString("not json")] raises the invalid-solution error with the
    text and the failure of [JSON.parse] as its cause (no amount of fuel
    reads a value from that text), but [fromString("{}")] raises nothing:
    it returns a solution whose grid data is the empty object. *)
Theorem fromString_wrong_shape :
  (∀ fuel, JSON.parse_value fuel "not json" = None)
  ∧ (∃ cause, JSON.parse "not json" = Throw cause
       ∧ SolutionService.fromString "not json"
         = Throw (InvalidSolutionError "not json" cause))
  ∧ SolutionService.fromString "{}" = Ok (mkSolutionService (mkGridSvc (VObj []))).
Proof.
  split; [intros [|fuel]; reflexivity|].
  split; [|vm_compute; reflexivity].
  eexists. split; vm_compute; reflexivity.
Qed.

(** ** Rendering *)

Lemma joinGrid_matrix (rows : list (list JsVal)) (separators : gmap string string) :
  GridSvc.joinGrid (mkGridSvc (matrix rows)) separators
  = Ok (join_strings (default "" (separators !! "x"))
          ((λ row, join_strings (default "" (separators !! "y")) (join_item <$> row))
             <$> rows)).
Proof.
  unfold GridSvc.joinGrid, matrix, array_map. cbn [data_].
  rewrite (map_from_Ok _ (λ _ v,
    match v with
    | VArr items => VStr (join_strings (default "" (separators !! "y")) (join_item <$> items))
    | _ => VUndef
    end)).
  - cbn [fmap result_fmap mbind result_bind array_join]. do 2 f_equal.
    apply list_eq. intros r.
    rewrite !list_lookup_fmap, list_lookup_imap, list_lookup_fmap.
    destruct (rows !! r); reflexivity.
  - intros r v Hv. apply list_lookup_fmap_Some in Hv as (row & -> & _). reflexivity.
Qed.


Example joinGrid_separators :
  GridSvc.joinGrid (mkGridSvc (matrix (digits [[1; 2]; [3; 4]]%Z))) {[ "x" := "/"; "y" := "," ]}
  = Ok "1,2/3,4".
Proof. vm_compute. reflexivity. Qed.

(** ** Malformed data *)

(** C8 does not hold as it is stated: data of ten rows is not a 9×9
    structure, and [check], which never looks at the tenth row, returns true
    on it; so it does on the same solution cut to eight columns, where the
    comparison meets [undefined] cells and no missing row; and on data
    whose first row is [null], [check] lets the [TypeError] through. *)
Lemma check_malformed_counterexample :
  ¬ shape9 (digits long_rows)
  ∧ SolutionService.check (mkGridSvc (matrix (digits long_rows))) = Ok true
  ∧ ¬ shape9 (digits (take 8 <$> sample))
  ∧ SolutionService.check (mkGridSvc (matrix (digits (take 8 <$> sample)))) = Ok true
  ∧ SolutionService.check (mkGridSvc (VArr [VNull]))
    = Throw (TypeError "Cannot read properties of null (reading '0')").
Proof.
  split; [|split; [|split; [|split]]]; try (vm_compute; reflexivity).
  - intros [Hlen _]. discriminate Hlen.
  - intros [_ Hrows]. apply Forall_inv in Hrows. discriminate Hrows.
Qed.

Section MissingRows.

Variable rows : list (list JsVal).

Lemma missing_row_caught (c : nat) :
  c < 9 → notArrayErrorMsgRgx_test ("Cannot read properties of undefined (reading '"
                                     +:+ pretty c +:+ "')") = true.
Proof.
  intros Hc. do 9 (destruct c as [|c]; [vm_compute; reflexivity|]). lia.
Qed.

Lemma getCell_missing_row (pos : Pos) :
  length rows ≤ y pos →
  GridSvc.getCell (mkGridSvc (matrix rows)) pos = Throw (missing_row (x pos)).
Proof.
  intros Hy. unfold GridSvc.getCell, matrix. cbn [data_ read_index].
  rewrite (lookup_ge_None_2 (VArr <$> rows)) by (rewrite length_fmap; exact Hy).
  reflexivity.
Qed.

End MissingRows.

(** An array of row arrays has no [null] row, and lacks exactly the rows
    from its length on. *)
Lemma matrix_without_null (rows : list (list JsVal)) : without_null (matrix rows).
Proof.
  split; [discriminate|]. intros r _. unfold matrix. cbn [read_index].
  rewrite list_lookup_fmap. destruct (rows !! r); discriminate.
Qed.

Lemma matrix_lacks_row (rows : list (list JsVal)) (r : nat) :
  lacks_row (matrix rows) r ↔ length rows ≤ r.
Proof.
  unfold lacks_row, matrix. cbn [read_index]. rewrite list_lookup_fmap. split.
  - intros [Hd|Hrow]; [discriminate|].
    destruct (rows !! r) eqn:Hr; [discriminate|]. apply lookup_ge_None_1 in Hr. exact Hr.
  - intros Hr. right. rewrite (lookup_ge_None_2 rows r Hr). reflexivity.
Qed.

(** The validator on data of any kind.  What follows holds for any
    comparison callback: it rests on which lookups throw, not on what the
    comparison of two cells answers. *)
Section AnyData.

Variable d : JsVal.

Lemma getCell_lacks_row (pos : Pos) :
  inside pos → lacks_row d (y pos) →
  ∃ c, c < 9 ∧ GridSvc.getCell (mkGridSvc d) pos = Throw (missing_row c).
Proof.
  intros [Hy Hx] [->|Hrow]; unfold GridSvc.getCell; cbn [data_].
  - exists (y pos). split; [exact Hy|reflexivity].
  - rewrite Hrow. exists (x pos). split; [exact Hx|reflexivity].
Qed.

Lemma getCell_without_null (pos : Pos) :
  without_null d → inside pos →
  (∃ v, GridSvc.getCell (mkGridSvc d) pos = Ok v)
  ∨ ∃ c, c < 9 ∧ GridSvc.getCell (mkGridSvc d) pos = Throw (missing_row c).
Proof.
  intros [Hd Hrows] [Hy Hx]. unfold GridSvc.getCell. cbn [data_].
  destruct (read_index d (y pos)) as [row|e] eqn:Hrow.
  - cbn [mbind result_bind].
    destruct row as [| |?|?|? ?|?|?|?]; try (left; eexists; reflexivity).
    + right. exists (x pos). split; [exact Hx|reflexivity].
    + destruct (Hrows (y pos) Hy Hrow).
  - destruct d as [| |?|?|? ?|?|?|?]; try discriminate Hrow; [|destruct Hd; reflexivity].
    right. exists (y pos). split; [exact Hy|]. rewrite <- Hrow. reflexivity.
Qed.

Lemma compareRelated_loop_without_null (fn : CompareCBFn bool) (pos : Pos) (todo : list Pos) :
  without_null d → inside pos → Forall inside todo →
  benign (GridSvc.compareRelated_loop (mkGridSvc d) pos fn todo).
Proof.
  intros Hd Hpos Htodo. induction Htodo as [|curr todo Hcurr _ IH]; [left; eauto|].
  cbn [GridSvc.compareRelated_loop].
  destruct (PosSvc.areRelated pos curr); [|exact IH].
  destruct (getCell_without_null pos Hd Hpos) as [[self ->]|(c & Hc & ->)];
    [|right; exists c; split; [exact Hc|reflexivity]].
  destruct (getCell_without_null curr Hd Hcurr) as [[other ->]|(c & Hc & ->)];
    [|right; exists c; split; [exact Hc|reflexivity]].
  cbn [mbind result_bind]. destruct (fn self other curr); cbn [negb]; [exact IH|left; eauto].
Qed.

Lemma compareRelated_loop_throws (fn : CompareCBFn bool) (pos : Pos) (todo : list Pos)
    (e : JsError) :
  GridSvc.getCell (mkGridSvc d) pos = Throw e → pos ∈ todo →
  GridSvc.compareRelated_loop (mkGridSvc d) pos fn todo = Throw e.
Proof.
  intros Hthrow. induction todo as [|curr todo IH]; intros Hin; [by apply elem_of_nil in Hin|].
  cbn [GridSvc.compareRelated_loop].
  destruct (PosSvc.areRelated pos curr) eqn:Hrel.
  - rewrite Hthrow. reflexivity.
  - apply elem_of_cons in Hin as [->|Hin]; [|exact (IH Hin)].
    rewrite areRelated_refl in Hrel. discriminate.
Qed.

Lemma compareRelated_loop_lacks_row (fn : CompareCBFn bool) (pos : Pos) (todo : list Pos) :
  inside pos → lacks_row d (y pos) → pos ∈ todo →
  ∃ c, c < 9 ∧ GridSvc.compareRelated_loop (mkGridSvc d) pos fn todo = Throw (missing_row c).
Proof.
  intros Hpos Hlacks Hin. destruct (getCell_lacks_row pos Hpos Hlacks) as (c & Hc & Hthrow).
  exists c. split; [exact Hc|]. apply compareRelated_loop_throws; assumption.
Qed.

Lemma check_loop_without_null (todo : list Pos) :
  without_null d → Forall inside todo →
  benign (SolutionService.check_loop (mkGridSvc d) todo).
Proof.
  intros Hd Htodo. induction Htodo as [|pos todo Hpos _ IH]; [left; eauto|].
  cbn [SolutionService.check_loop]. unfold GridSvc.compareRelated.
  destruct (compareRelated_loop_without_null SolutionService.same_cell pos (iterateMatrix 9)
              Hd Hpos Forall_inside_iterateMatrix) as [[b ->]|(c & Hc & ->)];
    [|right; exists c; split; [exact Hc|reflexivity]].
  cbn [mbind result_bind]. destruct b; [left; eauto|exact IH].
Qed.

Lemma check_loop_lacks_row (todo : list Pos) :
  without_null d → Forall inside todo → (∃ pos, pos ∈ todo ∧ lacks_row d (y pos)) →
  falls (SolutionService.check_loop (mkGridSvc d) todo).
Proof.
  intros Hd Htodo. induction Htodo as [|pos todo Hpos Htodo IH]; intros (bad & Hin & Hbad);
    [by apply elem_of_nil in Hin|].
  cbn [SolutionService.check_loop]. unfold GridSvc.compareRelated.
  destruct (compareRelated_loop_without_null SolutionService.same_cell pos (iterateMatrix 9)
              Hd Hpos Forall_inside_iterateMatrix) as [[b Hb]|(c & Hc & ->)];
    [|right; exists c; split; [exact Hc|reflexivity]].
  rewrite Hb. cbn [mbind result_bind]. destruct b; [left; reflexivity|].
  apply IH. exists bad. split; [|exact Hbad].
  apply elem_of_cons in Hin as [->|Hin]; [|exact Hin].
  destruct (compareRelated_loop_lacks_row SolutionService.same_cell pos (iterateMatrix 9)
              Hpos Hbad) as (c & _ & Hthrow); [apply inside_iterateMatrix, Hpos|].
  rewrite Hthrow in Hb. discriminate Hb.
Qed.

Lemma check_loop_first_throws (e : JsError) :
  GridSvc.getCell (mkGridSvc d) (mkPos 0 0) = Throw e →
  SolutionService.check_loop (mkGridSvc d) (iterateMatrix 9) = Throw e.
Proof.
  intros Hthrow.
  assert (Hfirst : iterateMatrix 9 = mkPos 0 0 :: tail (iterateMatrix 9)) by reflexivity.
  rewrite Hfirst. cbn [SolutionService.check_loop]. unfold GridSvc.compareRelated.
  rewrite (compareRelated_loop_throws _ _ _ e Hthrow); [reflexivity|].
  apply inside_iterateMatrix. split; simpl; lia.
Qed.

End AnyData.

(** The validator reads a grid through [getCell] at the 81 positions
    only. *)
Section SameLookups.

Variables a b : GridSvc.
Hypothesis Hsame : ∀ pos, inside pos → GridSvc.getCell a pos = GridSvc.getCell b pos.

Lemma compareRelated_loop_lookups (fn : CompareCBFn bool) (pos : Pos) (todo : list Pos) :
  inside pos → Forall inside todo →
  GridSvc.compareRelated_loop a pos fn todo = GridSvc.compareRelated_loop b pos fn todo.
Proof.
  intros Hpos Htodo. induction Htodo as [|curr todo Hcurr _ IH]; [reflexivity|].
  cbn [GridSvc.compareRelated_loop].
  rewrite IH, (Hsame pos Hpos), (Hsame curr Hcurr). reflexivity.
Qed.

Lemma check_loop_lookups (todo : list Pos) :
  Forall inside todo →
  SolutionService.check_loop a todo = SolutionService.check_loop b todo.
Proof.
  intros Htodo. induction Htodo as [|pos todo Hpos _ IH]; [reflexivity|].
  cbn [SolutionService.check_loop]. unfold GridSvc.compareRelated.
  rewrite IH, (compareRelated_loop_lookups _ pos (iterateMatrix 9) Hpos
                 Forall_inside_iterateMatrix).
  reflexivity.
Qed.

End SameLookups.

Lemma getCell_block (rows : list (list JsVal)) (pos : Pos) :
  inside pos →
  GridSvc.getCell (mkGridSvc (matrix rows)) pos
  = GridSvc.getCell (mkGridSvc (matrix (take 9 <$> take 9 rows))) pos.
Proof.
  intros [Hy Hx]. destruct (decide (y pos < length rows)) as [Hlt|Hge].
  - rewrite !getCell_matrix by (rewrite ?length_fmap, ?length_take; lia).
    unfold cell.
    rewrite (list_lookup_fmap (take 9) (take 9 rows) (y pos)), lookup_take_lt by exact Hy.
    destruct (rows !! y pos) as [row|]; [|reflexivity].
    cbn [fmap option_fmap option_map mbind option_bind].
    rewrite lookup_take_lt by exact Hx. reflexivity.
  - rewrite !getCell_missing_row by (rewrite ?length_fmap, ?length_take; lia).
    reflexivity.
Qed.

(** C8, amended. On data that is not [null] and has no [null] among its
    rows 0 to 8, [SolutionService.check] never throws; and when such data
    lacks one of these rows (the data is [undefined], or reading the row
    gives [undefined]: an array of fewer than nine rows, an object without
    these keys, a number), so that a cell lookup falls off the structure,
    [check] returns false rather than propagating the [TypeError].  [check]
    reads the 81 positions only: two grids whose lookups there agree get
    the same answer, so an array of row arrays is answered as its top-left
    9×9 block, rows and columns beyond the ninth being ignored.  On [null]
    data, or data whose first row is [null], the [TypeError], whose message
    the [catch] does not match, is rethrown. *)
Theorem check_on_malformed_data :
  (∀ d, without_null d → ∃ b, SolutionService.check (mkGridSvc d) = Ok b)
  ∧ (∀ d r, without_null d → r < 9 → lacks_row d r →
       SolutionService.check (mkGridSvc d) = Ok false)
  ∧ (∀ a b, (∀ pos, inside pos → GridSvc.getCell a pos = GridSvc.getCell b pos) →
       SolutionService.check a = SolutionService.check b)
  ∧ (∀ rows, SolutionService.check (mkGridSvc (matrix rows))
             = SolutionService.check (mkGridSvc (matrix (take 9 <$> take 9 rows))))
  ∧ (∀ d, d = VNull ∨ read_index d 0 = Ok VNull →
       SolutionService.check (mkGridSvc d)
       = Throw (TypeError "Cannot read properties of null (reading '0')")).
Proof.
  assert (Hsame : ∀ a b, (∀ pos, inside pos → GridSvc.getCell a pos = GridSvc.getCell b pos) →
                         SolutionService.check a = SolutionService.check b).
  { intros a b Hsame. unfold SolutionService.check.
    rewrite (check_loop_lookups a b Hsame _ Forall_inside_iterateMatrix). reflexivity. }
  split; [|split; [|split; [exact Hsame|split]]].
  - intros d Hd. unfold SolutionService.check.
    destruct (check_loop_without_null d (iterateMatrix 9) Hd Forall_inside_iterateMatrix)
      as [[b ->]|(c & Hc & ->)]; [exists b; reflexivity|].
    exists false. unfold missing_row. rewrite missing_row_caught by exact Hc. reflexivity.
  - intros d r Hd Hr Hlacks. unfold SolutionService.check.
    destruct (check_loop_lacks_row d (iterateMatrix 9) Hd Forall_inside_iterateMatrix)
      as [-> | (c & Hc & ->)]; [|reflexivity|].
    + exists (mkPos r 0). split; [apply inside_iterateMatrix; split; simpl; lia|exact Hlacks].
    + unfold missing_row. rewrite missing_row_caught by exact Hc. reflexivity.
  - intros rows. apply Hsame. intros pos. apply getCell_block.
  - intros d Hnull. unfold SolutionService.check.
    rewrite (check_loop_first_throws d (TypeError "Cannot read properties of null (reading '0')")).
    + reflexivity.
    + unfold GridSvc.getCell. cbn [data_ y x].
      destruct Hnull as [Hd|Hrow]; [rewrite Hd|rewrite Hrow]; reflexivity.
Qed.

Lemma check_on_malformed_data_witness :
  SolutionService.check (mkGridSvc (VObj [])) = Ok false
  ∧ SolutionService.check (mkGridSvc (matrix (digits (take 5 sample)))) = Ok false.
Proof.
  split.
  - apply (proj1 (proj2 check_on_malformed_data) (VObj []) 0).
    + split; [discriminate|]. intros r _. discriminate.
    + lia.
    + right. reflexivity.
  - apply (proj1 (proj2 check_on_malformed_data) (matrix (digits (take 5 sample))) 5).
    + apply matrix_without_null.
    + lia.
    + apply matrix_lacks_row. vm_compute. lia.
Defined.

(** ** The round trip *)

(** C4. Serialization round trip without re-validation: for every 9×9
    array of digits, whether or not it satisfies the Sudoku constraints,
    [toJSON] of the solution that holds it returns it, [fromString] of its
    JSON text returns a solution and raises nothing, and the grid of that
    solution holds, at each of the 81 positions, the digit of the array. *)
Theorem fromString_round_trip (a : list (list Z)) :
  shape9 a → Forall (Forall digit) a →
  SolutionService.toJSON (mkSolutionService (mkGridSvc (matrix (digits a))))
    = Ok (matrix (digits a))
  ∧ ∃ parsed grid,
      SolutionService.fromString (JSON.stringify (matrix (digits a))) = Ok parsed
      ∧ SolutionService.grid parsed = Ok grid
      ∧ ∀ pos, inside pos →
          ∃ d, a !! y pos ≫= (λ row, row !! x pos) = Some d
               ∧ GridSvc.getCell grid pos = Ok (VNum d).
Proof.
  intros Hshape Hdigits. split; [apply data_matrix|].
  exists (mkSolutionService (mkGridSvc (matrix (digits a)))), (mkGridSvc (matrix (digits a))).
  split; [|split].
  - unfold SolutionService.fromString.
    rewrite parse_stringify_digits by assumption. reflexivity.
  - apply copy_matrix.
  - intros pos [Hy Hx]. destruct (shape9_read a (y pos) (x pos) Hshape Hy Hx) as [d Hd].
    exists d. split; [exact Hd|].
    rewrite getCell_matrix by (rewrite (proj1 (shape9_digits a Hshape)); lia).
    rewrite cell_digits, Hd. reflexivity.
Qed.

Lemma fromString_round_trip_witness :
  shape9 ones ∧ Forall (Forall digit) ones
  ∧ SolutionService.toJSON (mkSolutionService (mkGridSvc (matrix (digits ones))))
    = Ok (matrix (digits ones))
  ∧ ∃ parsed grid,
      SolutionService.fromString (JSON.stringify (matrix (digits ones))) = Ok parsed
      ∧ SolutionService.grid parsed = Ok grid
      ∧ ∀ pos, inside pos →
          ∃ d, ones !! y pos ≫= (λ row, row !! x pos) = Some d
               ∧ GridSvc.getCell grid pos = Ok (VNum d).
Proof.
  assert (Hshape : shape9 ones) by (split; [reflexivity|repeat constructor]).
  assert (Hdigits : Forall (Forall digit) ones)
    by (repeat constructor; unfold digit; lia).
  split; [exact Hshape|]. split; [exact Hdigits|].
  apply (fromString_round_trip ones Hshape Hdigits).
Defined.

(** ** The edit of one cell *)

Section StoreFrame.

Import StoreGrid.

Lemma grows_refl st : grows st st.
Proof. split; [reflexivity|]. exists []. rewrite app_nil_r. reflexivity. Qed.

Lemma grows_trans st1 st2 st3 : grows st1 st2 → grows st2 st3 → grows st1 st3.
Proof.
  intros [Hl (m & Hm)] [Hl' (m' & Hm')]. split; [congruence|].
  exists (m ++ m'). rewrite Hm', Hm, app_assoc. reflexivity.
Qed.

Lemma getCell_rows_of st data rows pos :
  rows_of st data = Some rows → getCell st data pos = rows !! y pos ≫= λ row, row !! x pos.
Proof.
  unfold rows_of, getCell. destruct (row_lists st !! data) as [refs|]; [|discriminate].
  simpl. intros Hrows. apply mapM_Some in Hrows.
  destruct (refs !! y pos) as [ref|] eqn:Href; simpl.
  - destruct (Forall2_lookup_l _ _ _ _ _ Hrows Href) as (row & Hrow & Hat).
    rewrite Hrow, Hat. reflexivity.
  - apply Forall2_length in Hrows.
    rewrite (lookup_ge_None_2 rows); [reflexivity|].
    apply lookup_ge_None_1 in Href. lia.
Qed.

Lemma rows_of_grows st st' data rows :
  grows st st' → rows_of st data = Some rows → rows_of st' data = Some rows.
Proof.
  intros [Hl (more & Hmore)]. unfold rows_of. rewrite Hl.
  destruct (row_lists st !! data) as [refs|]; [|discriminate]. simpl.
  rewrite !mapM_Some. intros Hrows. eapply Forall2_impl; [exact Hrows|].
  intros ref row Hrow. rewrite Hmore. apply lookup_app_l_Some, Hrow.
Qed.

Lemma map_rows_spec (mapFn : Store → CBFn JsVal) (m : CBFn JsVal) (refs : list nat) :
  ∀ r st rows,
    (∀ st', grows st st' → ∀ v pos, mapFn st' v pos = m v pos) →
    mapM (λ ref, row_arrays st !! ref) refs = Some rows →
    let '(st', mades) := map_rows mapFn r st refs in
    grows st st'
    ∧ mapM (λ ref, row_arrays st' !! ref) mades
      = Some (imap (λ k row, imap (λ c v, m v (mkPos (r + k) c)) row) rows)
    ∧ Forall (λ made, length (row_arrays st) ≤ made) mades.
Proof.
  induction refs as [|ref refs IH]; intros r st rows Hfn Hrows.
  - injection Hrows as <-. cbn. split; [apply grows_refl|]. split; [reflexivity|constructor].
  - apply mapM_Some in Hrows. apply Forall2_cons_inv_l in Hrows as (row & rows' & Hrow & Hrows & ->).
    apply mapM_Some in Hrows.
    cbn [map_rows map_row]. rewrite Hrow. change (default [] (Some row)) with row.
    set (made := imap (λ c cell, mapFn st cell (mkPos r c)) row).
    set (st1 := mkStore (row_arrays st ++ [made]) (row_lists st)).
    assert (Hgrow1 : grows st st1) by (split; [reflexivity|exists [made]; reflexivity]).
    specialize (IH (S r) st1 rows').
    destruct (map_rows mapFn (S r) st1 refs) as [st' mades].
    destruct IH as (Hgrow & Hmades & Hfresh).
    { intros st2 Hst2. apply Hfn. eapply grows_trans; eassumption. }
    { apply mapM_Some. apply mapM_Some in Hrows. eapply Forall2_impl; [exact Hrows|].
      intros ref' row' Hrow'. cbn. apply lookup_app_l_Some, Hrow'. }
    split; [eapply grows_trans; eassumption|]. split.
    + apply mapM_Some. rewrite imap_cons. constructor.
      * destruct Hgrow as [_ (more & ->)]. cbn [row_arrays st1].
        rewrite <- app_assoc, lookup_app_r, Nat.sub_diag by lia. cbn. f_equal.
        rewrite Nat.add_0_r. apply imap_ext. intros c v _. apply Hfn, grows_refl.
      * apply mapM_Some in Hmades.
        erewrite imap_ext; [exact Hmades|].
        intros k row' _. cbn. apply imap_ext. intros c v _. do 2 f_equal. lia.
    + constructor; [lia|]. eapply Forall_impl; [exact Hfresh|].
      intros made' Hmade'. cbn in Hmade'. rewrite length_app in Hmade'. simpl in Hmade'. lia.
Qed.

Lemma mapData_spec (st : Store) (data : nat) (rows : list (list JsVal))
    (mapFn : Store → CBFn JsVal) (m : CBFn JsVal) :
  rows_of st data = Some rows →
  (∀ st1, grows st st1 → ∀ v pos, mapFn st1 v pos = m v pos) →
  let '(st2, made) := mapData st data mapFn in
  rows_of st2 made = Some (mapped rows m) ∧ rows_of st2 data = Some rows.
Proof.
  intros Hrows Hfn. pose proof Hrows as Hrefs. unfold rows_of in Hrefs.
  unfold mapData.
  destruct (row_lists st !! data) as [refs|] eqn:Hdata; [|discriminate].
  cbn in Hrefs. change (default [] (Some refs)) with refs.
  pose proof (map_rows_spec mapFn m refs 0 st rows Hfn Hrefs) as Hspec.
  destruct (map_rows mapFn 0 st refs) as [st1 mades].
  destruct Hspec as (Hgrow & Hmades & _). split.
  - unfold rows_of. cbn [row_lists row_arrays].
    rewrite lookup_app_r, Nat.sub_diag by lia. cbn. exact Hmades.
  - apply (rows_of_grows st st1 data rows Hgrow) in Hrows.
    destruct Hgrow as [Hl _]. unfold rows_of in Hrows |- *. cbn [row_lists row_arrays].
    rewrite Hl in Hrows |- *. rewrite Hdata in Hrows.
    rewrite (lookup_app_l_Some _ _ _ refs) by exact Hdata. exact Hrows.
Qed.

(** The rows of the grid that [#mapData] makes are new arrays: a later
    [#mutateCell] on that grid writes into none of the receiver's rows. *)
Lemma mapData_fresh (st : Store) (data : nat) (rows : list (list JsVal))
    (mapFn : Store → CBFn JsVal) (m : CBFn JsVal) (pos : Pos) (newCell : JsVal) :
  rows_of st data = Some rows →
  (∀ st1, grows st st1 → ∀ v pos, mapFn st1 v pos = m v pos) →
  let '(st2, made) := mapData st data mapFn in
  rows_of (mutateCell st2 made pos newCell) data = Some rows.
Proof.
  intros Hrows Hfn. pose proof (mapData_spec st data rows mapFn m Hrows Hfn) as Hspec.
  pose proof Hrows as Hrefs. unfold rows_of in Hrefs. unfold mapData in *.
  destruct (row_lists st !! data) as [refs|] eqn:Hdata; [|discriminate].
  cbn in Hrefs. change (default [] (Some refs)) with refs in *.
  pose proof (map_rows_spec mapFn m refs 0 st rows Hfn Hrefs) as Hrun.
  destruct (map_rows mapFn 0 st refs) as [st1 mades].
  destruct Hrun as ([Hl _] & _ & Hfresh). destruct Hspec as [_ Hkept].
  unfold mutateCell. cbn [row_lists row_arrays].
  rewrite lookup_app_r, Nat.sub_diag by lia. cbn [lookup list_lookup mbind option_bind].
  destruct (mades !! y pos) as [ref|] eqn:Href; [|exact Hkept].
  unfold rows_of in Hkept |- *. cbn [row_lists row_arrays] in Hkept |- *.
  rewrite Hl in Hkept |- *.
  rewrite (lookup_app_l_Some _ _ _ refs) in Hkept |- * by exact Hdata.
  cbn in Hkept |- *. rewrite <- Hkept. apply Forall_mapM_ext.
  rewrite Forall_forall in Hfresh. specialize (Hfresh ref (list_elem_of_lookup_2 _ _ _ Href)).
  apply mapM_Some in Hrefs. apply Forall_forall. intros old Hold.
  apply list_elem_of_lookup in Hold as [k Hk].
  destruct (Forall2_lookup_l _ _ _ _ _ Hrefs Hk) as (row & _ & Hrow).
  apply lookup_lt_Some in Hrow. apply list_lookup_alter_ne. lia.
Qed.

(** The grid service's [editCell] on any array of row arrays. *)
Lemma editCell_matrix (rows : list (list JsVal)) (cellPos : Pos) (fn : CBFn JsVal) :
  GridSvc.editCell (mkGridSvc (matrix rows)) cellPos fn
  = Ok (mkGridSvc (matrix (mapped rows (edited_cell rows cellPos fn)))).
Proof.
  unfold GridSvc.editCell.
  rewrite (mapData_matrix rows _ (edited_cell rows cellPos fn)); [reflexivity|].
  intros r c row v Hrow Hv. unfold edited_cell.
  destruct (PosSvc.equalsPos cellPos (mkPos r c)) eqn:Heq; [|reflexivity].
  apply equalsPos_eq in Heq as ->.
  rewrite getCell_matrix by (apply lookup_lt_Some in Hrow; exact Hrow). reflexivity.
Qed.

End StoreFrame.

(** C7. Single-cell edit frame property: for every 9×9 grid, every
    position inside it and every function, [editCell] returns a new grid
    whose cell at the position is the function applied to the old cell and
    the position, and whose cell at each of the other 80 positions is the
    old one; the receiver holds the same cells afterwards. *)
Theorem editCell_frame (st : Store) (data : nat) (rows : list (list JsVal))
    (cellPos : Pos) (fn : CBFn JsVal) :
  StoreGrid.rows_of st data = Some rows → shape9 rows → inside cellPos →
  ∃ st2 made edited,
    StoreGrid.editCell st data cellPos fn = (st2, made)
    ∧ StoreGrid.rows_of st2 made = Some edited
    ∧ GridSvc.editCell (mkGridSvc (matrix rows)) cellPos fn = Ok (mkGridSvc (matrix edited))
    ∧ GridSvc.getCell (mkGridSvc (matrix edited)) cellPos
      = Ok (fn (cell rows cellPos) cellPos)
    ∧ (∀ pos, inside pos → pos ≠ cellPos →
         GridSvc.getCell (mkGridSvc (matrix edited)) pos
         = GridSvc.getCell (mkGridSvc (matrix rows)) pos)
    ∧ StoreGrid.rows_of st2 data = Some rows
    ∧ (∀ pos, StoreGrid.getCell st2 data pos = StoreGrid.getCell st data pos).
Proof.
  intros Hrows Hshape Hpos.
  pose proof (mapData_spec st data rows
    (λ st cell pos,
       if PosSvc.equalsPos cellPos pos
       then fn (default VUndef (StoreGrid.getCell st data cellPos)) cellPos
       else cell)
    (edited_cell rows cellPos fn) Hrows) as Hspec.
  fold (StoreGrid.editCell st data cellPos fn) in Hspec.
  destruct (StoreGrid.editCell st data cellPos fn) as [st2 made].
  destruct Hspec as [Hmade Hkept].
  { intros st1 Hgrow v pos. unfold edited_cell.
    destruct (PosSvc.equalsPos cellPos pos); [|reflexivity].
    rewrite (getCell_rows_of st1 data rows) by (eapply rows_of_grows; eassumption).
    reflexivity. }
  assert (Hcell : ∀ pos, inside pos →
    cell (mapped rows (edited_cell rows cellPos fn)) pos
    = edited_cell rows cellPos fn (cell rows pos) pos).
  { intros pos [Hy Hx]. destruct Hshape as [Hlen Hall]. apply cell_mapped; [lia|].
    destruct (lookup_lt_is_Some_2 rows (y pos)) as [row Hrow]; [lia|].
    rewrite Hrow. simpl. rewrite Forall_forall in Hall.
    rewrite (Hall row (list_elem_of_lookup_2 _ _ _ Hrow)). exact Hx. }
  assert (Hlen : length (mapped rows (edited_cell rows cellPos fn)) = 9)
    by (unfold mapped; rewrite length_imap; apply Hshape).
  exists st2, made, (mapped rows (edited_cell rows cellPos fn)).
  split; [reflexivity|]. split; [exact Hmade|]. split; [apply editCell_matrix|].
  split; [|split; [|split; [exact Hkept|]]].
  - rewrite getCell_matrix, Hcell by (destruct Hpos; (lia || (split; assumption))).
    unfold edited_cell.
    rewrite (proj2 (equalsPos_eq cellPos cellPos) eq_refl). reflexivity.
  - intros pos Hin Hne.
    rewrite !getCell_matrix, Hcell
      by (destruct Hin, Hshape; (lia || (split; assumption))).
    unfold edited_cell.
    destruct (PosSvc.equalsPos cellPos pos) eqn:Heq; [|reflexivity].
    apply equalsPos_eq in Heq. congruence.
  - intros pos.
    rewrite (getCell_rows_of st2 data rows pos Hkept),
      (getCell_rows_of st data rows pos Hrows).
    reflexivity.
Qed.

Lemma editCell_frame_witness :
  StoreGrid.rows_of sample_store 0 = Some (digits sample)
  ∧ shape9 (digits sample) ∧ inside (mkPos 4 4)
  ∧ ∃ st2 made edited,
      StoreGrid.editCell sample_store 0 (mkPos 4 4) (λ _ _, VNum 0) = (st2, made)
      ∧ StoreGrid.rows_of st2 made = Some edited
      ∧ GridSvc.editCell sample_grid (mkPos 4 4) (λ _ _, VNum 0) = Ok (mkGridSvc (matrix edited))
      ∧ GridSvc.getCell (mkGridSvc (matrix edited)) (mkPos 4 4) = Ok (VNum 0)
      ∧ (∀ pos, inside pos → pos ≠ mkPos 4 4 →
           GridSvc.getCell (mkGridSvc (matrix edited)) pos = GridSvc.getCell sample_grid pos)
      ∧ StoreGrid.rows_of st2 0 = Some (digits sample)
      ∧ (∀ pos, StoreGrid.getCell st2 0 pos = StoreGrid.getCell sample_store 0 pos).
Proof.
  assert (Hshape : shape9 (digits sample)) by (split; [reflexivity|repeat constructor]).
  assert (Hpos : inside (mkPos 4 4)) by (split; simpl; lia).
  split; [reflexivity|]. split; [exact Hshape|]. split; [exact Hpos|].
  apply (editCell_frame sample_store 0 (digits sample) (mkPos 4 4) (λ _ _, VNum 0)
           eq_refl Hshape Hpos).
Defined.
(** * Further properties of the grid service *)

(** ** The comparisons restricted to a row, a column or a box *)

Section CompareWith.

Implicit Types rows : list (list JsVal).

Lemma compareWith_log_answer (this : GridSvc) (cellPos : Pos) (fn : CompareCBFn bool)
    (differs : Pos → bool) (todo : list Pos) :
  (GridSvc.compareWith_log this cellPos fn differs todo).2
  = GridSvc.compareWith_loop this cellPos fn differs todo.
Proof.
  induction todo as [|currPos rest IH]; [reflexivity|].
  cbn [GridSvc.compareWith_log GridSvc.compareWith_loop].
  destruct (differs currPos); [|exact IH].
  destruct (GridSvc.getCell this cellPos) as [self|err]; [|reflexivity].
  destruct (GridSvc.getCell this currPos) as [other|err]; [|reflexivity].
  cbn [mbind result_bind]. destruct (fn self other currPos); cbn [negb]; [|reflexivity].
  destruct (GridSvc.compareWith_log this cellPos fn differs rest). exact IH.
Qed.

Lemma compareWith_log_matrix rows (cellPos : Pos) (fn : CompareCBFn bool)
    (differs : Pos → bool) (todo : list Pos) :
  9 ≤ length rows → inside cellPos → Forall inside todo →
  GridSvc.compareWith_log (mkGridSvc (matrix rows)) cellPos fn differs todo
  = visits (λ curr, fn (cell rows cellPos) (cell rows curr) curr) (List.filter differs todo).
Proof.
  intros Hlen Hpos Htodo. unfold visits.
  induction Htodo as [|curr todo Hcurr _ IH]; [reflexivity|].
  cbn [GridSvc.compareWith_log List.filter].
  destruct (differs curr); [|exact IH].
  rewrite !getCell_matrix by (destruct Hpos, Hcurr; lia).
  cbn [mbind result_bind until_rejected forallb].
  destruct (fn (cell rows cellPos) (cell rows curr) curr); cbn [negb andb]; [|reflexivity].
  rewrite IH. reflexivity.
Qed.

(** The candidates of the three comparisons lie inside the grid, and the
    ones that pass the test are the other cells of the row, of the column
    and of the box. *)
Lemma candidates_others (pos : Pos) :
  inside pos →
  (Forall inside (GridSvc.row_candidates pos)
   ∧ List.filter (λ curr, negb (x curr =? x pos)) (GridSvc.row_candidates pos)
     = row_others pos)
  ∧ (Forall inside (GridSvc.col_candidates pos)
     ∧ List.filter (λ curr, negb (y curr =? y pos)) (GridSvc.col_candidates pos)
       = col_others pos)
  ∧ (Forall inside (GridSvc.box_candidates pos)
     ∧ List.filter (λ curr, negb (PosSvc.equalsPos pos curr)) (GridSvc.box_candidates pos)
       = box_others pos).
Proof.
  intros Hpos.
  assert (Hall : forallb (λ pos,
      forallb (λ q, (y q <? 9) && (x q <? 9))
        (GridSvc.row_candidates pos ++ GridSvc.col_candidates pos
         ++ GridSvc.box_candidates pos)
      && bool_decide (List.filter (λ curr, negb (x curr =? x pos)) (GridSvc.row_candidates pos)
                      = row_others pos)
      && bool_decide (List.filter (λ curr, negb (y curr =? y pos)) (GridSvc.col_candidates pos)
                      = col_others pos)
      && bool_decide (List.filter (λ curr, negb (PosSvc.equalsPos pos curr))
                        (GridSvc.box_candidates pos)
                      = box_others pos)) (iterateMatrix 9) = true)
    by (vm_compute; reflexivity).
  pose proof (forall_inside _ Hall pos Hpos) as H. cbv beta in H.
  rewrite !andb_true_iff in H. destruct H as [[[Hin Hrow] Hcol] Hbox].
  apply bool_decide_eq_true in Hrow, Hcol, Hbox.
  assert (Hins : Forall inside (GridSvc.row_candidates pos ++ GridSvc.col_candidates pos
                                ++ GridSvc.box_candidates pos)).
  { apply Forall_forall. intros q Hq. rewrite forallb_forall in Hin.
    specialize (Hin q (proj1 (list_elem_of_In _ _) Hq)).
    apply andb_true_iff in Hin as [Hy Hx]. apply Nat.ltb_lt in Hy, Hx. split; assumption. }
  apply Forall_app in Hins as [Hr Hins]. apply Forall_app in Hins as [Hc Hb].
  repeat split; assumption.
Qed.

(** A position is related to the positions inside the grid that are itself
    or another cell of its row, of its column or of its box. *)
Lemma areRelated_others (pos curr : Pos) :
  inside pos → inside curr →
  PosSvc.areRelated pos curr = true ↔
  curr = pos ∨ curr ∈ row_others pos ∨ curr ∈ col_others pos ∨ curr ∈ box_others pos.
Proof.
  intros Hpos Hcurr.
  assert (Hall : forallb (λ pos, forallb (λ curr,
      Bool.eqb (PosSvc.areRelated pos curr)
        (bool_decide (curr = pos) || bool_decide (curr ∈ row_others pos)
         || bool_decide (curr ∈ col_others pos) || bool_decide (curr ∈ box_others pos)))
      (iterateMatrix 9)) (iterateMatrix 9) = true)
    by (vm_compute; reflexivity).
  pose proof (forall_inside _ (forall_inside _ Hall pos Hpos) curr Hcurr) as H.
  cbv beta in H. apply eqb_prop in H. rewrite H.
  rewrite !orb_true_iff, !bool_decide_eq_true. tauto.
Qed.

Lemma others_inside (pos curr : Pos) :
  inside pos → curr ∈ row_others pos ++ col_others pos ++ box_others pos →
  inside curr ∧ curr ≠ pos.
Proof.
  intros Hpos Hcurr.
  assert (Hall : forallb (λ pos,
      forallb (λ q, (y q <? 9) && (x q <? 9) && negb (bool_decide (q = pos)))
        (row_others pos ++ col_others pos ++ box_others pos)) (iterateMatrix 9) = true)
    by (vm_compute; reflexivity).
  pose proof (forall_inside _ Hall pos Hpos) as H. cbv beta in H.
  rewrite forallb_forall in H. specialize (H curr (proj1 (list_elem_of_In _ _) Hcurr)).
  rewrite !andb_true_iff, negb_true_iff, bool_decide_eq_false in H.
  destruct H as [[Hy Hx] Hne]. apply Nat.ltb_lt in Hy, Hx. split; [split|]; assumption.
Qed.

End CompareWith.

(** X1.  On a grid with all its rows, [compareWithRow], [compareWithCol]
    and [compareWithBox] call the callback with the eight other cells of
    the row, of the column and of the box of the position, in the order of
    the visit and until it fails; the answer tells whether it held at all
    of them.  The position itself is none of their candidates. *)
Theorem compareWith_visits_the_others (rows : list (list JsVal)) (fn : CompareCBFn bool)
    (pos : Pos) :
  9 ≤ length rows → inside pos →
  let grid := mkGridSvc (matrix rows) in
  let holds := λ curr, fn (cell rows pos) (cell rows curr) curr in
  (GridSvc.compareWithRow_log grid pos fn = visits holds (row_others pos)
   ∧ GridSvc.compareWithRow grid pos fn = Ok (forallb holds (row_others pos)))
  ∧ (GridSvc.compareWithCol_log grid pos fn = visits holds (col_others pos)
     ∧ GridSvc.compareWithCol grid pos fn = Ok (forallb holds (col_others pos)))
  ∧ (GridSvc.compareWithBox_log grid pos fn = visits holds (box_others pos)
     ∧ GridSvc.compareWithBox grid pos fn = Ok (forallb holds (box_others pos)))
  ∧ (length (row_others pos) = 8 ∧ length (col_others pos) = 8
     ∧ length (box_others pos) = 8)
  ∧ pos ∉ row_others pos ++ col_others pos ++ box_others pos.
Proof.
  intros Hlen Hpos grid holds.
  destruct (candidates_others pos Hpos) as ((Hr & Er) & (Hc & Ec) & (Hb & Eb)).
  assert (Hrow : GridSvc.compareWithRow_log grid pos fn = visits holds (row_others pos)).
  { unfold GridSvc.compareWithRow_log. subst grid.
    rewrite compareWith_log_matrix by assumption. rewrite Er. reflexivity. }
  assert (Hcol : GridSvc.compareWithCol_log grid pos fn = visits holds (col_others pos)).
  { unfold GridSvc.compareWithCol_log. subst grid.
    rewrite compareWith_log_matrix by assumption. rewrite Ec. reflexivity. }
  assert (Hbox : GridSvc.compareWithBox_log grid pos fn = visits holds (box_others pos)).
  { unfold GridSvc.compareWithBox_log. subst grid.
    rewrite compareWith_log_matrix by assumption. rewrite Eb. reflexivity. }
  split; [split; [exact Hrow|]|split; [split; [exact Hcol|]|split; [split; [exact Hbox|]|]]].
  - unfold GridSvc.compareWithRow. rewrite <- compareWith_log_answer.
    fold (GridSvc.compareWithRow_log grid pos fn). rewrite Hrow. reflexivity.
  - unfold GridSvc.compareWithCol. rewrite <- compareWith_log_answer.
    fold (GridSvc.compareWithCol_log grid pos fn). rewrite Hcol. reflexivity.
  - unfold GridSvc.compareWithBox. rewrite <- compareWith_log_answer.
    fold (GridSvc.compareWithBox_log grid pos fn). rewrite Hbox. reflexivity.
  - split.
    + assert (Hall : forallb (λ pos,
          (length (row_others pos) =? 8) && (length (col_others pos) =? 8)
          && (length (box_others pos) =? 8)) (iterateMatrix 9) = true)
        by (vm_compute; reflexivity).
      pose proof (forall_inside _ Hall pos Hpos) as H. cbv beta in H.
      rewrite !andb_true_iff, !Nat.eqb_eq in H. tauto.
    + intros Hin. apply (others_inside pos pos Hpos) in Hin as [_ Hne]. congruence.
Qed.

Lemma compareWith_visits_the_others_witness :
  9 ≤ length (digits sample) ∧ inside (mkPos 4 4)
  ∧ GridSvc.compareWithBox_log sample_grid (mkPos 4 4) not_centre
    = visits (λ curr, not_centre (VNum 5) (cell (digits sample) curr) curr)
        (box_others (mkPos 4 4)).
Proof.
  assert (Hlen : 9 ≤ length (digits sample)) by (vm_compute; lia).
  assert (Hpos : inside (mkPos 4 4)) by (split; simpl; lia).
  split; [exact Hlen|]. split; [exact Hpos|].
  exact (proj1 (proj1 (proj2 (proj2
    (compareWith_visits_the_others (digits sample) not_centre (mkPos 4 4) Hlen Hpos))))).
Defined.

(** X2.  On a grid with all its rows, [compareRelated] holds exactly when
    the callback holds at the position itself and [compareWithRow],
    [compareWithCol] and [compareWithBox] all hold. *)
Theorem compareRelated_by_row_col_box (rows : list (list JsVal)) (fn : CompareCBFn bool)
    (pos : Pos) :
  9 ≤ length rows → inside pos →
  let grid := mkGridSvc (matrix rows) in
  GridSvc.compareRelated grid pos fn = Ok true ↔
  fn (cell rows pos) (cell rows pos) pos = true
  ∧ GridSvc.compareWithRow grid pos fn = Ok true
  ∧ GridSvc.compareWithCol grid pos fn = Ok true
  ∧ GridSvc.compareWithBox grid pos fn = Ok true.
Proof.
  intros Hlen Hpos grid. subst grid.
  destruct (candidates_others pos Hpos) as ((Hr & Er) & (Hc & Ec) & (Hb & Eb)).
  set (holds := λ curr, fn (cell rows pos) (cell rows curr) curr).
  assert (Hrow : GridSvc.compareWithRow (mkGridSvc (matrix rows)) pos fn
                 = Ok (forallb holds (row_others pos))).
  { unfold GridSvc.compareWithRow. rewrite <- compareWith_log_answer.
    rewrite compareWith_log_matrix by assumption. rewrite Er. reflexivity. }
  assert (Hcol : GridSvc.compareWithCol (mkGridSvc (matrix rows)) pos fn
                 = Ok (forallb holds (col_others pos))).
  { unfold GridSvc.compareWithCol. rewrite <- compareWith_log_answer.
    rewrite compareWith_log_matrix by assumption. rewrite Ec. reflexivity. }
  assert (Hbox : GridSvc.compareWithBox (mkGridSvc (matrix rows)) pos fn
                 = Ok (forallb holds (box_others pos))).
  { unfold GridSvc.compareWithBox. rewrite <- compareWith_log_answer.
    rewrite compareWith_log_matrix by assumption. rewrite Eb. reflexivity. }
  rewrite Hrow, Hcol, Hbox, compareRelated_matrix by assumption.
  unfold all_related. fold holds.
  assert (Hok : ∀ b : bool, @Ok bool b = Ok true ↔ b = true)
    by (intros b; split; [intros [= ->]|intros ->]; reflexivity).
  rewrite !Hok, !forallb_forall. split.
  - intros Hall.
    assert (Hothers : ∀ curr, curr ∈ row_others pos ++ col_others pos ++ box_others pos →
              holds curr = true).
    { intros curr Hcurr. destruct (others_inside pos curr Hpos Hcurr) as [Hin _].
      specialize (Hall curr (proj1 (list_elem_of_In _ _) (proj1 (inside_iterateMatrix _) Hin))).
      rewrite (proj2 (areRelated_others pos curr Hpos Hin)) in Hall; [exact Hall|].
      right. rewrite !elem_of_app in Hcurr. exact Hcurr. }
    split; [|split; [|split]].
    + specialize (Hall pos (proj1 (list_elem_of_In _ _) (proj1 (inside_iterateMatrix _) Hpos))).
      rewrite areRelated_refl in Hall. exact Hall.
    + intros curr Hcurr%list_elem_of_In. apply Hothers. rewrite !elem_of_app. auto.
    + intros curr Hcurr%list_elem_of_In. apply Hothers. rewrite !elem_of_app. auto.
    + intros curr Hcurr%list_elem_of_In. apply Hothers. rewrite !elem_of_app. auto.
  - intros (Hself & Hrows & Hcols & Hboxes) curr Hcurr%list_elem_of_In%inside_iterateMatrix.
    destruct (PosSvc.areRelated pos curr) eqn:Hrel; [|reflexivity]. cbn [implb].
    apply (areRelated_others pos curr Hpos Hcurr) in Hrel as [->|[H|[H|H]]].
    + exact Hself.
    + apply Hrows, list_elem_of_In, H.
    + apply Hcols, list_elem_of_In, H.
    + apply Hboxes, list_elem_of_In, H.
Qed.

Lemma compareRelated_by_row_col_box_witness :
  9 ≤ length (digits sample) ∧ inside (mkPos 4 4)
  ∧ (GridSvc.compareRelated sample_grid (mkPos 4 4) (λ a b _, strict_eq a b) = Ok true ↔
     strict_eq (cell (digits sample) (mkPos 4 4)) (cell (digits sample) (mkPos 4 4)) = true
     ∧ GridSvc.compareWithRow sample_grid (mkPos 4 4) (λ a b _, strict_eq a b) = Ok true
     ∧ GridSvc.compareWithCol sample_grid (mkPos 4 4) (λ a b _, strict_eq a b) = Ok true
     ∧ GridSvc.compareWithBox sample_grid (mkPos 4 4) (λ a b _, strict_eq a b) = Ok true).
Proof.
  assert (Hlen : 9 ≤ length (digits sample)) by (vm_compute; lia).
  assert (Hpos : inside (mkPos 4 4)) by (split; simpl; lia).
  split; [exact Hlen|]. split; [exact Hpos|].
  exact (compareRelated_by_row_col_box (digits sample) (λ a b _, strict_eq a b) (mkPos 4 4)
           Hlen Hpos).
Defined.

(** ** The queries over a row, a column or a box *)

Section Scoped.

Implicit Types rows : list (list JsVal).

Lemma every_loop_matrix rows (fn : CBFn bool) (todo : list Pos) :
  Forall (λ pos, y pos < length rows) todo →
  GridSvc.every_loop (mkGridSvc (matrix rows)) fn todo
  = Ok (forallb (λ pos, fn (cell rows pos) pos) todo).
Proof.
  intros Htodo. induction Htodo as [|pos todo Hpos _ IH]; [reflexivity|].
  cbn [GridSvc.every_loop forallb]. rewrite getCell_matrix, bind_Ok by exact Hpos.
  destruct (fn (cell rows pos) pos); cbn [negb andb]; [exact IH|reflexivity].
Qed.

Lemma some_loop_dual (this : GridSvc) (fn : CBFn bool) (todo : list Pos) :
  GridSvc.some_loop this fn todo
  = negb <$> GridSvc.every_loop this (λ v pos, negb (fn v pos)) todo.
Proof.
  induction todo as [|pos todo IH]; [reflexivity|].
  cbn [GridSvc.some_loop GridSvc.every_loop].
  destruct (GridSvc.getCell this pos) as [v|err]; [|reflexivity].
  cbn [mbind result_bind]. rewrite negb_involutive.
  destruct (fn v pos); [reflexivity|exact IH].
Qed.

Lemma everyRow_matrix rows (r : nat) (row : list JsVal) (fn : CBFn bool) :
  rows !! r = Some row →
  GridSvc.everyRow (mkGridSvc (matrix rows)) r fn
  = Ok (all_from (λ v c, fn v (mkPos r c)) 0 row).
Proof.
  intros Hrow. unfold GridSvc.everyRow, matrix. cbn [data_ read_index].
  rewrite (list_lookup_fmap VArr rows r), Hrow. cbn [fmap option_fmap option_map default].
  rewrite bind_Ok. cbn [array_every].
  rewrite <- (list_fmap_id row) at 1. apply (every_from_Ok id). reflexivity.
Qed.

Lemma everyGrid_inside rows (fn : CBFn bool) :
  shape9 rows →
  GridSvc.everyGrid (mkGridSvc (matrix rows)) fn = Ok true
  ↔ ∀ pos, inside pos → fn (cell rows pos) pos = true.
Proof.
  intros Hshape. rewrite everyGrid_matrix. split.
  - intros [= H] pos Hpos. rewrite all_from_true in H.
    destruct (shape9_cell rows pos Hshape Hpos) as (row & Hrow & Hv).
    specialize (H _ _ Hrow). rewrite all_from_true in H.
    specialize (H _ _ Hv). destruct pos. exact H.
  - intros Hall. f_equal. apply all_from_true. intros r row Hrow.
    apply all_from_true. intros c v Hv. simpl.
    rewrite <- (cell_lookup rows r c row v Hrow Hv). apply Hall.
    apply (shape9_inside rows r c row v); assumption.
Qed.

Lemma Ok_true (b : bool) : @Ok bool b = Ok true ↔ b = true.
Proof. split; [intros [= ->]|intros ->]; reflexivity. Qed.

(** The nine boxes cover the grid: the cells of a box lie inside it, and
    every position inside the grid is a cell of the box it belongs to. *)
Lemma box_cells_cover :
  (∀ box pos, box < 9 → pos ∈ box_cells box → inside pos)
  ∧ (∀ pos, inside pos →
       PosSvc.getBoxFromPos pos < 9 ∧ pos ∈ box_cells (PosSvc.getBoxFromPos pos)).
Proof.
  split.
  - intros box pos Hbox Hin.
    assert (Hall : forallb (λ box, forallb (λ q, (y q <? 9) && (x q <? 9)) (box_cells box))
                     (seq 0 9) = true) by (vm_compute; reflexivity).
    rewrite forallb_forall in Hall. specialize (Hall box).
    rewrite in_seq in Hall. specialize (Hall ltac:(lia)).
    rewrite forallb_forall in Hall. specialize (Hall pos (proj1 (list_elem_of_In _ _) Hin)).
    apply andb_true_iff in Hall as [Hy Hx]. apply Nat.ltb_lt in Hy, Hx. split; assumption.
  - intros pos Hpos.
    assert (Hall : forallb (λ pos,
        (PosSvc.getBoxFromPos pos <? 9)
        && bool_decide (pos ∈ box_cells (PosSvc.getBoxFromPos pos))) (iterateMatrix 9) = true)
      by (vm_compute; reflexivity).
    pose proof (forall_inside _ Hall pos Hpos) as H. cbv beta in H.
    apply andb_true_iff in H as [Hlt Hin]. apply Nat.ltb_lt in Hlt.
    apply bool_decide_eq_true in Hin. split; assumption.
Qed.

Lemma Forall_rows_box_cells rows (box : nat) :
  9 ≤ length rows → box < 9 → Forall (λ pos, y pos < length rows) (box_cells box).
Proof.
  intros Hlen Hbox. apply Forall_forall. intros pos Hin.
  destruct (proj1 box_cells_cover box pos Hbox Hin). lia.
Qed.

Lemma Forall_rows_col_cells rows (col : nat) :
  9 ≤ length rows → Forall (λ pos, y pos < length rows) (col_cells col).
Proof.
  intros Hlen. apply Forall_forall. intros pos Hin. unfold col_cells in Hin.
  apply list_elem_of_fmap in Hin as (r & -> & Hr). apply elem_of_seq in Hr. simpl. lia.
Qed.

Lemma everyCol_matrix rows (col : nat) (fn : CBFn bool) :
  9 ≤ length rows →
  GridSvc.everyCol (mkGridSvc (matrix rows)) col fn
  = Ok (forallb (λ pos, fn (cell rows pos) pos) (col_cells col)).
Proof. intros Hlen. apply every_loop_matrix, Forall_rows_col_cells, Hlen. Qed.

Lemma everyBox_matrix rows (box : nat) (fn : CBFn bool) :
  9 ≤ length rows → box < 9 →
  GridSvc.everyBox (mkGridSvc (matrix rows)) box fn
  = Ok (forallb (λ pos, fn (cell rows pos) pos) (box_cells box)).
Proof. intros Hlen Hbox. apply every_loop_matrix, Forall_rows_box_cells; assumption. Qed.

End Scoped.

(** X3.  On a 9×9 grid [everyGrid] holds of a predicate exactly when
    [everyRow] holds of it on each of the nine rows, exactly when
    [everyCol] holds of it on each of the nine columns, and exactly when
    [everyBox] holds of it on each of the nine boxes. *)
Theorem everyGrid_by_rows_cols_boxes (rows : list (list JsVal)) (fn : CBFn bool) :
  shape9 rows →
  let grid := mkGridSvc (matrix rows) in
  (GridSvc.everyGrid grid fn = Ok true
   ↔ ∀ y, y < 9 → GridSvc.everyRow grid y fn = Ok true)
  ∧ (GridSvc.everyGrid grid fn = Ok true
     ↔ ∀ x, x < 9 → GridSvc.everyCol grid x fn = Ok true)
  ∧ (GridSvc.everyGrid grid fn = Ok true
     ↔ ∀ box, box < 9 → GridSvc.everyBox grid box fn = Ok true).
Proof.
  intros Hshape grid. subst grid.
  assert (Hlen : 9 ≤ length rows) by (destruct Hshape as [-> _]; lia).
  rewrite everyGrid_inside by exact Hshape. split; [|split].
  - split.
    + intros Hall r Hr. destruct (shape9_row rows r Hshape Hr) as (row & Hrow & Hrlen).
      rewrite (everyRow_matrix rows r row fn Hrow). f_equal.
      apply all_from_true. intros c v Hv. simpl.
      rewrite <- (cell_lookup rows r c row v Hrow Hv). apply Hall.
      apply (shape9_inside rows r c row v); assumption.
    + intros Hall pos Hpos.
      destruct (shape9_cell rows pos Hshape Hpos) as (row & Hrow & Hv).
      specialize (Hall (y pos) (proj1 Hpos)).
      rewrite (everyRow_matrix rows (y pos) row fn Hrow), Ok_true, all_from_true in Hall.
      specialize (Hall _ _ Hv). destruct pos. exact Hall.
  - split.
    + intros Hall c Hc. rewrite everyCol_matrix by exact Hlen. f_equal.
      apply forallb_forall. intros pos Hin%list_elem_of_In. apply Hall.
      unfold col_cells in Hin. apply list_elem_of_fmap in Hin as (r & -> & Hr).
      apply elem_of_seq in Hr. split; simpl; lia.
    + intros Hall pos Hpos. specialize (Hall (x pos) (proj2 Hpos)).
      rewrite everyCol_matrix, Ok_true, forallb_forall in Hall by exact Hlen.
      apply Hall, list_elem_of_In. unfold col_cells. apply list_elem_of_fmap.
      exists (y pos). split; [destruct pos; reflexivity|].
      apply elem_of_seq. destruct Hpos. lia.
  - split.
    + intros Hall box Hbox. rewrite everyBox_matrix by assumption. f_equal.
      apply forallb_forall. intros pos Hin%list_elem_of_In. apply Hall.
      apply (proj1 box_cells_cover box pos Hbox Hin).
    + intros Hall pos Hpos. destruct (proj2 box_cells_cover pos Hpos) as [Hbox Hin].
      specialize (Hall _ Hbox).
      rewrite everyBox_matrix, Ok_true, forallb_forall in Hall by assumption.
      apply Hall, list_elem_of_In, Hin.
Qed.

Lemma everyGrid_by_rows_cols_boxes_witness :
  shape9 (digits sample)
  ∧ (GridSvc.everyGrid sample_grid (λ v _, negb (strict_eq v (VNum 0))) = Ok true
     ↔ ∀ box, box < 9 →
         GridSvc.everyBox sample_grid box (λ v _, negb (strict_eq v (VNum 0))) = Ok true).
Proof.
  assert (Hshape : shape9 (digits sample)) by (split; [reflexivity|repeat constructor]).
  split; [exact Hshape|].
  exact (proj2 (proj2 (everyGrid_by_rows_cols_boxes (digits sample)
                         (λ v _, negb (strict_eq v (VNum 0))) Hshape))).
Defined.

Lemma row_not_array (this : GridSvc) (fn : CBFn bool) (row : nat) :
  (∀ cells, read_index (data_ this) row ≠ Ok (VArr cells)) →
  type_error (GridSvc.someRow this row fn) ∧ type_error (GridSvc.everyRow this row fn).
Proof.
  intros Hrow. unfold GridSvc.someRow, GridSvc.everyRow, type_error.
  destruct (read_index (data_ this) row) as [v|e] eqn:Hread.
  - cbn [mbind result_bind].
    destruct v as [| |?|?|? ?|?|cells|?]; try (split; eexists; reflexivity).
    destruct (Hrow cells eq_refl).
  - destruct (data_ this) as [| |?|?|? ?|?|?|?]; try discriminate Hread;
      injection Hread as <-; split; eexists; reflexivity.
Qed.

(** X4.  [someCol] and [someBox] answer the negation of [everyCol] and
    [everyBox] on the negated predicate, on any data and for any index,
    with the same error when a lookup throws.  [someRow] answers the
    negation of [everyRow] on the negated predicate wherever the row is an
    array; where it is not, both throw a [TypeError]. *)
Theorem some_every_scoped_duality (this : GridSvc) (fn : CBFn bool) :
  (∀ col, GridSvc.someCol this col fn
          = negb <$> GridSvc.everyCol this col (λ v pos, negb (fn v pos)))
  ∧ (∀ box, GridSvc.someBox this box fn
            = negb <$> GridSvc.everyBox this box (λ v pos, negb (fn v pos)))
  ∧ (∀ row cells, read_index (data_ this) row = Ok (VArr cells) →
       GridSvc.someRow this row fn
       = negb <$> GridSvc.everyRow this row (λ v pos, negb (fn v pos)))
  ∧ (∀ row, (∀ cells, read_index (data_ this) row ≠ Ok (VArr cells)) →
       type_error (GridSvc.someRow this row fn)
       ∧ type_error (GridSvc.everyRow this row (λ v pos, negb (fn v pos)))).
Proof.
  split; [|split; [|split]].
  - intros c. apply some_loop_dual.
  - intros box. apply some_loop_dual.
  - intros row cells Hrow. unfold GridSvc.someRow, GridSvc.everyRow. rewrite Hrow, !bind_Ok.
    cbn [array_some array_every].
    rewrite <- (list_fmap_id cells). apply (some_from_dual id). intros v c.
    cbn [fmap result_fmap]. rewrite negb_involutive. reflexivity.
  - intros row Hrow. split.
    + apply (row_not_array this fn row Hrow).
    + apply (row_not_array this (λ v pos, negb (fn v pos)) row Hrow).
Qed.

Lemma some_every_scoped_duality_witness :
  GridSvc.someRow sample_grid 2 (λ v _, strict_eq v (VNum 9))
  = negb <$> GridSvc.everyRow sample_grid 2 (λ v _, negb (strict_eq v (VNum 9)))
  ∧ GridSvc.someBox (mkGridSvc (VObj [])) 4 (λ v _, strict_eq v (VNum 9))
    = negb <$> GridSvc.everyBox (mkGridSvc (VObj [])) 4 (λ v _, negb (strict_eq v (VNum 9)))
  ∧ type_error (GridSvc.someRow (mkGridSvc (VObj [])) 0 (λ v _, strict_eq v (VNum 9))).
Proof.
  split; [|split].
  - apply (proj1 (proj2 (proj2 (some_every_scoped_duality sample_grid
                                  (λ v _, strict_eq v (VNum 9)))))
             2 (VNum <$> [1; 9; 8; 3; 4; 2; 5; 6; 7]%Z)).
    reflexivity.
  - apply (proj1 (proj2 (some_every_scoped_duality (mkGridSvc (VObj []))
                           (λ v _, strict_eq v (VNum 9))))).
  - apply (proj2 (proj2 (proj2 (some_every_scoped_duality (mkGridSvc (VObj []))
                                  (λ v _, strict_eq v (VNum 9))))) 0).
    intros cells. discriminate.
Defined.

(** ** Counting *)

Section Count.

Implicit Types rows : list (list JsVal).

Lemma count_loop_matrix rows (fn : CBFn bool) (asserts : nat) (todo : list Pos) :
  Forall (λ pos, y pos < length rows) todo →
  GridSvc.count_loop (mkGridSvc (matrix rows)) fn asserts todo
  = Ok (asserts + length (List.filter (λ pos, fn (cell rows pos) pos) todo)).
Proof.
  intros Htodo. revert asserts.
  induction Htodo as [|pos todo Hpos _ IH]; intros asserts.
  - cbn. f_equal. lia.
  - cbn [GridSvc.count_loop List.filter]. rewrite getCell_matrix, bind_Ok by exact Hpos.
    rewrite IH. destruct (fn (cell rows pos) pos); cbn [length]; f_equal; lia.
Qed.

(** The loop throws at the first position whose row is missing. *)
Lemma count_loop_missing rows (fn : CBFn bool) (asserts : nat) (todo : list Pos) (bad : Pos) :
  List.find (λ pos, length rows <=? y pos) todo = Some bad →
  GridSvc.count_loop (mkGridSvc (matrix rows)) fn asserts todo = Throw (missing_row (x bad)).
Proof.
  revert asserts. induction todo as [|pos todo IH]; intros asserts; [discriminate|].
  cbn [List.find GridSvc.count_loop].
  destruct (length rows <=? y pos) eqn:Hy.
  - intros [= <-]. apply Nat.leb_le in Hy. rewrite (getCell_missing_row rows pos Hy).
    reflexivity.
  - intros Hbad. apply Nat.leb_gt in Hy. rewrite getCell_matrix, bind_Ok by exact Hy.
    apply IH, Hbad.
Qed.

Lemma length_filter_split {A} (f : A → bool) (l : list A) :
  length (List.filter f l) + length (List.filter (λ a, negb (f a)) l) = length l.
Proof.
  induction l as [|a l IH]; [reflexivity|]. cbn [List.filter].
  destruct (f a); cbn [negb length]; lia.
Qed.

Lemma length_filter_le {A} (f : A → bool) (l : list A) :
  length (List.filter f l) ≤ length l.
Proof. pose proof (length_filter_split f l). lia. Qed.

Lemma length_filter_all {A} (f : A → bool) (l : list A) :
  length (List.filter f l) = length l ↔ ∀ a, a ∈ l → f a = true.
Proof.
  induction l as [|a l IH]; cbn [List.filter].
  - split; [intros _ a Ha; by apply elem_of_nil in Ha|reflexivity].
  - pose proof (length_filter_le f l) as Hle. destruct (f a) eqn:Hfa; cbn [length].
    + split.
      * intros Hlen b [->|Hb]%elem_of_cons; [exact Hfa|]. apply IH; [lia|exact Hb].
      * intros Hall. f_equal. apply IH. intros b Hb. apply Hall, list_elem_of_further, Hb.
    + split; [lia|]. intros Hall. specialize (Hall a (list_elem_of_here _ _)). congruence.
Qed.

Lemma length_filter_none {A} (f : A → bool) (l : list A) :
  length (List.filter f l) = 0 ↔ ∀ a, a ∈ l → f a = false.
Proof.
  pose proof (length_filter_split f l) as Hsplit.
  pose proof (length_filter_all (λ a, negb (f a)) l) as Hall. cbv beta in Hall.
  split.
  - intros Hlen a Ha. apply negb_true_iff, Hall; [lia|exact Ha].
  - intros Hnone. enough (length (List.filter (λ a, negb (f a)) l) = length l) by lia.
    apply Hall. intros a Ha. apply negb_true_iff, Hnone, Ha.
Qed.

Lemma length_iterateMatrix : length (iterateMatrix 9) = 81.
Proof. reflexivity. Qed.

Lemma Forall_rows_iterateMatrix rows :
  9 ≤ length rows → Forall (λ pos, y pos < length rows) (iterateMatrix 9).
Proof.
  intros Hlen. apply Forall_forall. intros pos [Hy _]%inside_iterateMatrix. lia.
Qed.

End Count.

(** X5.  On a 9×9 grid [count] returns the number of the 81 positions at
    which the predicate holds; the counts of a predicate and of its
    negation add up to 81; the count is 0 exactly when [someGrid] answers
    false and 81 exactly when [everyGrid] answers true. *)
Theorem count_some_every (rows : list (list JsVal)) (fn : CBFn bool) :
  shape9 rows →
  let grid := mkGridSvc (matrix rows) in
  ∃ n,
    GridSvc.count grid fn = Ok n
    ∧ n = length (List.filter (λ pos, fn (cell rows pos) pos) (iterateMatrix 9))
    ∧ GridSvc.count grid (λ v pos, negb (fn v pos)) = Ok (81 - n)
    ∧ n ≤ 81
    ∧ (n = 0 ↔ GridSvc.someGrid grid fn = Ok false)
    ∧ (n = 81 ↔ GridSvc.everyGrid grid fn = Ok true).
Proof.
  intros Hshape grid. subst grid.
  assert (Hlen : 9 ≤ length rows) by (destruct Hshape as [-> _]; lia).
  pose proof (Forall_rows_iterateMatrix rows Hlen) as Hrows.
  pose proof (length_filter_split (λ pos, fn (cell rows pos) pos) (iterateMatrix 9)) as Hsplit.
  rewrite length_iterateMatrix in Hsplit.
  eexists. split; [apply count_loop_matrix, Hrows|]. cbn [Nat.add].
  split; [reflexivity|]. split; [|split; [lia|split]].
  - unfold GridSvc.count. rewrite count_loop_matrix by exact Hrows. f_equal.
    cbn [Nat.add]. lia.
  - rewrite length_filter_none, someGrid_dual.
    assert (Hneg : ∀ r : result bool, negb <$> r = Ok false ↔ r = Ok true).
    { intros [[]|e]; cbn; split; congruence. }
    rewrite Hneg, (everyGrid_inside rows _ Hshape). split.
    + intros Hall pos Hpos. apply negb_true_iff, Hall, inside_iterateMatrix, Hpos.
    + intros Hall pos Hpos%inside_iterateMatrix. apply negb_true_iff, Hall, Hpos.
  - rewrite <- length_iterateMatrix at 1.
    rewrite length_filter_all, (everyGrid_inside rows _ Hshape). split.
    + intros Hall pos Hpos. apply Hall, inside_iterateMatrix, Hpos.
    + intros Hall pos Hpos%inside_iterateMatrix. apply Hall, Hpos.
Qed.

Lemma count_some_every_witness :
  shape9 (digits sample)
  ∧ ∃ n,
      GridSvc.count sample_grid (λ v _, strict_eq v (VNum 5)) = Ok n
      ∧ n = length (List.filter (λ pos, strict_eq (cell (digits sample) pos) (VNum 5))
                      (iterateMatrix 9))
      ∧ GridSvc.count sample_grid (λ v _, negb (strict_eq v (VNum 5))) = Ok (81 - n)
      ∧ n ≤ 81
      ∧ (n = 0 ↔ GridSvc.someGrid sample_grid (λ v _, strict_eq v (VNum 5)) = Ok false)
      ∧ (n = 81 ↔ GridSvc.everyGrid sample_grid (λ v _, strict_eq v (VNum 5)) = Ok true).
Proof.
  assert (Hshape : shape9 (digits sample)) by (split; [reflexivity|repeat constructor]).
  split; [exact Hshape|].
  exact (count_some_every (digits sample) (λ v _, strict_eq v (VNum 5)) Hshape).
Defined.

(** X6.  On data with fewer than nine rows [count] throws for every
    predicate: it visits all 81 positions and the first cell of the first
    missing row cannot be read.  [everyGrid] and [someGrid], which walk the
    rows that are there, answer on the same data. *)
Theorem count_throws_on_missing_rows (rows : list (list JsVal)) (fn : CBFn bool) :
  length rows < 9 →
  let grid := mkGridSvc (matrix rows) in
  GridSvc.count grid fn
  = Throw (TypeError "Cannot read properties of undefined (reading '0')")
  ∧ (∃ b, GridSvc.everyGrid grid fn = Ok b)
  ∧ (∃ b, GridSvc.someGrid grid fn = Ok b).
Proof.
  intros Hlen grid. subst grid. split; [|split].
  - unfold GridSvc.count.
    rewrite (count_loop_missing rows fn 0 (iterateMatrix 9) (mkPos (length rows) 0));
      [reflexivity|].
    remember (length rows) as n eqn:Hn. clear Hn.
    do 9 (destruct n as [|n]; [reflexivity|]). lia.
  - rewrite everyGrid_matrix. eauto.
  - rewrite someGrid_dual, everyGrid_matrix. cbn [fmap result_fmap]. eauto.
Qed.

Lemma count_throws_on_missing_rows_witness :
  length (take 3 (digits sample)) < 9
  ∧ GridSvc.count (mkGridSvc (matrix (take 3 (digits sample)))) (λ _ _, true)
    = Throw (TypeError "Cannot read properties of undefined (reading '0')").
Proof.
  assert (Hlen : length (take 3 (digits sample)) < 9) by (vm_compute; lia).
  split; [exact Hlen|].
  exact (proj1 (count_throws_on_missing_rows (take 3 (digits sample)) (λ _ _, true) Hlen)).
Defined.

(** ** Joining the cells of a row, a column or a box *)

Section Join.

Implicit Types rows : list (list JsVal).

Lemma joinRow_matrix rows (r : nat) (row : list JsVal) (sep : string) :
  rows !! r = Some row →
  GridSvc.joinRow (mkGridSvc (matrix rows)) r sep
  = Ok (join_strings sep (join_item <$> row)).
Proof.
  intros Hrow. unfold GridSvc.joinRow, matrix. cbn [data_ read_index].
  rewrite (list_lookup_fmap VArr rows r), Hrow. reflexivity.
Qed.

(** A separator-joined text is its first part followed by each other part
    behind a separator. *)
Lemma join_strings_cons (sep t : string) (texts : list string) :
  join_strings sep (t :: texts) = t +:+ foldr (λ u acc, sep +:+ u +:+ acc) "" texts.
Proof.
  revert t. induction texts as [|u texts IH]; intros t.
  - cbn [join_strings foldr]. induction t as [|c t IHt]; [reflexivity|].
    change (String c t +:+ "") with (String c (t +:+ "")). rewrite <- IHt. reflexivity.
  - change (join_strings sep (t :: u :: texts)) with (t +:+ sep +:+ join_strings sep (u :: texts)).
    rewrite IH. cbn [foldr]. reflexivity.
Qed.

Lemma append_empty_r (s : string) : s +:+ "" = s.
Proof.
  induction s as [|c s IH]; [reflexivity|].
  change (String c s +:+ "") with (String c (s +:+ "")). rewrite IH. reflexivity.
Qed.

(** The loop of [joinCol] past the first row: every cell goes behind a
    separator. *)
Lemma joinCol_loop_matrix rows (col : nat) (sep str : string) (todo : list nat) :
  Forall (λ r, r ≠ 0 ∧ r < length rows) todo →
  GridSvc.joinCol_loop (mkGridSvc (matrix rows)) col sep str todo
  = Ok (str +:+ foldr (λ u acc, sep +:+ u +:+ acc) ""
                  ((λ r, to_string (cell rows (mkPos r col))) <$> todo)).
Proof.
  intros Htodo. revert str. induction Htodo as [|r todo [Hr Hlt] _ IH]; intros str.
  - cbn. rewrite append_empty_r. reflexivity.
  - cbn [GridSvc.joinCol_loop]. rewrite getCell_matrix, bind_Ok by exact Hlt.
    destruct r as [|r]; [congruence|]. cbn [Nat.eqb].
    rewrite IH, fmap_cons. cbn [foldr]. rewrite !append_assoc. reflexivity.
Qed.

Lemma joinCol_matrix rows (col : nat) (sep : string) :
  9 ≤ length rows →
  GridSvc.joinCol (mkGridSvc (matrix rows)) col sep
  = Ok (join_strings sep ((λ pos, to_string (cell rows pos)) <$> col_cells col)).
Proof.
  intros Hlen. unfold GridSvc.joinCol, iterateArray, col_cells.
  change (seq 0 9) with (0 :: seq 1 8). rewrite !fmap_cons, join_strings_cons.
  cbn [GridSvc.joinCol_loop]. rewrite getCell_matrix, bind_Ok by (simpl; lia).
  cbn [Nat.eqb]. rewrite joinCol_loop_matrix.
  - rewrite <- list_fmap_compose. reflexivity.
  - apply Forall_forall. intros r Hr%elem_of_seq. lia.
Qed.

(** The loop of [joinBox] on data that has the rows it reads. *)
Lemma joinBox_loop_matrix rows (boxPos : Pos) (rowSep colSep str : string)
    (todo : list Pos) :
  Forall (λ pos, y pos + y boxPos < length rows) todo →
  GridSvc.joinBox_loop (mkGridSvc (matrix rows)) boxPos rowSep colSep str todo
  = Ok (foldl (λ str pos,
          let text := to_string (cell rows (PosSvc.sumPos pos boxPos)) in
          if (y pos =? 0) && (x pos =? 0) then str +:+ text
          else if x pos =? 0 then str +:+ (colSep +:+ text)
          else str +:+ (rowSep +:+ text)) str todo).
Proof.
  intros Htodo. revert str. induction Htodo as [|pos todo Hpos _ IH]; intros str;
    [reflexivity|].
  cbn [GridSvc.joinBox_loop foldl].
  rewrite (getCell_matrix rows (PosSvc.sumPos pos boxPos)), bind_Ok by exact Hpos.
  apply IH.
Qed.

End Join.

(** X7.  [joinGrid] is the join, with the separator [x], of what [joinRow]
    makes of each row with the separator [y], on any array of row arrays
    whatever its shape. *)
Theorem joinGrid_joins_rows (rows : list (list JsVal)) (a b : string) :
  let grid := mkGridSvc (matrix rows) in
  ∃ texts,
    length texts = length rows
    ∧ (∀ r text, texts !! r = Some text → GridSvc.joinRow grid r b = Ok text)
    ∧ GridSvc.joinGrid grid {[ "x" := a; "y" := b ]} = Ok (join_strings a texts).
Proof.
  intros grid. subst grid.
  exists ((λ row, join_strings b (join_item <$> row)) <$> rows).
  split; [apply length_fmap|]. split.
  - intros r text Htext. apply list_lookup_fmap_Some in Htext as (row & -> & Hrow).
    apply joinRow_matrix, Hrow.
  - rewrite joinGrid_matrix.
    rewrite lookup_insert_eq, lookup_insert_ne, lookup_singleton_eq by discriminate.
    reflexivity.
Qed.

(** X8.  On a grid with all its rows [joinCol] returns the cells of the
    column from top to bottom with the separator between them, each cell
    written as string concatenation writes it: [undefined] and [null] as
    these words, where [joinRow] and [joinGrid] leave them empty. *)
Theorem joinCol_joins_column (rows : list (list JsVal)) (x : nat) (sep : string) :
  9 ≤ length rows →
  GridSvc.joinCol (mkGridSvc (matrix rows)) x sep
  = Ok (join_strings sep ((λ y, to_string (cell rows (mkPos y x))) <$> seq 0 9))
  ∧ (∀ y, to_string (cell rows (mkPos y x)) = join_item (cell rows (mkPos y x))
          ∨ (cell rows (mkPos y x) = VUndef
             ∧ to_string (cell rows (mkPos y x)) = "undefined"
             ∧ join_item (cell rows (mkPos y x)) = "")
          ∨ (cell rows (mkPos y x) = VNull
             ∧ to_string (cell rows (mkPos y x)) = "null"
             ∧ join_item (cell rows (mkPos y x)) = "")).
Proof.
  intros Hlen. split.
  - rewrite joinCol_matrix by exact Hlen. unfold col_cells.
    rewrite <- list_fmap_compose. reflexivity.
  - intros r. destruct (cell rows (mkPos r x)); auto.
Qed.

Lemma joinCol_joins_column_witness :
  9 ≤ length (digits sample)
  ∧ GridSvc.joinCol sample_grid 2 "-"
    = Ok (join_strings "-" ((λ y, to_string (cell (digits sample) (mkPos y 2))) <$> seq 0 9)).
Proof.
  assert (Hlen : 9 ≤ length (digits sample)) by (vm_compute; lia).
  split; [exact Hlen|].
  exact (proj1 (joinCol_joins_column (digits sample) 2 "-" Hlen)).
Defined.

(** X9.  On a grid with all its rows [joinBox] lays the box out as
    [joinGrid] lays out the grid: the separator read under the key [y]
    between the three cells of a row of the box, the one read under [x]
    between its three rows. *)
Theorem joinBox_layout (rows : list (list JsVal)) (box : nat) (a b : string) :
  9 ≤ length rows → box < 9 →
  GridSvc.joinBox (mkGridSvc (matrix rows)) box {[ "x" := a; "y" := b ]}
  = Ok (join_strings a
          ((λ r, join_strings b
                   ((λ c, to_string
                            (cell rows (PosSvc.sumPos (mkPos r c) (PosSvc.getPosFromBox box))))
                      <$> seq 0 3))
             <$> seq 0 3)).
Proof.
  intros Hlen Hbox. unfold GridSvc.joinBox.
  rewrite lookup_insert_eq, lookup_insert_ne, lookup_singleton_eq by discriminate.
  cbn [default id]. rewrite joinBox_loop_matrix.
  - f_equal. cbn. rewrite !append_assoc. reflexivity.
  - apply Forall_forall. intros pos [Hy _]%elem_of_iterateMatrix.
    cbn [PosSvc.getPosFromBox y]. pose proof (Nat.Div0.mul_div_le box 3). lia.
Qed.

Lemma joinBox_layout_witness :
  9 ≤ length (digits sample) ∧ 4 < 9
  ∧ GridSvc.joinBox sample_grid 4 {[ "x" := "/"; "y" := "," ]} = Ok "7,6,1/8,5,3/9,2,4".
Proof.
  assert (Hlen : 9 ≤ length (digits sample)) by (vm_compute; lia).
  assert (Hbox : 4 < 9) by lia.
  split; [exact Hlen|]. split; [exact Hbox|].
  exact (joinBox_layout (digits sample) 4 "/" "," Hlen Hbox).
Defined.

(** ** Indexes outside the grid *)

Section Bounds.

Implicit Types rows : list (list JsVal).

Lemma some_loop_matrix rows (fn : CBFn bool) (todo : list Pos) :
  Forall (λ pos, y pos < length rows) todo →
  GridSvc.some_loop (mkGridSvc (matrix rows)) fn todo
  = Ok (existsb (λ pos, fn (cell rows pos) pos) todo).
Proof.
  intros Htodo. induction Htodo as [|pos todo Hpos _ IH]; [reflexivity|].
  cbn [GridSvc.some_loop existsb]. rewrite getCell_matrix, bind_Ok by exact Hpos.
  destruct (fn (cell rows pos) pos); cbn [orb]; [reflexivity|exact IH].
Qed.

(** A callback that changes no cell of the data makes [#mapData] return
    the data. *)
Lemma mapData_unchanged rows (mapFn : CBFn (result JsVal)) :
  (∀ r c row v, rows !! r = Some row → row !! c = Some v → mapFn v (mkPos r c) = Ok v) →
  GridSvc.mapData (mkGridSvc (matrix rows)) mapFn = Ok (matrix rows).
Proof.
  intros Hfn. rewrite (mapData_matrix rows mapFn (λ v _, v)) by exact Hfn.
  rewrite mapped_id. reflexivity.
Qed.

Lemma cell_outside_row rows (pos : Pos) :
  shape9 rows → 9 ≤ x pos → cell rows pos = VUndef.
Proof.
  intros [_ Hrows] Hx. unfold cell.
  destruct (rows !! y pos) as [row|] eqn:Hrow; [|reflexivity]. simpl.
  rewrite Forall_forall in Hrows.
  rewrite lookup_ge_None_2; [reflexivity|].
  rewrite (Hrows row (list_elem_of_lookup_2 _ _ _ Hrow)). exact Hx.
Qed.

Lemma forallb_fmap {A B} (f : B → bool) (g : A → B) (l : list A) :
  forallb f (g <$> l) = forallb (λ a, f (g a)) l.
Proof. induction l as [|a l IH]; [reflexivity|]. cbn. rewrite IH. reflexivity. Qed.

Lemma existsb_fmap {A B} (f : B → bool) (g : A → B) (l : list A) :
  existsb f (g <$> l) = existsb (λ a, f (g a)) l.
Proof. induction l as [|a l IH]; [reflexivity|]. cbn. rewrite IH. reflexivity. Qed.

Lemma forallb_ext_eq {A} (f g : A → bool) (l : list A) :
  (∀ a, f a = g a) → forallb f l = forallb g l.
Proof. intros H. induction l as [|a l IH]; [reflexivity|]. cbn. rewrite H, IH. reflexivity. Qed.

Lemma existsb_ext_eq {A} (f g : A → bool) (l : list A) :
  (∀ a, f a = g a) → existsb f l = existsb g l.
Proof. intros H. induction l as [|a l IH]; [reflexivity|]. cbn. rewrite H, IH. reflexivity. Qed.

End Bounds.

(** X10.  A box number above 8 on a 9×9 grid: [everyBox], [someBox] and
    [joinBox] throw the [TypeError] of reading a column of a row that is
    not there, before the callback is ever called; [mapBox] throws
    nothing, calls the callback on no cell and returns the grid's data
    unchanged. *)
Theorem box_out_of_range (rows : list (list JsVal)) (box : nat) (fn : CBFn bool)
    (map : CBFn JsVal) (separators : gmap string string) :
  shape9 rows → 9 ≤ box →
  let grid := mkGridSvc (matrix rows) in
  let err := TypeError ("Cannot read properties of undefined (reading '"
                        +:+ pretty ((box mod 3) * 3) +:+ "')") in
  GridSvc.everyBox grid box fn = Throw err
  ∧ GridSvc.someBox grid box fn = Throw err
  ∧ GridSvc.joinBox grid box separators = Throw err
  ∧ GridSvc.mapBox grid box map = Ok grid.
Proof.
  intros Hshape Hbox grid err. subst grid err.
  assert (Hlen : length rows ≤ box / 3 * 3).
  { destruct Hshape as [-> _]. pose proof (Nat.Div0.div_le_mono 9 box 3 Hbox) as H.
    change (9 / 3) with 3 in H. lia. }
  change (iterateMatrix 3) with (mkPos 0 0 :: tail (iterateMatrix 3)).
  split; [|split; [|split]].
  - unfold GridSvc.everyBox. change (iterateMatrix 3) with (mkPos 0 0 :: tail (iterateMatrix 3)).
    rewrite fmap_cons. cbn [GridSvc.every_loop].
    rewrite getCell_missing_row by (cbn [PosSvc.sumPos PosSvc.getPosFromBox y]; lia).
    cbn [PosSvc.sumPos PosSvc.getPosFromBox x]. rewrite Nat.add_0_r. reflexivity.
  - unfold GridSvc.someBox. change (iterateMatrix 3) with (mkPos 0 0 :: tail (iterateMatrix 3)).
    rewrite fmap_cons. cbn [GridSvc.some_loop].
    rewrite getCell_missing_row by (cbn [PosSvc.sumPos PosSvc.getPosFromBox y]; lia).
    cbn [PosSvc.sumPos PosSvc.getPosFromBox x]. rewrite Nat.add_0_r. reflexivity.
  - unfold GridSvc.joinBox. change (iterateMatrix 3) with (mkPos 0 0 :: tail (iterateMatrix 3)).
    cbn [GridSvc.joinBox_loop].
    rewrite getCell_missing_row by (cbn [PosSvc.sumPos PosSvc.getPosFromBox y]; lia).
    reflexivity.
  - unfold GridSvc.mapBox. rewrite mapData_unchanged; [reflexivity|].
    intros r c row v Hrow Hv. unfold GridSvc.condMap.
    pose proof (shape9_inside rows r c row v Hshape Hrow Hv) as Hin.
    destruct (proj2 box_cells_cover _ Hin) as [Hlt _].
    destruct (Nat.eqb_spec (PosSvc.getBoxFromPos (mkPos r c)) box); [lia|reflexivity].
Qed.

Lemma box_out_of_range_witness :
  shape9 (digits sample) ∧ 9 ≤ 10
  ∧ GridSvc.everyBox sample_grid 10 (λ _ _, true)
    = Throw (TypeError "Cannot read properties of undefined (reading '3')")
  ∧ GridSvc.someBox sample_grid 10 (λ _ _, true)
    = Throw (TypeError "Cannot read properties of undefined (reading '3')")
  ∧ GridSvc.joinBox sample_grid 10 ∅
    = Throw (TypeError "Cannot read properties of undefined (reading '3')")
  ∧ GridSvc.mapBox sample_grid 10 (λ _ _, VNum 0) = Ok sample_grid.
Proof.
  assert (Hshape : shape9 (digits sample)) by (split; [reflexivity|repeat constructor]).
  assert (Hbox : 9 ≤ 10) by lia.
  split; [exact Hshape|]. split; [exact Hbox|].
  exact (box_out_of_range (digits sample) 10 (λ _ _, true) (λ _ _, VNum 0) ∅ Hshape Hbox).
Defined.

(** X11.  A column number above 8 on a 9×9 grid throws nothing:
    [everyCol] and [someCol] call the callback on [undefined] at each of
    the nine rows, [joinCol] writes [undefined] nine times, and [mapCol]
    returns the grid's data unchanged. *)
Theorem col_out_of_range (rows : list (list JsVal)) (col : nat) (fn : CBFn bool)
    (map : CBFn JsVal) (sep : string) :
  shape9 rows → 9 ≤ col →
  let grid := mkGridSvc (matrix rows) in
  GridSvc.everyCol grid col fn = Ok (forallb (λ r, fn VUndef (mkPos r col)) (seq 0 9))
  ∧ GridSvc.someCol grid col fn = Ok (existsb (λ r, fn VUndef (mkPos r col)) (seq 0 9))
  ∧ GridSvc.joinCol grid col sep = Ok (join_strings sep (replicate 9 "undefined"))
  ∧ GridSvc.mapCol grid col map = Ok grid.
Proof.
  intros Hshape Hcol grid. subst grid.
  assert (Hlen : 9 ≤ length rows) by (destruct Hshape as [-> _]; lia).
  assert (Hcell : ∀ r, cell rows (mkPos r col) = VUndef)
    by (intros r; apply cell_outside_row; [exact Hshape|exact Hcol]).
  split; [|split; [|split]].
  - rewrite everyCol_matrix by exact Hlen. unfold col_cells. f_equal.
    rewrite forallb_fmap. apply forallb_ext_eq. intros r. rewrite Hcell. reflexivity.
  - unfold GridSvc.someCol. rewrite some_loop_matrix by apply Forall_rows_col_cells, Hlen.
    f_equal. unfold iterateArray. rewrite existsb_fmap. apply existsb_ext_eq.
    intros r. rewrite Hcell. reflexivity.
  - rewrite joinCol_matrix by exact Hlen. unfold col_cells. do 2 f_equal.
    rewrite <- list_fmap_compose. apply list_eq. intros k.
    rewrite list_lookup_fmap. destruct (seq 0 9 !! k) as [r|] eqn:Hk.
    + apply lookup_lt_Some in Hk as Hlt. rewrite length_seq in Hlt.
      rewrite lookup_replicate_2 by exact Hlt. simpl. unfold compose. rewrite Hcell. reflexivity.
    + apply lookup_ge_None in Hk. rewrite length_seq in Hk.
      symmetry. apply lookup_ge_None. rewrite length_replicate. exact Hk.
  - unfold GridSvc.mapCol. rewrite mapData_unchanged; [reflexivity|].
    intros r c row v Hrow Hv. unfold GridSvc.condMap. cbn [x].
    destruct (shape9_inside rows r c row v Hshape Hrow Hv) as [_ Hc]. simpl in Hc.
    destruct (Nat.eqb_spec c col); [lia|reflexivity].
Qed.

Lemma col_out_of_range_witness :
  shape9 (digits sample) ∧ 9 ≤ 9
  ∧ GridSvc.joinCol sample_grid 9 "," = Ok (join_strings "," (replicate 9 "undefined")).
Proof.
  assert (Hshape : shape9 (digits sample)) by (split; [reflexivity|repeat constructor]).
  assert (Hx : 9 ≤ 9) by lia.
  split; [exact Hshape|]. split; [exact Hx|].
  exact (proj1 (proj2 (proj2
    (col_out_of_range (digits sample) 9 (λ _ _, true) (λ _ _, VNum 0) "," Hshape Hx)))).
Defined.

(** X12.  A row number that the data does not have: [everyRow],
    [someRow] and [joinRow] throw the [TypeError] of calling a method of
    [undefined]; [mapRow] throws nothing and returns the grid's data
    unchanged. *)
Theorem row_out_of_range (rows : list (list JsVal)) (row : nat) (fn : CBFn bool)
    (map : CBFn JsVal) (sep : string) :
  length rows ≤ row →
  let grid := mkGridSvc (matrix rows) in
  GridSvc.everyRow grid row fn
  = Throw (TypeError "Cannot read properties of undefined (reading 'every')")
  ∧ GridSvc.someRow grid row fn
    = Throw (TypeError "Cannot read properties of undefined (reading 'some')")
  ∧ GridSvc.joinRow grid row sep
    = Throw (TypeError "Cannot read properties of undefined (reading 'join')")
  ∧ GridSvc.mapRow grid row map = Ok grid.
Proof.
  intros Hy grid. subst grid.
  assert (Hrow : read_index (matrix rows) row = Ok VUndef).
  { unfold matrix. cbn [read_index].
    rewrite (lookup_ge_None_2 (VArr <$> rows)) by (rewrite length_fmap; exact Hy).
    reflexivity. }
  split; [|split; [|split]].
  - unfold GridSvc.everyRow. cbn [data_]. rewrite Hrow. reflexivity.
  - unfold GridSvc.someRow. cbn [data_]. rewrite Hrow. reflexivity.
  - unfold GridSvc.joinRow. cbn [data_]. rewrite Hrow. reflexivity.
  - unfold GridSvc.mapRow. rewrite mapData_unchanged; [reflexivity|].
    intros r c cells v Hr Hv. unfold GridSvc.condMap. cbn [y].
    apply lookup_lt_Some in Hr. destruct (Nat.eqb_spec r row); [lia|reflexivity].
Qed.

Lemma row_out_of_range_witness :
  length (digits sample) ≤ 9
  ∧ GridSvc.joinRow sample_grid 9 ","
    = Throw (TypeError "Cannot read properties of undefined (reading 'join')").
Proof.
  assert (Hy : length (digits sample) ≤ 9) by (vm_compute; lia).
  split; [exact Hy|].
  exact (proj1 (proj2 (proj2
    (row_out_of_range (digits sample) 9 (λ _ _, true) (λ _ _, VNum 0) "," Hy)))).
Defined.

(** ** The maps *)

Section Maps.

Implicit Types rows : list (list JsVal).

Lemma mapped_mapped rows (f g : CBFn JsVal) :
  mapped (mapped rows f) g = mapped rows (λ v pos, g (f v pos) pos).
Proof.
  unfold mapped. apply list_eq. intros r. rewrite !list_lookup_imap.
  destruct (rows !! r) as [row|]; simpl; [|reflexivity]. f_equal.
  apply list_eq. intros c. rewrite !list_lookup_imap.
  destruct (row !! c); reflexivity.
Qed.

Lemma mapGrid_matrix rows (fn : CBFn JsVal) :
  GridSvc.mapGrid (mkGridSvc (matrix rows)) fn = Ok (mkGridSvc (matrix (mapped rows fn))).
Proof.
  unfold GridSvc.mapGrid. rewrite (mapData_matrix rows _ fn); reflexivity.
Qed.

Lemma getCell_mapped rows (m : CBFn JsVal) (pos : Pos) :
  shape9 rows → inside pos →
  GridSvc.getCell (mkGridSvc (matrix (mapped rows m))) pos = Ok (m (cell rows pos) pos).
Proof.
  intros Hshape Hpos.
  destruct (shape9_row rows (y pos) Hshape (proj1 Hpos)) as (row & Hrow & Hlen).
  rewrite getCell_matrix.
  - rewrite cell_mapped; [reflexivity| |].
    + destruct Hshape as [-> _]. apply Hpos.
    + rewrite Hrow. simpl. rewrite Hlen. apply Hpos.
  - unfold mapped. rewrite length_imap. destruct Hshape as [-> _]. apply Hpos.
Qed.

(** [Array.prototype.map] with two callbacks that agree on the elements
    of the array, each at its index. *)
Lemma map_from_ext (f g : JsVal → nat → result JsVal) (items : list JsVal) (i : nat) :
  (∀ k v, items !! k = Some v → f v (i + k) = g v (i + k)) →
  map_from f i items = map_from g i items.
Proof.
  revert i. induction items as [|v rest IH]; intros i Hfg; [reflexivity|].
  cbn [map_from]. pose proof (Hfg 0 v eq_refl) as Hv. rewrite Nat.add_0_r in Hv.
  rewrite Hv, (IH (S i)); [reflexivity|].
  intros k w Hk. replace (S i + k) with (i + S k) by lia. apply Hfg, Hk.
Qed.

End Maps.

(** X13.  [mapGrid] composes: mapping with [f] and then with [g] makes the
    grid that one [mapGrid] with "[g] after [f]" makes, on any array of row
    arrays whatever its shape; mapping with the identity makes what
    [copy] makes; and on a 9×9 grid the new grid holds [f(cell, pos)] at
    each position. *)
Theorem mapGrid_composes (rows : list (list JsVal)) (f g : CBFn JsVal) :
  let grid := mkGridSvc (matrix rows) in
  (GridSvc.mapGrid grid f ≫= λ made, GridSvc.mapGrid made g)
  = GridSvc.mapGrid grid (λ v pos, g (f v pos) pos)
  ∧ GridSvc.mapGrid grid (λ v _, v) = GridSvc.copy grid
  ∧ (shape9 rows → ∀ pos, inside pos →
       (GridSvc.mapGrid grid f ≫= λ made, GridSvc.getCell made pos)
       = Ok (f (cell rows pos) pos)).
Proof.
  intros grid. subst grid. split; [|split].
  - rewrite !mapGrid_matrix, bind_Ok, mapGrid_matrix, mapped_mapped. reflexivity.
  - rewrite mapGrid_matrix, mapped_id, copy_matrix. reflexivity.
  - intros Hshape pos Hpos. rewrite mapGrid_matrix, bind_Ok.
    apply getCell_mapped; assumption.
Qed.

(** X14.  On a 9×9 grid [mapRow], [mapCol], [mapBox] and [mapFiltered]
    make a grid that holds [fn(cell, pos)] at the positions of the row, of
    the column, of the box, or where the filter holds, and the old cell
    at every other position. *)
Theorem scoped_maps_frame (rows : list (list JsVal)) (fn : CBFn JsVal) (filter : CBFn bool)
    (row col box : nat) (pos : Pos) :
  shape9 rows → inside pos →
  let grid := mkGridSvc (matrix rows) in
  let old := cell rows pos in
  (GridSvc.mapRow grid row fn ≫= λ made, GridSvc.getCell made pos)
  = Ok (if y pos =? row then fn old pos else old)
  ∧ (GridSvc.mapCol grid col fn ≫= λ made, GridSvc.getCell made pos)
    = Ok (if x pos =? col then fn old pos else old)
  ∧ (GridSvc.mapBox grid box fn ≫= λ made, GridSvc.getCell made pos)
    = Ok (if PosSvc.getBoxFromPos pos =? box then fn old pos else old)
  ∧ (GridSvc.mapFiltered grid filter fn ≫= λ made, GridSvc.getCell made pos)
    = Ok (if filter old pos then fn old pos else old).
Proof.
  intros Hshape Hpos grid old. subst grid old. split; [|split; [|split]].
  - unfold GridSvc.mapRow.
    rewrite (mapData_matrix rows _ (GridSvc.condMap (λ curr, y curr =? row) fn))
      by reflexivity.
    rewrite !bind_Ok. unfold GridSvc.new. rewrite bind_Ok.
    rewrite getCell_mapped by assumption. reflexivity.
  - unfold GridSvc.mapCol.
    rewrite (mapData_matrix rows _ (GridSvc.condMap (λ curr, x curr =? col) fn))
      by reflexivity.
    rewrite !bind_Ok. unfold GridSvc.new. rewrite bind_Ok.
    rewrite getCell_mapped by assumption. reflexivity.
  - unfold GridSvc.mapBox.
    rewrite (mapData_matrix rows _
               (GridSvc.condMap (λ curr, PosSvc.getBoxFromPos curr =? box) fn))
      by reflexivity.
    rewrite !bind_Ok. unfold GridSvc.new. rewrite bind_Ok.
    rewrite getCell_mapped by assumption. reflexivity.
  - unfold GridSvc.mapFiltered.
    rewrite (mapData_matrix rows _ (λ v p, if filter v p then fn v p else v))
      by reflexivity.
    rewrite !bind_Ok. unfold GridSvc.new. rewrite bind_Ok.
    rewrite getCell_mapped by assumption. reflexivity.
Qed.

Lemma scoped_maps_frame_witness :
  shape9 (digits sample) ∧ inside (mkPos 4 4)
  ∧ (GridSvc.mapBox sample_grid 4 (λ _ _, VNum 0) ≫= λ made, GridSvc.getCell made (mkPos 4 4))
    = Ok (VNum 0).
Proof.
  assert (Hshape : shape9 (digits sample)) by (split; [reflexivity|repeat constructor]).
  assert (Hpos : inside (mkPos 4 4)) by (split; simpl; lia).
  split; [exact Hshape|]. split; [exact Hpos|].
  exact (proj1 (proj2 (proj2
    (scoped_maps_frame (digits sample) (λ _ _, VNum 0) (λ _ _, true) 4 4 4 (mkPos 4 4)
       Hshape Hpos)))).
Defined.

(** X15.  On a 9×9 grid [mapRelated] makes a grid that holds the old
    cell at the position itself and at the positions unrelated to it, and
    [fn(cell, pos)] at the twenty other cells of the row, of the column
    and of the box of the position. *)
Theorem mapRelated_maps_the_others (rows : list (list JsVal)) (fn : CBFn JsVal)
    (cellPos : Pos) :
  shape9 rows → inside cellPos →
  let grid := mkGridSvc (matrix rows) in
  let others := row_others cellPos ++ col_others cellPos ++ box_others cellPos in
  ∃ made,
    GridSvc.mapRelated grid cellPos fn = Ok made
    ∧ GridSvc.getCell made cellPos = Ok (cell rows cellPos)
    ∧ (∀ pos, inside pos →
         GridSvc.getCell made pos
         = Ok (if bool_decide (pos ∈ others) then fn (cell rows pos) pos else cell rows pos))
    ∧ length (remove_dups others) = 20.
Proof.
  intros Hshape Hpos grid others. subst grid.
  set (cond := λ curr, negb (PosSvc.equalsPos cellPos curr) && PosSvc.areRelated cellPos curr).
  exists (mkGridSvc (matrix (mapped rows (GridSvc.condMap cond fn)))).
  split; [|split; [|split]].
  - unfold GridSvc.mapRelated.
    rewrite (mapData_matrix rows _ (GridSvc.condMap cond fn)) by reflexivity.
    reflexivity.
  - rewrite getCell_mapped by assumption. unfold GridSvc.condMap, cond.
    rewrite (proj2 (equalsPos_eq cellPos cellPos) eq_refl). reflexivity.
  - intros pos Hin. rewrite getCell_mapped by assumption. unfold GridSvc.condMap.
    assert (Hcond : cond pos = bool_decide (pos ∈ others)); [|rewrite Hcond; reflexivity].
    unfold cond. destruct (bool_decide (pos ∈ others)) eqn:Hothers.
    + apply bool_decide_eq_true in Hothers.
      destruct (others_inside cellPos pos Hpos Hothers) as [_ Hne].
      apply andb_true_iff. split.
      * apply negb_true_iff, not_true_iff_false. rewrite equalsPos_eq. congruence.
      * apply (areRelated_others cellPos pos Hpos Hin). right.
        unfold others in Hothers. rewrite !elem_of_app in Hothers. exact Hothers.
    + apply bool_decide_eq_false in Hothers. apply andb_false_iff.
      destruct (PosSvc.areRelated cellPos pos) eqn:Hrel; [left|right; reflexivity].
      apply (areRelated_others cellPos pos Hpos Hin) in Hrel as [->|Hrel].
      * apply negb_false_iff, equalsPos_eq. reflexivity.
      * exfalso. apply Hothers. unfold others. rewrite !elem_of_app. exact Hrel.
  - assert (Hall : forallb (λ cellPos,
        length (remove_dups (row_others cellPos ++ col_others cellPos ++ box_others cellPos))
        =? 20) (iterateMatrix 9) = true)
      by (vm_compute; reflexivity).
    pose proof (forall_inside _ Hall cellPos Hpos) as H. cbv beta in H.
    apply Nat.eqb_eq in H. exact H.
Qed.

Lemma mapRelated_maps_the_others_witness :
  shape9 (digits sample) ∧ inside (mkPos 0 0)
  ∧ ∃ made,
      GridSvc.mapRelated sample_grid (mkPos 0 0) (λ _ _, VNum 0) = Ok made
      ∧ GridSvc.getCell made (mkPos 0 0) = Ok (VNum 5).
Proof.
  assert (Hshape : shape9 (digits sample)) by (split; [reflexivity|repeat constructor]).
  assert (Hpos : inside (mkPos 0 0)) by (split; simpl; lia).
  split; [exact Hshape|]. split; [exact Hpos|].
  destruct (mapRelated_maps_the_others (digits sample) (λ _ _, VNum 0) (mkPos 0 0) Hshape Hpos)
    as (made & Hmade & Hself & _).
  exists made. split; [exact Hmade|exact Hself].
Defined.

(** X16.  [editCell] is [mapFiltered] with the filter that holds at the
    position: they return the same grid, or throw the same error, on any
    data whatever. *)
Theorem editCell_is_mapFiltered (this : GridSvc) (cellPos : Pos) (fn : CBFn JsVal) :
  GridSvc.editCell this cellPos fn
  = GridSvc.mapFiltered this (λ _ pos, PosSvc.equalsPos cellPos pos) fn.
Proof.
  unfold GridSvc.editCell, GridSvc.mapFiltered. f_equal.
  unfold GridSvc.mapData, array_map.
  destruct (data_ this) as [| |?|?|? ?|?|items|?] eqn:Hdata; try reflexivity.
  f_equal. apply map_from_ext. intros r row Hrow. cbn [Nat.add].
  destruct row as [| |?|?|? ?|?|cells|?]; try reflexivity.
  cbn [array_map]. f_equal. apply map_from_ext. intros c v Hv. cbn [Nat.add].
  destruct (PosSvc.equalsPos cellPos (mkPos r c)) eqn:Heq; [|reflexivity].
  apply equalsPos_eq in Heq as ->.
  unfold GridSvc.getCell. rewrite Hdata. cbn [y x read_index].
  rewrite Hrow. change (default VUndef (Some (VArr cells))) with (VArr cells).
  rewrite bind_Ok. cbn [read_index]. rewrite Hv. reflexivity.
Qed.

(** ** Construction from a callback *)

Section Create.

Lemma cell_createMatrix (mapFn : Pos → JsVal) (pos : Pos) :
  inside pos → cell (createMatrix 9 mapFn) pos = mapFn pos.
Proof.
  intros [Hy Hx]. unfold cell, createMatrix.
  rewrite (list_lookup_fmap _ (seq 0 9) (y pos)), lookup_seq_lt by exact Hy.
  cbn [fmap option_fmap option_map mbind option_bind].
  rewrite (list_lookup_fmap _ (seq 0 9) (x pos)), lookup_seq_lt by exact Hx.
  cbn [fmap option_fmap option_map default Nat.add]. destruct pos; reflexivity.
Qed.

Lemma mapped_createMatrix (mapFn : Pos → JsVal) (fn : CBFn JsVal) :
  mapped (createMatrix 9 mapFn) fn = createMatrix 9 (λ pos, fn (mapFn pos) pos).
Proof.
  unfold mapped, createMatrix. apply list_eq. intros r.
  rewrite list_lookup_imap, !(list_lookup_fmap _ (seq 0 9) r).
  destruct (seq 0 9 !! r) as [r'|] eqn:Hr; [|reflexivity].
  cbn [fmap option_fmap option_map].
  apply lookup_seq in Hr as [-> _]. reflexivity.
Qed.

End Create.

(** X17.  [GridSvc.create] makes a 9×9 grid that holds [mapFn(pos)] at
    each position; [everyGrid] holds of a predicate on it exactly when the
    predicate holds of [mapFn(pos)] at each of the 81 positions; and
    mapping the created grid is creating the grid of the mapped
    callback. *)
Theorem create_holds_mapFn (mapFn : Pos → JsVal) :
  ∃ grid,
    GridSvc.create mapFn = Ok grid
    ∧ (∀ pos, inside pos → GridSvc.getCell grid pos = Ok (mapFn pos))
    ∧ (∀ fn, GridSvc.everyGrid grid fn = Ok true
             ↔ ∀ pos, inside pos → fn (mapFn pos) pos = true)
    ∧ (∀ fn, GridSvc.mapGrid grid fn = GridSvc.create (λ pos, fn (mapFn pos) pos)).
Proof.
  exists (mkGridSvc (matrix (createMatrix 9 mapFn))).
  pose proof (shape9_createMatrix mapFn) as Hshape.
  split; [reflexivity|]. split; [|split].
  - intros pos Hpos. rewrite getCell_matrix.
    + rewrite cell_createMatrix by exact Hpos. reflexivity.
    + destruct Hshape as [-> _]. apply Hpos.
  - intros fn. rewrite (everyGrid_inside _ fn Hshape). split.
    + intros Hall pos Hpos. rewrite <- (cell_createMatrix mapFn pos Hpos). apply Hall, Hpos.
    + intros Hall pos Hpos. rewrite cell_createMatrix by exact Hpos. apply Hall, Hpos.
  - intros fn. rewrite mapGrid_matrix, mapped_createMatrix. reflexivity.
Qed.

(** ** Data that is not an array of arrays *)

Section NotMatrix.




End NotMatrix.


(** ** The generator's placements *)

Section Place.
Import SolutionService.

Implicit Types value : list (list Z).

(** No candidate is safe for a cell that holds a number. *)
Lemma place_filled value (pos : Pos) (numbers : list Z) (n : Z) :
  read value (y pos) (x pos) = Some n → n ≠ 0%Z → place pos numbers value = value.
Proof.
  intros Hn Hn0. induction numbers as [|num numbers IH]; [reflexivity|].
  unfold place. cbn [foldl]. fold (place pos numbers).
  assert (Hsafe : cellIsSafe value num pos = false).
  { unfold cellIsSafe. cbv zeta. rewrite Hn. cbn [is_num].
    destruct (Z.eqb_spec n 0); [contradiction|reflexivity]. }
  rewrite Hsafe. exact IH.
Qed.

End Place.

(** X19.  The generator's placement loop puts the first safe candidate of
    the list into an empty cell and leaves the later candidates out, for
    a cell that holds a number is safe for none; when no candidate is
    safe, or the cell already holds a number, the matrix stays as it
    is. *)
Theorem place_first_safe (value : list (list Z)) (pos : Pos) (numbers : list Z) :
  shape9 value → inside pos →
  SolutionService.place pos numbers value
  = match List.find (λ num, SolutionService.cellIsSafe value num pos) numbers with
    | Some num => SolutionService.write value (y pos) (x pos) num
    | None => value
    end
  ∧ (∀ n, SolutionService.read value (y pos) (x pos) = Some n → n ≠ 0%Z →
       SolutionService.place pos numbers value = value).
Proof.
  intros Hshape Hpos. split; [|intros n Hn Hn0; apply (place_filled value pos numbers n Hn Hn0)].
  induction numbers as [|num numbers IH]; [reflexivity|].
  unfold SolutionService.place. cbn [foldl List.find].
  fold (SolutionService.place pos numbers).
  destruct (SolutionService.cellIsSafe value num pos) eqn:Hsafe; [|exact IH].
  destruct (cellIsSafe_true value num pos Hpos Hsafe) as [Hzero Hfree].
  apply (place_filled _ pos numbers num).
  - apply read_write_eq; [exact Hshape|apply Hpos..].
  - intros ->. apply (Hfree pos Hpos (areRelated_refl pos)). exact Hzero.
Qed.

Lemma place_first_safe_witness :
  shape9 (createMatrix 9 (λ _, 0%Z)) ∧ inside (mkPos 0 0)
  ∧ SolutionService.place (mkPos 0 0) [0; 7; 3]%Z (createMatrix 9 (λ _, 0%Z))
    = SolutionService.write (createMatrix 9 (λ _, 0%Z)) 0 0 7%Z.
Proof.
  assert (Hshape : shape9 (createMatrix 9 (λ _, 0%Z))) by apply shape9_createMatrix.
  assert (Hpos : inside (mkPos 0 0)) by (split; simpl; lia).
  split; [exact Hshape|]. split; [exact Hpos|].
  exact (proj1 (place_first_safe (createMatrix 9 (λ _, 0%Z)) (mkPos 0 0) [0; 7; 3]%Z
                  Hshape Hpos)).
Defined.

(** ** The copy over the store *)

(** X20.  The arrays that [copy] (and the [data] accessor it is built on)
    hands out are new ones: the copy reads as the receiver does, and a
    later [#mutateCell] on either of the two grids leaves the rows of the
    other as they were. *)
Theorem copy_is_independent (st : Store) (data : nat) (rows : list (list JsVal))
    (pos : Pos) (newCell : JsVal) :
  StoreGrid.rows_of st data = Some rows →
  let '(st2, made) := StoreGrid.copy st data in
  made ≠ data
  ∧ StoreGrid.rows_of st2 made = Some rows
  ∧ StoreGrid.rows_of st2 data = Some rows
  ∧ StoreGrid.rows_of (StoreGrid.mutateCell st2 made pos newCell) data = Some rows
  ∧ StoreGrid.rows_of (StoreGrid.mutateCell st2 data pos newCell) made = Some rows.
Proof.
  intros Hrows. unfold StoreGrid.copy.
  assert (Hfn : ∀ st1, grows st st1 →
            ∀ (v : JsVal) (p : Pos), (λ (_ : Store) (cell : JsVal) (_ : Pos), cell) st1 v p
                                   = (λ (w : JsVal) (_ : Pos), w) v p) by reflexivity.
  pose proof (mapData_spec st data rows _ _ Hrows Hfn) as Hspec.
  pose proof (mapData_fresh st data rows _ _ pos newCell Hrows Hfn) as Hfresh.
  pose proof Hrows as Hrefs. unfold StoreGrid.rows_of in Hrefs.
  unfold StoreGrid.mapData in *.
  destruct (row_lists st !! data) as [refs|] eqn:Hdata; [|discriminate].
  cbn in Hrefs. change (default [] (Some refs)) with refs in *.
  pose proof (map_rows_spec (λ _ cell _, cell) (λ w _, w) refs 0 st rows Hfn Hrefs) as Hrun.
  destruct (StoreGrid.map_rows (λ _ cell _, cell) 0 st refs) as [st1 mades].
  destruct Hrun as ([Hl Hmore] & _ & Hnew). destruct Hspec as [Hmade Hkept].
  rewrite mapped_id in Hmade. rewrite Hl in Hmade, Hkept, Hfresh |- *.
  split; [|split; [exact Hmade|split; [exact Hkept|split; [exact Hfresh|]]]].
  - apply lookup_lt_Some in Hdata. lia.
  - unfold StoreGrid.mutateCell. cbn [row_lists row_arrays].
    rewrite (lookup_app_l_Some _ _ _ refs) by exact Hdata.
    cbn [mbind option_bind].
    destruct (refs !! y pos) as [ref|] eqn:Href; [|exact Hmade].
    unfold StoreGrid.rows_of in Hmade |- *. cbn [row_lists row_arrays] in Hmade |- *.
    rewrite lookup_app_r, Nat.sub_diag in Hmade |- * by lia.
    cbn [lookup list_lookup mbind option_bind] in Hmade |- *.
    rewrite <- Hmade. apply Forall_mapM_ext.
    apply mapM_Some in Hrefs.
    destruct (Forall2_lookup_l _ _ _ _ _ Hrefs Href) as (row & _ & Hrow).
    apply lookup_lt_Some in Hrow.
    eapply Forall_impl; [exact Hnew|]. intros made Hge. cbv beta in Hge.
    apply list_lookup_alter_ne. lia.
Qed.

Lemma copy_is_independent_witness :
  StoreGrid.rows_of sample_store 0 = Some (digits sample)
  ∧ let '(st2, made) := StoreGrid.copy sample_store 0 in
    made ≠ 0
    ∧ StoreGrid.rows_of st2 made = Some (digits sample)
    ∧ StoreGrid.rows_of st2 0 = Some (digits sample)
    ∧ StoreGrid.rows_of (StoreGrid.mutateCell st2 made (mkPos 4 4) (VNum 0)) 0
      = Some (digits sample)
    ∧ StoreGrid.rows_of (StoreGrid.mutateCell st2 0 (mkPos 4 4) (VNum 0)) made
      = Some (digits sample).
Proof.
  assert (Hrows : StoreGrid.rows_of sample_store 0 = Some (digits sample)) by reflexivity.
  split; [exact Hrows|].
  exact (copy_is_independent sample_store 0 (digits sample) (mkPos 4 4) (VNum 0) Hrows).
Defined.

(** * The timer service *)

Section TimerNumbers.

Lemma num_rem_whole (n d : Z) :
  d ≠ 0%Z → num_rem (Finite n 0) (Finite d 0) = Finite (Z.rem n d) 0.
Proof.
  intros Hd. unfold num_rem. destruct (Z.eqb_spec d 0); [contradiction|].
  cbn. rewrite !Z.mul_1_r. reflexivity.
Qed.

Lemma num_floor_div_whole (n d : Z) :
  d ≠ 0%Z → num_floor_div (Finite n 0) (Finite d 0) = Finite (n / d) 0.
Proof.
  intros Hd. unfold num_floor_div. destruct (Z.eqb_spec d 0); [contradiction|].
  cbn. rewrite !Z.mul_1_r. reflexivity.
Qed.

Lemma num_lt_whole (m n : Z) : num_lt (Finite m 0) (Finite n 0) = (m <? n)%Z.
Proof. cbn. rewrite !Z.mul_1_r. reflexivity. Qed.

Lemma num_add_whole (m n : Z) : num_add (Finite m 0) (Finite n 0) = Finite (m + n) 0.
Proof. cbn. rewrite !Z.mul_1_r. reflexivity. Qed.

Lemma num_mul_whole (m n : Z) : num_mul (Finite m 0) (Finite n 0) = Finite (m * n) 0.
Proof. reflexivity. Qed.

Lemma parseUnit_whole (unit : Z) : TimerService.parseUnit (Finite unit 0) 2 = pad2 unit.
Proof.
  unfold TimerService.parseUnit, pad2. rewrite num_lt_whole.
  change (10 * (Z.of_nat 2 - 1))%Z with 10%Z.
  destruct (unit <? 10)%Z; reflexivity.
Qed.

(** The text of a whole number of seconds, whatever its sign. *)
Lemma parseString_whole (n : Z) :
  TimerService.parseString (Finite n 0)
  = pad2 (n / 3600) +:+ ":" +:+ pad2 (Z.rem n 3600 / 60) +:+ ":" +:+ pad2 (Z.rem n 60).
Proof.
  unfold TimerService.parseString.
  rewrite !num_rem_whole, !num_floor_div_whole, !parseUnit_whole by discriminate.
  reflexivity.
Qed.

End TimerNumbers.

Section TimerTexts.

(** A digit is one of the ten characters. *)
Lemma is_digit_cases (c : ascii) :
  JSON.is_digit c = true →
  c ∈ ["0"; "1"; "2"; "3"; "4"; "5"; "6"; "7"; "8"; "9"]%char.
Proof.
  destruct c as [[] [] [] [] [] [] [] []]; intros H; try discriminate H;
    repeat (first [apply list_elem_of_here | apply list_elem_of_further]).
Qed.

Lemma is_plain_cases (c : ascii) :
  is_plain c = true →
  c ∈ ["0"; "1"; "2"; "3"; "4"; "5"; "6"; "7"; "8"; "9"; "-"]%char.
Proof.
  destruct c as [[] [] [] [] [] [] [] []]; intros H; try discriminate H;
    repeat (first [apply list_elem_of_here | apply list_elem_of_further]).
Qed.

Lemma is_plain_not_space (c : ascii) : is_plain c = true → is_space c = false.
Proof.
  intros H%is_plain_cases. repeat (apply elem_of_cons in H as [->|H]; [reflexivity|]).
  by apply elem_of_nil in H.
Qed.

Lemma is_plain_not_colon (c : ascii) : is_plain c = true → Ascii.eqb c ":" = false.
Proof.
  intros H%is_plain_cases. repeat (apply elem_of_cons in H as [->|H]; [reflexivity|]).
  by apply elem_of_nil in H.
Qed.

Lemma is_digit_plain (c : ascii) : JSON.is_digit c = true → is_plain c = true.
Proof. intros H. unfold is_plain. rewrite H. reflexivity. Qed.

Lemma string_forall_app (p : ascii → bool) (s t : string) :
  string_forall p (s +:+ t) = string_forall p s && string_forall p t.
Proof.
  induction s as [|c s IH]; [reflexivity|].
  change (String c s +:+ t) with (String c (s +:+ t)). cbn [string_forall].
  rewrite IH, andb_assoc. reflexivity.
Qed.

Lemma string_forall_impl (p q : ascii → bool) (s : string) :
  (∀ c, p c = true → q c = true) → string_forall p s = true → string_forall q s = true.
Proof.
  intros Hpq. induction s as [|c s IH]; [reflexivity|]. cbn [string_forall].
  rewrite !andb_true_iff. intros [Hc Hs]. split; [apply Hpq, Hc|apply IH, Hs].
Qed.

(** Trimming leaves a text of plain characters as it is. *)
Lemma trim_plain (s : string) :
  string_forall is_plain s = true → trim_end (trim_start s) = s.
Proof.
  intros Hs.
  assert (Hstart : trim_start s = s).
  { destruct s as [|c s]; [reflexivity|]. cbn [string_forall] in Hs.
    apply andb_true_iff in Hs as [Hc _]. cbn [trim_start].
    rewrite (is_plain_not_space c Hc). reflexivity. }
  rewrite Hstart. induction s as [|c s IH]; [reflexivity|].
  cbn [string_forall] in Hs. apply andb_true_iff in Hs as [Hc Hs].
  cbn [trim_end]. rewrite IH.
  - destruct s; [|reflexivity]. rewrite (is_plain_not_space c Hc). reflexivity.
  - exact Hs.
  - destruct s as [|d s]; [reflexivity|]. cbn [string_forall] in Hs.
    apply andb_true_iff in Hs as [Hd _]. cbn [trim_start].
    rewrite (is_plain_not_space d Hd). reflexivity.
Qed.

(** [split] on a text without the separator, and on two texts with the
    separator between them. *)
Lemma split_plain (s : string) :
  string_forall is_plain s = true → split ":" s = [s].
Proof.
  induction s as [|c s IH]; [reflexivity|]. cbn [string_forall split].
  intros [Hc Hs]%andb_true_iff. rewrite (is_plain_not_colon c Hc), (IH Hs). reflexivity.
Qed.

Lemma split_app (s t : string) :
  split ":" (s +:+ ":" +:+ t) = split ":" s ++ split ":" t.
Proof.
  induction s as [|c s IH]; [reflexivity|].
  change (String c s +:+ ":" +:+ t) with (String c (s +:+ ":" +:+ t)).
  cbn [split]. rewrite IH. clear IH.
  destruct (Ascii.eqb c ":"); [reflexivity|].
  destruct (split ":" s) as [|first rest] eqn:Hsplit; [|reflexivity].
  destruct s as [|d s]; [discriminate|]. cbn [split] in Hsplit.
  destruct (Ascii.eqb d ":"); [discriminate|]. destruct (split ":" s); discriminate.
Qed.

End TimerTexts.

Section TimerDigits.

Lemma length_app_string (s t : string) :
  String.length (s +:+ t) = String.length s + String.length t.
Proof.
  induction s as [|c s IH]; [reflexivity|].
  change (String c s +:+ t) with (String c (s +:+ t)). cbn [String.length]. rewrite IH.
  reflexivity.
Qed.

Lemma pretty_N_char_digit (d : N) :
  (d < 10)%N →
  JSON.is_digit (pretty_N_char d) = true
  ∧ Z.of_nat (Ascii.nat_of_ascii (pretty_N_char d) - 48) = Z.of_N d.
Proof.
  intros Hd.
  assert (d = 0 ∨ d = 1 ∨ d = 2 ∨ d = 3 ∨ d = 4 ∨ d = 5 ∨ d = 6 ∨ d = 7 ∨ d = 8 ∨ d = 9)%N
    as Hcases by lia.
  repeat (destruct Hcases as [->|Hcases]; [split; reflexivity|]).
  subst d. split; reflexivity.
Qed.

(** The digits that [pretty] puts in front of a text for a number, and
    what the digit lexer makes of them. *)
Lemma pretty_N_go_digits (x : N) :
  ∃ pre,
    (∀ s, pretty_N_go x s = pre +:+ s)
    ∧ string_forall JSON.is_digit pre = true
    ∧ ((0 < x)%N → pre ≠ "")
    ∧ (∀ acc cnt s,
         JSON.lex_digits acc cnt (pre +:+ s)
         = JSON.lex_digits (acc * 10 ^ Z.of_nat (String.length pre) + Z.of_N x)%Z
             (cnt + String.length pre) s).
Proof.
  induction (N.lt_wf_0 x) as [x _ IH].
  destruct (N.eq_dec x 0%N) as [->|Hx].
  - exists "". split; [intros s; apply pretty_N_go_0|]. split; [reflexivity|].
    split; [lia|]. intros acc cnt s. cbn [String.length].
    change ("" +:+ s) with s. f_equal; [|lia]. cbn. lia.
  - assert (Hpos : (0 < x)%N) by lia.
    destruct (IH (x `div` 10)%N) as (pre & Hpre & Hdigits & _ & Hlex).
    { apply N.div_lt; lia. }
    destruct (pretty_N_char_digit (x `mod` 10)%N) as [Hd Hval].
    { apply N.mod_lt. discriminate. }
    exists (pre +:+ String (pretty_N_char (x `mod` 10)) "").
    split; [|split; [|split]].
    + intros s. rewrite pretty_N_go_step, Hpre, append_assoc by exact Hpos. reflexivity.
    + rewrite string_forall_app, Hdigits. cbn [string_forall]. rewrite Hd. reflexivity.
    + intros _ Hempty. apply (f_equal String.length) in Hempty.
      rewrite length_app_string in Hempty. cbn in Hempty. lia.
    + intros acc cnt s. rewrite append_assoc.
      change (String (pretty_N_char (x `mod` 10)) "" +:+ s)
        with (String (pretty_N_char (x `mod` 10)) s).
      rewrite Hlex. cbn [JSON.lex_digits]. rewrite Hd, Hval.
      rewrite length_app_string. cbn [String.length].
      f_equal; [|lia].
      replace (Z.of_nat (String.length pre + 1)) with (Z.of_nat (String.length pre) + 1)%Z
        by lia.
      rewrite Z.pow_add_r, Z.pow_1_r by lia.
      rewrite N2Z.inj_div, N2Z.inj_mod.
      pose proof (Z.div_mod (Z.of_N x) 10 ltac:(lia)) as Hdm. lia.
Qed.

(** The decimal writing of a whole number that is not negative: digits, at
    least one, that the digit lexer reads back. *)
Lemma pretty_whole (u : Z) :
  (0 ≤ u)%Z →
  string_forall JSON.is_digit (pretty u) = true
  ∧ pretty u ≠ ""
  ∧ ∀ acc cnt,
      JSON.lex_digits acc cnt (pretty u)
      = ((acc * 10 ^ Z.of_nat (String.length (pretty u)) + u)%Z,
         cnt + String.length (pretty u), "").
Proof.
  intros Hu. destruct u as [|p|p]; [| |lia].
  - split; [reflexivity|]. split; [discriminate|]. intros acc cnt.
    change (pretty 0%Z) with "0". cbn [JSON.lex_digits String.length].
    change (JSON.is_digit "0") with true. cbv iota.
    change (Ascii.nat_of_ascii "0" - 48) with 0.
    replace (10 * acc + Z.of_nat 0)%Z with (acc * 10 ^ Z.of_nat 1 + 0)%Z by (cbn; lia).
    replace (cnt + 1) with (S cnt) by lia. reflexivity.
  - change (pretty (Z.pos p)) with (pretty_N_go (N.pos p) "").
    destruct (pretty_N_go_digits (N.pos p)) as (pre & Hpre & Hdigits & Hne & Hlex).
    rewrite Hpre, append_empty_r. split; [exact Hdigits|]. split; [apply Hne; lia|].
    intros acc cnt. rewrite <- (append_empty_r pre) at 1. rewrite Hlex. reflexivity.
Qed.

End TimerDigits.

Section TimerNumber.

(** A text of digits is no hexadecimal, octal or binary literal. *)
Lemma radix_literal_digits (s : string) :
  string_forall JSON.is_digit s = true → radix_literal s = None.
Proof.
  destruct s as [|c [|p [|q body]]].
  - reflexivity.
  - cbn [string_forall]. rewrite andb_true_r. intros Hc%is_digit_cases.
    repeat (apply elem_of_cons in Hc as [->|Hc]; [reflexivity|]). by apply elem_of_nil in Hc.
  - cbn [string_forall]. rewrite andb_true_r.
    intros [Hc%is_digit_cases _]%andb_true_iff.
    repeat (apply elem_of_cons in Hc as [->|Hc]; [reflexivity|]). by apply elem_of_nil in Hc.
  - cbn [string_forall].
    intros [Hc%is_digit_cases [Hp%is_digit_cases _]%andb_true_iff]%andb_true_iff.
    repeat (apply elem_of_cons in Hc as [->|Hc];
            [try reflexivity;
             repeat (apply elem_of_cons in Hp as [->|Hp]; [reflexivity|]);
             by apply elem_of_nil in Hp|]).
    by apply elem_of_nil in Hc.
Qed.

(** [Number] reads a text of digits as the whole number they write. *)
Lemma Number_digits (s : string) (v : Z) :
  string_forall JSON.is_digit s = true → s ≠ "" →
  JSON.lex_digits 0 0 s = (v, String.length s, "") →
  Number s = Finite v 0.
Proof.
  intros Hdigits Hne Hlex. unfold Number.
  rewrite trim_plain by (eapply string_forall_impl; [apply is_digit_plain|exact Hdigits]).
  rewrite (radix_literal_digits s Hdigits).
  destruct s as [|c rest]; [congruence|].
  assert (Hc : c ∈ ["0"; "1"; "2"; "3"; "4"; "5"; "6"; "7"; "8"; "9"]%char).
  { cbn [string_forall] in Hdigits. apply andb_true_iff in Hdigits as [Hc _].
    apply is_digit_cases, Hc. }
  assert (Hdec : decimal_literal (String c rest) = Finite v 0).
  { unfold decimal_literal. rewrite Hlex. cbn. rewrite Z.mul_1_r. reflexivity. }
  repeat (apply elem_of_cons in Hc as [->|Hc]; [cbn; rewrite Hdec; reflexivity|]).
  by apply elem_of_nil in Hc.
Qed.

(** [Number] reads back a field of the timer's text that was written for a
    whole number that is not negative. *)
Lemma Number_pad2 (u : Z) : (0 ≤ u)%Z → Number (pad2 u) = Finite u 0.
Proof.
  intros Hu. destruct (pretty_whole u Hu) as (Hdigits & Hne & Hlex).
  unfold pad2. destruct (u <? 10)%Z.
  - apply Number_digits.
    + change ("0" +:+ pretty u) with (String "0" (pretty u)). cbn [string_forall].
      rewrite Hdigits. reflexivity.
    + discriminate.
    + change ("0" +:+ pretty u) with (String "0" (pretty u)).
      cbn [JSON.lex_digits String.length]. change (JSON.is_digit "0") with true.
      cbv iota. rewrite Hlex.
      change (Z.of_nat (Ascii.nat_of_ascii "0" - 48)) with 0%Z.
      replace ((10 * 0 + 0) * 10 ^ Z.of_nat (String.length (pretty u)) + u)%Z with u by lia.
      reflexivity.
  - apply Number_digits; [exact Hdigits|exact Hne|].
    rewrite Hlex.
    replace (0 * 10 ^ Z.of_nat (String.length (pretty u)) + u)%Z with u by lia.
    reflexivity.
Qed.

(** A field written for a negative whole number is no number. *)
Lemma Number_pad2_negative (u : Z) : (u < 0)%Z → Number (pad2 u) = NaN.
Proof.
  intros Hu. destruct u as [|p|p]; [lia|lia|].
  unfold pad2. change (Z.neg p <? 10)%Z with true. cbv iota.
  change (pretty (Z.neg p)) with ("-" +:+ pretty (Z.pos p)).
  destruct (pretty_whole (Z.pos p) ltac:(lia)) as (Hdigits & Hne & _).
  change ("0" +:+ "-" +:+ pretty (Z.pos p)) with (String "0" (String "-" (pretty (Z.pos p)))).
  unfold Number. rewrite trim_plain.
  - destruct (pretty (Z.pos p)) as [|d ds]; [congruence|]. reflexivity.
  - cbn [string_forall]. change (is_plain "0") with true. change (is_plain "-") with true.
    cbn [andb]. eapply string_forall_impl; [apply is_digit_plain|exact Hdigits].
Qed.

(** The fields of a whole number hold plain characters. *)
Lemma pad2_plain (u : Z) : string_forall is_plain (pad2 u) = true.
Proof.
  assert (Hpretty : string_forall is_plain (pretty u) = true).
  { destruct u as [|p|p].
    - reflexivity.
    - eapply string_forall_impl; [apply is_digit_plain|].
      apply (pretty_whole (Z.pos p)). lia.
    - change (pretty (Z.neg p)) with (String "-" (pretty (Z.pos p))).
      cbn [string_forall]. change (is_plain "-") with true. cbn [andb].
      eapply string_forall_impl; [apply is_digit_plain|].
      apply (pretty_whole (Z.pos p)). lia. }
  unfold pad2. destruct (u <? 10)%Z; [|exact Hpretty].
  change ("0" +:+ pretty u) with (String "0" (pretty u)). cbn [string_forall].
  rewrite Hpretty. reflexivity.
Qed.

(** The three fields of the text of a whole number of seconds. *)
Lemma split_parseString (n : Z) :
  split ":" (TimerService.parseString (Finite n 0))
  = [pad2 (n / 3600); pad2 (Z.rem n 3600 / 60); pad2 (Z.rem n 60)].
Proof.
  rewrite parseString_whole, !split_app, !split_plain by apply pad2_plain. reflexivity.
Qed.

End TimerNumber.

(** X21.  The text of a timer that holds a whole number of seconds, not
    negative and among the safe integers (below 2^53, where the arithmetic
    of doubles is exact): hours, minutes and seconds with a colon between
    them, the minutes and the seconds below sixty, each field the decimal
    writing of its number behind a zero when the number is below ten;
    eight characters up to a hundred hours. *)
Theorem timer_toString_format (n : Z) :
  (0 ≤ n < 2 ^ 53)%Z →
  ∃ h m s : Z,
    n = (h * 3600 + m * 60 + s)%Z
    ∧ (0 ≤ h)%Z ∧ (0 ≤ m < 60)%Z ∧ (0 ≤ s < 60)%Z
    ∧ TimerService.toString (TimerService.new (Finite n 0))
      = pad2 h +:+ ":" +:+ pad2 m +:+ ":" +:+ pad2 s
    ∧ ((n < 360000)%Z →
       String.length (TimerService.toString (TimerService.new (Finite n 0))) = 8).
Proof.
  intros [Hn _]. exists (n / 3600)%Z, (Z.rem n 3600 / 60)%Z, (Z.rem n 60).
  rewrite !Z.rem_mod_nonneg by lia.
  pose proof (Z.div_mod n 3600 ltac:(lia)) as Hh.
  pose proof (Z.mod_pos_bound n 3600 ltac:(lia)) as Hr.
  pose proof (Z.div_mod (n mod 3600) 60 ltac:(lia)) as Hm.
  pose proof (Z.mod_pos_bound (n mod 3600) 60 ltac:(lia)) as Hs.
  assert (Hsec : (n mod 60 = (n mod 3600) mod 60)%Z).
  { rewrite Hh at 1. replace (3600 * (n / 3600) + n mod 3600)%Z
      with (n mod 3600 + (60 * (n / 3600)) * 60)%Z by lia.
    apply Z.mod_add. lia. }
  assert (Hmin : (0 ≤ n mod 3600 / 60 < 60)%Z).
  { split; [apply Z.div_pos; lia|]. apply Z.div_lt_upper_bound; lia. }
  assert (Hhour : (0 ≤ n / 3600)%Z) by (apply Z.div_pos; lia).
  split; [lia|]. split; [exact Hhour|]. split; [exact Hmin|]. split; [lia|].
  assert (Htext : TimerService.toString (TimerService.new (Finite n 0))
                  = pad2 (n / 3600) +:+ ":" +:+ pad2 (n mod 3600 / 60) +:+ ":"
                    +:+ pad2 (n mod 60)).
  { unfold TimerService.toString, TimerService.new. cbn [timer_data].
    rewrite parseString_whole, !Z.rem_mod_nonneg by lia. reflexivity. }
  split; [exact Htext|]. intros Hlt. rewrite Htext.
  assert (Hlen : ∀ u, (0 ≤ u < 100)%Z → String.length (pad2 u) = 2).
  { intros u Hu.
    assert (Hall : forallb (λ k, String.length (pad2 (Z.of_nat k)) =? 2) (seq 0 100) = true)
      by (vm_compute; reflexivity).
    rewrite forallb_forall in Hall. specialize (Hall (Z.to_nat u)).
    rewrite in_seq, Z2Nat.id, Nat.eqb_eq in Hall by lia. apply Hall. lia. }
  rewrite !length_app_string, !Hlen; [reflexivity|lia..|].
  split; [exact Hhour|]. apply Z.div_lt_upper_bound; lia.
Qed.

Lemma timer_toString_format_witness :
  (0 ≤ 3725 < 2 ^ 53)%Z
  ∧ ∃ h m s : Z,
      3725%Z = (h * 3600 + m * 60 + s)%Z
      ∧ (0 ≤ h)%Z ∧ (0 ≤ m < 60)%Z ∧ (0 ≤ s < 60)%Z
      ∧ TimerService.toString (TimerService.new (Finite 3725 0))
        = pad2 h +:+ ":" +:+ pad2 m +:+ ":" +:+ pad2 s
      ∧ ((3725 < 360000)%Z →
         String.length (TimerService.toString (TimerService.new (Finite 3725 0))) = 8).
Proof.
  assert (Hn : (0 ≤ 3725 < 2 ^ 53)%Z) by (split; [lia|reflexivity]).
  split; [exact Hn|]. exact (timer_toString_format 3725 Hn).
Defined.

(** X22.  Among the safe integers, [fromString] reads back what
    [toString] writes for a whole number of seconds that is not negative;
    for a negative one, which [dec] reaches below zero, the hours are
    written with a zero in front of the minus sign and [fromString] throws
    the error [invalid hours]. *)
Theorem timer_round_trip (n : Z) :
  ((0 ≤ n < 2 ^ 53)%Z →
   TimerService.fromString (TimerService.toString (TimerService.new (Finite n 0)))
   = Returns (TimerService.new (Finite n 0)))
  ∧ ((- 2 ^ 53 < n < 0)%Z →
     TimerService.fromString (TimerService.toString (TimerService.new (Finite n 0)))
     = ThrowsError "invalid hours").
Proof.
  unfold TimerService.toString, TimerService.new. cbn [timer_data]. split.
  - intros [Hn _]. unfold TimerService.fromString. rewrite split_parseString.
    rewrite !Z.rem_mod_nonneg by lia.
    pose proof (Z.div_mod n 3600 ltac:(lia)) as Hh.
    pose proof (Z.mod_pos_bound n 3600 ltac:(lia)) as Hr.
    pose proof (Z.div_mod (n mod 3600) 60 ltac:(lia)) as Hm.
    assert (Hsec : (n mod 60 = (n mod 3600) mod 60)%Z).
    { rewrite Hh at 1. replace (3600 * (n / 3600) + n mod 3600)%Z
        with (n mod 3600 + (60 * (n / 3600)) * 60)%Z by lia.
      apply Z.mod_add. lia. }
    cbn [fmap list_fmap lookup list_lookup].
    rewrite !Number_pad2
      by (try apply Z.div_pos; try apply Z.mod_pos_bound; lia).
    cbv beta iota delta [TimerService.isNaN TimerService.to_number default from_option id].
    rewrite !num_mul_whole, !num_add_whole. unfold TimerService.new. do 3 f_equal. lia.
  - intros [_ Hn]. unfold TimerService.fromString. rewrite split_parseString.
    cbn [fmap list_fmap lookup list_lookup].
    rewrite (Number_pad2_negative (n / 3600)); [reflexivity|].
    apply Z.div_lt_upper_bound; lia.
Qed.

(** X23.  [fromString] reads the first three fields of the text and no
    more.  From a text with fewer than three it never returns a time: it
    throws, or returns a timer whose data is [NaN], written
    [NaN:NaN:NaN]; what follows a third colon is ignored. *)
Theorem timer_fromString_fields (text : string) :
  (length (split ":" text) < 3 →
   ∀ timer, TimerService.fromString text = Returns timer →
     TimerService.data timer = NaN ∧ TimerService.toString timer = "NaN:NaN:NaN")
  ∧ (3 ≤ length (split ":" text) →
     ∀ more, TimerService.fromString (text +:+ ":" +:+ more) = TimerService.fromString text)
  ∧ TimerService.fromString "90" = Returns (TimerService.new NaN).
Proof.
  split; [|split; [|reflexivity]].
  - intros Hlen timer. unfold TimerService.fromString.
    assert (Hnone : (Number <$> split ":" text) !! 2 = None).
    { apply lookup_ge_None. rewrite length_fmap. lia. }
    rewrite Hnone.
    destruct (TimerService.isNaN ((Number <$> split ":" text) !! 0)); [discriminate|].
    destruct (TimerService.isNaN ((Number <$> split ":" text) !! 1)); [discriminate|].
    cbv beta iota delta [TimerService.isNaN TimerService.to_number default from_option id].
    intros [= <-].
    assert (Hnan : ∀ a, num_add a NaN = NaN) by (intros []; reflexivity).
    unfold TimerService.data, TimerService.toString, TimerService.new. cbn [timer_data].
    rewrite Hnan. split; reflexivity.
  - intros Hlen more. unfold TimerService.fromString.
    rewrite split_app, fmap_app.
    rewrite !lookup_app_l by (rewrite length_fmap; lia). reflexivity.
Qed.

(** Counting on a timer: on a whole number of seconds [inc] and
    [dec] undo each other; a timer whose data is [NaN] (what [fromString]
    makes of a text with too few fields) stays so under [inc] and [dec],
    and only [reset] brings it back, to the text [00:00:00]; one [dec]
    after a [reset] gives a text that [fromString] rejects. *)
Lemma timer_counting (n : Z) :
  let timer := TimerService.new (Finite n 0) in
  TimerService.dec (TimerService.inc timer) = timer
  ∧ TimerService.inc (TimerService.dec timer) = timer
  ∧ TimerService.inc (TimerService.new NaN) = TimerService.new NaN
  ∧ TimerService.dec (TimerService.new NaN) = TimerService.new NaN
  ∧ (∀ any, TimerService.toString (TimerService.reset any) = "00:00:00")
  ∧ (∀ any, TimerService.fromString
              (TimerService.toString (TimerService.dec (TimerService.reset any)))
            = ThrowsError "invalid hours").
Proof.
  intros timer. subst timer. unfold TimerService.dec, TimerService.inc, TimerService.new.
  cbn [timer_data]. rewrite !num_add_whole.
  split; [do 2 f_equal; lia|]. split; [do 2 f_equal; lia|].
  split; [reflexivity|]. split; [reflexivity|]. split; intros any; reflexivity.
Qed.

(** * Further properties of the grid service: grouping, and reading outside the grid *)

Section Group.

Variable fn : CBFn (list (string * JsVal)).
Variable rows : list (list JsVal).
Variable keys : list string.

Hypothesis enough_rows : 9 ≤ length rows.
Hypothesis same_keys : ∀ pos, inside pos → fst <$> fn (cell rows pos) pos = keys.
Hypothesis own_keys : ∀ key, key ∈ keys → key ∉ GridSvc.inherited_keys.
Hypothesis distinct_keys : NoDup keys.

(** The inner loop at one position adds the position's cell to the rows
    under each key of the record, making the rows when the key is new. *)
Lemma group_keys_spec (pos : Pos) (record : list (string * JsVal)) (todo : list string) :
  NoDup todo → (∀ key, key ∈ todo → key ∉ GridSvc.inherited_keys) →
  ∀ newGrid, ∃ made,
    GridSvc.group_keys pos record todo newGrid = Ok made
    ∧ ∀ key, made !! key
             = if bool_decide (key ∈ todo)
               then Some (GridSvc.mutate_rows (default GridSvc.blank_rows (newGrid !! key)) pos
                            (get_field key record))
               else newGrid !! key.
Proof.
  intros Hdup Hown. induction todo as [|key todo IH]; intros newGrid.
  - exists newGrid. split; [reflexivity|]. intros key. reflexivity.
  - apply NoDup_cons in Hdup as [Hfresh Hdup].
    assert (Hstep : GridSvc.group_keys pos record (key :: todo) newGrid
                    = GridSvc.group_keys pos record todo
                        (<[key := GridSvc.mutate_rows
                                    (default GridSvc.blank_rows (newGrid !! key)) pos
                                    (get_field key record)]> newGrid)).
    { cbn [GridSvc.group_keys]. destruct (newGrid !! key) as [old|]; [reflexivity|].
      rewrite bool_decide_eq_false_2; [reflexivity|].
      apply Hown, list_elem_of_here. }
    rewrite Hstep.
    destruct (IH Hdup (λ k Hk, Hown k (list_elem_of_further _ _ _ Hk))
                (<[key := GridSvc.mutate_rows (default GridSvc.blank_rows (newGrid !! key)) pos
                            (get_field key record)]> newGrid)) as (made & Hmade & Hlookup).
    exists made. split; [exact Hmade|]. intros k. rewrite Hlookup.
    destruct (decide (k = key)) as [->|Hne].
    + rewrite (bool_decide_eq_false_2 _ Hfresh), lookup_insert_eq.
      rewrite bool_decide_eq_true_2 by apply list_elem_of_here. reflexivity.
    + rewrite lookup_insert_ne by congruence.
      destruct (bool_decide (k ∈ todo)) eqn:Hin.
      * apply bool_decide_eq_true in Hin.
        rewrite bool_decide_eq_true_2 by apply list_elem_of_further, Hin. reflexivity.
      * apply bool_decide_eq_false in Hin.
        rewrite bool_decide_eq_false_2; [reflexivity|].
        intros [?|?]%elem_of_cons; [congruence|contradiction].
Qed.

(** The outer loop adds the cells of the positions it visits, in order. *)
Lemma group_loop_spec (todo : list Pos) :
  Forall inside todo →
  ∀ newGrid, ∃ made,
    GridSvc.group_loop (mkGridSvc (matrix rows)) fn newGrid todo = Ok made
    ∧ ∀ key, made !! key
             = match todo with
               | [] => newGrid !! key
               | _ =>
                   if bool_decide (key ∈ keys)
                   then Some (foldl (λ sub pos,
                                GridSvc.mutate_rows sub pos
                                  (get_field key (fn (cell rows pos) pos)))
                              (default GridSvc.blank_rows (newGrid !! key)) todo)
                   else newGrid !! key
               end.
Proof.
  intros Htodo. induction Htodo as [|pos todo Hpos Htodo IH]; intros newGrid.
  - exists newGrid. split; reflexivity.
  - cbn [GridSvc.group_loop].
    rewrite getCell_matrix, bind_Ok by (destruct Hpos; lia). cbv zeta.
    rewrite (same_keys pos Hpos).
    destruct (group_keys_spec pos (fn (cell rows pos) pos) keys distinct_keys own_keys newGrid)
      as (step & Hstep & Hlookup).
    rewrite Hstep, bind_Ok.
    destruct (IH step) as (made & Hmade & Hfinal).
    exists made. split; [exact Hmade|]. intros key. rewrite Hfinal, !Hlookup.
    destruct todo as [|next todo]; [reflexivity|].
    destruct (bool_decide (key ∈ keys)); reflexivity.
Qed.

End Group.

(** Writing every cell of the blank rows, in the order of the visit,
    leaves no hole. *)
Lemma mutate_rows_all (value : Pos → JsVal) :
  foldl (λ sub pos, GridSvc.mutate_rows sub pos (value pos)) GridSvc.blank_rows
    (iterateMatrix 9)
  = createMatrix 9 (λ pos, Some (value pos)).
Proof. reflexivity. Qed.

(** X24.  When the callback returns, at each of the 81 positions, an
    object with the same keys, none of them a name that objects inherit,
    [groupSubgrids] returns one grid for each key and no other; the grid
    under a key has no hole and holds at each position the value that the
    callback's object has under that key there.  With no key at all, the
    result is the empty object. *)
Theorem groupSubgrids_splits (rows : list (list JsVal))
    (fn : CBFn (list (string * JsVal))) (keys : list string) :
  9 ≤ length rows →
  (∀ pos, inside pos → fst <$> fn (cell rows pos) pos = keys) →
  (∀ key, key ∈ keys → key ∉ GridSvc.inherited_keys) →
  NoDup keys →
  ∃ groups,
    GridSvc.groupSubgrids (mkGridSvc (matrix rows)) fn = Ok groups
    ∧ ∀ key,
        groups !! key
        = if bool_decide (key ∈ keys)
          then Some (createMatrix 9 (λ pos, Some (get_field key (fn (cell rows pos) pos))))
          else None.
Proof.
  intros Hlen Hsame Hown Hdup.
  destruct (group_loop_spec fn rows keys Hlen Hsame Hown Hdup (iterateMatrix 9)
              Forall_inside_iterateMatrix ∅) as (groups & Hgroups & Hlookup).
  exists groups. split; [exact Hgroups|]. intros key. rewrite Hlookup.
  change (iterateMatrix 9) with (mkPos 0 0 :: tail (iterateMatrix 9)) at 1. cbv iota.
  rewrite lookup_empty.
  change (default GridSvc.blank_rows None) with GridSvc.blank_rows.
  rewrite (mutate_rows_all (λ pos, get_field key (fn (cell rows pos) pos))). reflexivity.
Qed.

Lemma groupSubgrids_splits_witness :
  9 ≤ length (digits sample)
  ∧ ∃ groups,
      GridSvc.groupSubgrids sample_grid
        (λ v pos, [("value", v); ("row", VNum (Z.of_nat (y pos)))]) = Ok groups
      ∧ ∀ key,
          groups !! key
          = if bool_decide (key ∈ ["value"; "row"])
            then Some (createMatrix 9 (λ pos,
                   Some (get_field key
                           [("value", cell (digits sample) pos);
                            ("row", VNum (Z.of_nat (y pos)))])))
            else None.
Proof.
  assert (Hlen : 9 ≤ length (digits sample)) by (vm_compute; lia).
  split; [exact Hlen|].
  apply (groupSubgrids_splits (digits sample)
           (λ v pos, [("value", v); ("row", VNum (Z.of_nat (y pos)))]) ["value"; "row"] Hlen).
  - intros pos _. reflexivity.
  - intros key Hkey. apply elem_of_cons in Hkey as [->|Hkey].
    + apply (bool_decide_eq_false_1 ("value" ∈ GridSvc.inherited_keys)). reflexivity.
    + apply list_elem_of_singleton in Hkey as ->.
      apply (bool_decide_eq_false_1 ("row" ∈ GridSvc.inherited_keys)). reflexivity.
  - apply NoDup_cons. split; [|apply NoDup_singleton].
    intros Hin%list_elem_of_singleton. discriminate Hin.
Defined.

(** X25.  Reading a cell outside a 9×9 grid: a column past the last one
    reads [undefined] and throws nothing; a row past the last one throws
    the [TypeError] of reading that column of [undefined]. *)
Theorem getCell_outside (rows : list (list JsVal)) (pos : Pos) :
  shape9 rows →
  let grid := mkGridSvc (matrix rows) in
  (inside pos →
   GridSvc.getCell grid pos = Ok (cell rows pos)
   ∧ ∃ row, rows !! y pos = Some row ∧ row !! x pos = Some (cell rows pos))
  ∧ (y pos < 9 → 9 ≤ x pos → GridSvc.getCell grid pos = Ok VUndef)
  ∧ (9 ≤ y pos →
     GridSvc.getCell grid pos
     = Throw (TypeError ("Cannot read properties of undefined (reading '"
                         +:+ pretty (x pos) +:+ "')"))).
Proof.
  intros Hshape grid. subst grid.
  assert (Hlen : length rows = 9) by apply Hshape.
  split; [|split].
  - intros Hpos. split; [apply getCell_matrix; destruct Hpos; lia|].
    apply shape9_cell; assumption.
  - intros Hy Hx. rewrite getCell_matrix by lia. f_equal.
    apply cell_outside_row; assumption.
  - intros Hy. apply getCell_missing_row. lia.
Qed.

Lemma getCell_outside_witness :
  shape9 (digits sample)
  ∧ (4 < 9 → 9 ≤ 9 → GridSvc.getCell sample_grid (mkPos 4 9) = Ok VUndef)
  ∧ (9 ≤ 9 →
     GridSvc.getCell sample_grid (mkPos 9 4)
     = Throw (TypeError "Cannot read properties of undefined (reading '4')")).
Proof.
  assert (Hshape : shape9 (digits sample)) by (split; [reflexivity|repeat constructor]).
  split; [exact Hshape|]. split.
  - exact (proj1 (proj2 (getCell_outside (digits sample) (mkPos 4 9) Hshape))).
  - exact (proj2 (proj2 (getCell_outside (digits sample) (mkPos 9 4) Hshape))).
Defined.

(** * The shared utilities *)

Section Clamp.

Lemma num_lt_irrefl (a : JsNum) : num_lt a a = false.
Proof.
  destruct a as [|[]|m k]; try reflexivity.
  unfold num_lt, align. apply Z.ltb_irrefl.
Qed.

Lemma num_max_eq (a b : JsNum) :
  a ≠ NaN → b ≠ NaN → Commons.num_max a b = if num_lt a b then b else a.
Proof. destruct a, b; congruence || reflexivity. Qed.

Lemma num_min_eq (a b : JsNum) :
  a ≠ NaN → b ≠ NaN → Commons.num_min a b = if num_lt b a then b else a.
Proof. destruct a, b; congruence || reflexivity. Qed.

End Clamp.

(** X26.  [clamp] of three numbers, none of them [NaN]: the result is
    never above [max]; when [min] is not above [max] it is never below
    [min], it is the value itself when the value lies between the two,
    and clamping it again changes nothing.  With a [NaN] among the three
    the result is [NaN]. *)
Theorem clamp_within (min max value : JsNum) :
  min ≠ NaN → max ≠ NaN → value ≠ NaN →
  let clamped := Commons.clamp min max value in
  clamped ≠ NaN
  ∧ num_lt max clamped = false
  ∧ (num_lt max min = false → num_lt clamped min = false)
  ∧ (num_lt value min = false → num_lt max value = false → clamped = value)
  ∧ (num_lt max min = false → Commons.clamp min max clamped = clamped)
  ∧ Commons.clamp NaN max value = NaN
  ∧ Commons.clamp min NaN value = NaN
  ∧ Commons.clamp min max NaN = NaN.
Proof.
  intros Hmin Hmax Hvalue clamped.
  assert (Hbetween : ∀ v, v ≠ NaN → num_lt v min = false → num_lt max v = false →
            Commons.clamp min max v = v).
  { intros v Hv Hlo Hhi. unfold Commons.clamp.
    rewrite (num_max_eq v min), Hlo by assumption.
    rewrite num_min_eq, Hhi by assumption. reflexivity. }
  assert (Hcases : clamped = min ∨ clamped = max ∨ clamped = value).
  { subst clamped. unfold Commons.clamp. rewrite (num_max_eq value min) by assumption.
    destruct (num_lt value min); rewrite num_min_eq by assumption;
      destruct (num_lt max _); auto. }
  assert (Hclamped : clamped ≠ NaN) by (destruct Hcases as [->|[->| ->]]; assumption).
  assert (Hhigh : num_lt max clamped = false).
  { subst clamped. unfold Commons.clamp. rewrite (num_max_eq value min) by assumption.
    destruct (num_lt value min); rewrite num_min_eq by assumption.
    - destruct (num_lt max min) eqn:Hhi; [apply num_lt_irrefl|exact Hhi].
    - destruct (num_lt max value) eqn:Hhi; [apply num_lt_irrefl|exact Hhi]. }
  assert (Hlow : num_lt max min = false → num_lt clamped min = false).
  { intros Hle. subst clamped. unfold Commons.clamp.
    rewrite (num_max_eq value min) by assumption.
    destruct (num_lt value min) eqn:Hlo; rewrite num_min_eq by assumption.
    - rewrite Hle. apply num_lt_irrefl.
    - destruct (num_lt max value); [exact Hle|exact Hlo]. }
  split; [exact Hclamped|]. split; [exact Hhigh|]. split; [exact Hlow|].
  split; [intros Hlo Hhi; apply Hbetween; assumption|].
  split; [intros Hle; apply Hbetween; [exact Hclamped|apply Hlow, Hle|exact Hhigh]|].
  unfold Commons.clamp. repeat split.
  - destruct value; reflexivity.
  - destruct (Commons.num_max value min); reflexivity.
Qed.

Lemma clamp_within_witness :
  Finite 0 0 ≠ NaN ∧ Finite 10 0 ≠ NaN ∧ Finite 15 0 ≠ NaN
  ∧ num_lt (Finite 10 0) (Commons.clamp (Finite 0 0) (Finite 10 0) (Finite 15 0)) = false.
Proof.
  assert (H0 : Finite 0 0 ≠ NaN) by discriminate.
  assert (H10 : Finite 10 0 ≠ NaN) by discriminate.
  assert (H15 : Finite 15 0 ≠ NaN) by discriminate.
  split; [exact H0|]. split; [exact H10|]. split; [exact H15|].
  exact (proj1 (proj2 (clamp_within (Finite 0 0) (Finite 10 0) (Finite 15 0) H0 H10 H15))).
Defined.

(** ** Queries on a mapped grid *)

Section MappedQueries.

Lemma all_from_ext {A} (f g : A → nat → bool) (l : list A) (i : nat) :
  (∀ k a, l !! k = Some a → f a (i + k) = g a (i + k)) →
  all_from f i l = all_from g i l.
Proof.
  revert i. induction l as [|a l IH]; intros i Hfg; [reflexivity|].
  cbn [all_from]. pose proof (Hfg 0 a eq_refl) as Ha. rewrite Nat.add_0_r in Ha.
  rewrite Ha, (IH (S i)); [reflexivity|].
  intros k b Hk. replace (S i + k) with (i + S k) by lia. apply Hfg, Hk.
Qed.

Lemma all_from_imap {A B} (g : B → nat → bool) (h : nat → A → B) (l : list A) (i : nat) :
  all_from g i (imap (λ k, h (i + k)) l) = all_from (λ a k, g (h k a) k) i l.
Proof.
  revert i. induction l as [|a l IH]; intros i; [reflexivity|].
  rewrite imap_cons. cbn [all_from]. rewrite Nat.add_0_r. f_equal.
  rewrite <- (IH (S i)). f_equal. apply imap_ext. intros k b _. cbn. f_equal. lia.
Qed.

Lemma everyGrid_mapped (rows : list (list JsVal)) (f : CBFn JsVal) (fn : CBFn bool) :
  GridSvc.everyGrid (mkGridSvc (matrix (mapped rows f))) fn
  = GridSvc.everyGrid (mkGridSvc (matrix rows)) (λ v pos, fn (f v pos) pos).
Proof.
  rewrite !everyGrid_matrix. f_equal. unfold mapped.
  rewrite (all_from_imap _ (λ r row, imap (λ c v, f v (mkPos r c)) row) rows 0).
  apply all_from_ext. intros r row _. cbn [Nat.add].
  apply (all_from_imap (λ v c, fn v (mkPos r c)) (λ c v, f v (mkPos r c)) row 0).
Qed.

End MappedQueries.

(** X27.  The whole-grid queries on a mapped grid are the queries of the
    composed predicate on the grid itself: [everyGrid] and [someGrid]
    after [mapGrid], on any array of row arrays, and [count] on a 9×9
    grid. *)
Theorem queries_after_mapGrid (rows : list (list JsVal)) (f : CBFn JsVal) (fn : CBFn bool) :
  let grid := mkGridSvc (matrix rows) in
  (GridSvc.mapGrid grid f ≫= λ made, GridSvc.everyGrid made fn)
  = GridSvc.everyGrid grid (λ v pos, fn (f v pos) pos)
  ∧ (GridSvc.mapGrid grid f ≫= λ made, GridSvc.someGrid made fn)
    = GridSvc.someGrid grid (λ v pos, fn (f v pos) pos)
  ∧ (shape9 rows →
     (GridSvc.mapGrid grid f ≫= λ made, GridSvc.count made fn)
     = GridSvc.count grid (λ v pos, fn (f v pos) pos)).
Proof.
  intros grid. subst grid. rewrite !mapGrid_matrix, !bind_Ok. split; [|split].
  - apply everyGrid_mapped.
  - rewrite !someGrid_dual, everyGrid_mapped. reflexivity.
  - intros Hshape.
    assert (Hlen : 9 ≤ length rows) by (destruct Hshape as [-> _]; lia).
    unfold GridSvc.count. rewrite !count_loop_matrix.
    + f_equal. f_equal. f_equal.
      pose proof Forall_inside_iterateMatrix as Hall. revert Hall.
      generalize (iterateMatrix 9). intros todo Hall.
      induction Hall as [|pos todo Hpos _ IH]; [reflexivity|].
      cbn [List.filter]. rewrite IH.
      destruct Hpos as [Hy Hx].
      destruct (shape9_row rows (y pos) Hshape Hy) as (row & Hrow & Hrlen).
      rewrite cell_mapped; [reflexivity|lia|].
      rewrite Hrow. change (default [] (Some row)) with row. lia.
    + apply Forall_rows_iterateMatrix, Hlen.
    + apply Forall_rows_iterateMatrix. unfold mapped. rewrite length_imap. exact Hlen.
Qed.
